(** * tCamMiniAnalog: a shallow embedding of the thermal-camera firmware core

    The development follows the firmware sources:
    - [CInt]   : the fixed-width integer conversions the C code relies on;
    - [Sys]    : [sys_utilities.h] (the shared lepton buffer record, the
                 [Notification] macro);
    - [Render] : [components/video/render.c] (the four base-raster renderers);
    - [Ps]     : [components/sys/ps_utilities.c] (the cached persistent values);
    - [Lep]    : [main/lep_task.c] (the acquisition state machine);
    - [Vid]    : [main/video_task.c] (display handoff and parameter session);
    - [Ctrl]   : [main/ctrl_task.c] (control state, fault LED, button);
    - [Draw]   : [components/video/render.c] (the drawing primitives and the
                 min/max markers);
    - [PsInit] : [components/sys/ps_utilities.c] ([ps_init]);
    - [Boot]   : [main/main.c] ([app_main]).

    Buffers are lists indexed by pointer offsets; C integer variables are [Z]
    with the conversions of the source written out; every task loop body is a
    function from the task's variables (a record) to the new variables and the
    calls it made to its collaborators (an event list, oldest first). *)

From Stdlib Require Import String ZArith Lia Bool List.
From stdpp Require Import base numbers list.

(* ================================================================= *)
(** * Part I: the embedding                                           *)
(* ================================================================= *)

(** ** Fixed-width integers *)
Module CInt.

(** Conversion to [uint8_t]: keep the low eight bits. *)
Definition u8 (v : Z) : Z := Z.land v 255.

(** Conversion to [uint32_t]: reduce modulo 2^32. *)
Definition u32 (v : Z) : Z := (v mod 2 ^ 32)%Z.

(** [*p] for a pointer [p] at offset [p] into [buf]; a read outside the
    buffer (undefined in C) yields 0. *)
Definition rd (buf : list Z) (p : nat) : Z := default 0%Z (buf !! p).

(** [*p = v] for a [uint8_t*] at offset [p]: the value is converted to
    [uint8_t]; a write outside the buffer (undefined in C) is dropped. *)
Definition store8 (img : list Z) (p : nat) (v : Z) : list Z := <[p := u8 v]> img.

(** [memcpy(buf + dst, buf + src, n)], byte by byte, lowest address first. *)
Fixpoint memcpy (buf : list Z) (dst src : nat) (n : nat) : list Z :=
  match n with
  | O => buf
  | S n' => memcpy (<[dst := rd buf src]> buf) (S dst) (S src) n'
  end.

End CInt.
Export CInt.

(** ** sys_utilities.h *)
Module Sys.

(** [lep_buffer_t]; the mutex handle carries no data and is left out. *)
Record lep_buffer_t := {
  telem_valid : bool;
  lep_min_val : Z;
  lep_min_x : Z;
  lep_min_y : Z;
  lep_max_val : Z;
  lep_max_x : Z;
  lep_max_y : Z;
  lep_bufferP : list Z;
  lep_telemP : list Z
}.

Definition set_lep_bufferP (lep : lep_buffer_t) (b : list Z) : lep_buffer_t :=
  {| telem_valid := telem_valid lep;
     lep_min_val := lep_min_val lep; lep_min_x := lep_min_x lep; lep_min_y := lep_min_y lep;
     lep_max_val := lep_max_val lep; lep_max_x := lep_max_x lep; lep_max_y := lep_max_y lep;
     lep_bufferP := b; lep_telemP := lep_telemP lep |}.

(** [#define Notification(var, mask) ((var & mask) == mask)] *)
Definition Notification (var mask : Z) : bool := (Z.land var mask =? mask)%Z.

End Sys.
Export Sys.

(** ** render.c: the base-raster renderers *)
Module Render.

Definition SF_DS : Z := 3.
Definition SF_QS : Z := 5.
Definition DIV_DS : Z := SF_DS + 1.
Definition DIV_QS : Z := SF_QS + 3.

(** [gui_state_t] *)
Record gui_state_t := {
  agc_enabled : bool;
  black_hot_palette : bool;
  display_interp_enable : bool;
  is_radiometric : bool;
  min_max_enable : bool;
  spotmeter_enable : bool;
  temp_unit_C : bool;
  rad_high_res : bool
}.

(** [diff = max_val - min_val; if (diff == 0) diff = 1;] with [diff] a
    [uint32_t]: the [int] difference is converted to 32 unsigned bits. *)
Definition rad_diff (min_val max_val : Z) : Z :=
  let diff := u32 (max_val - min_val) in
  if (diff =? 0)%Z then 1%Z else diff.

(** The scaling both radiometric renderers apply to one sample [p]:
    [if (p < min_val) 0 else { t32 = ((uint32_t)(p - min_val) * 255) / diff;
    (t32 > 255) ? 255 : (uint8_t) t32 }]. *)
Definition rad_t8 (min_val diff : Z) (p : Z) : Z :=
  if (p <? min_val)%Z then 0%Z
  else
    let t32 := (u32 (u32 (p - min_val) * 255) / diff)%Z in
    if (255 <? t32)%Z then 255%Z else u8 t32.

(** [(uint8_t)(p & 0xFF)]: what the AGC renderers take from a sample. *)
Definition agc_t8 (p : Z) : Z := u8 (Z.land p 255).

Section Dimensions.
(** [LEP_WIDTH] and [LEP_HEIGHT] come from [vospi.h]. *)
Variables LEP_WIDTH LEP_HEIGHT : nat.

(** [interp_set_pixel]: [*(img + y*2*LEP_WIDTH + x) = (uint8_t)(src & 0xFF) ^ mod]. *)
Definition interp_set_pixel (pm : Z) (src : Z) (img : list Z) (x y : nat) : list Z :=
  store8 img (y * 2 * LEP_WIDTH + x) (Z.lxor (u8 (Z.land src 255)) pm).

(** The [for] loop of [interp_set_outer_row], [n] iterations left;
    [sp] and [ip] are the offsets of [src] and [img]. *)
Fixpoint interp_row_loop (pm : Z) (src : list Z) (n : nat)
         (img : list Z) (sp ip : nat) (B : Z) : list Z :=
  match n with
  | O => img
  | S n' =>
      let A := B in
      let sp := S sp in
      let B := u8 (rd src sp) in
      let sub_pixel := u8 ((SF_DS * A + B) ÷ DIV_DS) in
      let img := store8 img ip (Z.lxor sub_pixel pm) in
      let ip := S ip in
      let sub_pixel := u8 ((A + SF_DS * B) ÷ DIV_DS) in
      let img := store8 img ip (Z.lxor sub_pixel pm) in
      let ip := S ip in
      interp_row_loop pm src n' img sp ip B
  end.

Definition interp_set_outer_row (pm : Z) (src img : list Z) (first_row : bool) : list Z :=
  let '(sp, ip) :=
    if first_row then (0, 1)
    else ((LEP_HEIGHT - 1) * LEP_WIDTH, (2 * LEP_HEIGHT - 1) * LEP_WIDTH * 2 + 1) in
  let B := u8 (rd src sp) in
  interp_row_loop pm src (LEP_WIDTH - 1) img sp ip B.

(** The [for] loop of [interp_set_outer_col]. *)
Fixpoint interp_col_loop (pm : Z) (src : list Z) (n : nat)
         (img : list Z) (sp ip : nat) (B : Z) : list Z :=
  match n with
  | O => img
  | S n' =>
      let A := B in
      let sp := sp + LEP_WIDTH in
      let B := u8 (rd src sp) in
      let sub_pixel := u8 ((SF_DS * A + B) ÷ DIV_DS) in
      let img := store8 img ip (Z.lxor sub_pixel pm) in
      let ip := ip + 2 * LEP_WIDTH in
      let sub_pixel := u8 ((A + SF_DS * B) ÷ DIV_DS) in
      let img := store8 img ip (Z.lxor sub_pixel pm) in
      let ip := ip + 2 * LEP_WIDTH in
      interp_col_loop pm src n' img sp ip B
  end.

Definition interp_set_outer_col (pm : Z) (src img : list Z) (first_col : bool) : list Z :=
  let '(sp, ip) :=
    if first_col then (0, 2 * LEP_WIDTH)
    else (LEP_WIDTH - 1, 2 * LEP_WIDTH + (2 * LEP_WIDTH - 1)) in
  let B := u8 (rd src sp) in
  interp_col_loop pm src (LEP_HEIGHT - 1) img sp ip B.

(** The inner [for (x...)] loop of [interp_set_inner]; it hands back the
    advanced pointers. *)
Fixpoint interp_inner_x (pm : Z) (src : list Z) (n : nat)
         (img : list Z) (sp ip : nat) (B D : Z) : list Z * nat * nat :=
  match n with
  | O => (img, sp, ip)
  | S n' =>
      let A := B in
      let C := D in
      let sp := S sp in
      let B := u8 (rd src sp) in
      let D := u8 (rd src (sp + LEP_WIDTH)) in
      let sub_pixel := u8 ((SF_QS * A + B + C + D) ÷ DIV_QS) in
      let img := store8 img ip (Z.lxor sub_pixel pm) in
      let sub_pixel := u8 ((A + B + SF_QS * C + D) ÷ DIV_QS) in
      let img := store8 img (ip + 2 * LEP_WIDTH) (Z.lxor sub_pixel pm) in
      let ip := S ip in
      let sub_pixel := u8 ((A + SF_QS * B + C + D) ÷ DIV_QS) in
      let img := store8 img ip (Z.lxor sub_pixel pm) in
      let sub_pixel := u8 ((A + B + C + SF_QS * D) ÷ DIV_QS) in
      let img := store8 img (ip + 2 * LEP_WIDTH) (Z.lxor sub_pixel pm) in
      let ip := S ip in
      interp_inner_x pm src n' img sp ip B D
  end.

(** The outer [for (y...)] loop of [interp_set_inner]. *)
Fixpoint interp_inner_y (pm : Z) (src : list Z) (n : nat)
         (img : list Z) (sp ip : nat) : list Z :=
  match n with
  | O => img
  | S n' =>
      let B := u8 (rd src sp) in
      let D := u8 (rd src (sp + LEP_WIDTH)) in
      let '(img, sp, ip) := interp_inner_x pm src (LEP_WIDTH - 1) img sp ip B D in
      let sp := S sp in
      let ip := ip + (2 * LEP_WIDTH + 2) in
      interp_inner_y pm src n' img sp ip
  end.

Definition interp_set_inner (pm : Z) (src img : list Z) : list Z :=
  interp_inner_y pm src (LEP_HEIGHT - 1) img 0 (2 * LEP_WIDTH + 1).

Definition render_interp_agc_data (pm : Z) (buf img : list Z) : list Z :=
  let img := interp_set_pixel pm (rd buf 0) img 0 0 in
  let img := interp_set_pixel pm (rd buf (LEP_WIDTH - 1)) img (2 * LEP_WIDTH - 1) 0 in
  let img := interp_set_pixel pm (rd buf (LEP_WIDTH * (LEP_HEIGHT - 1)))
                              img 0 (2 * LEP_HEIGHT - 1) in
  let img := interp_set_pixel pm (rd buf (LEP_WIDTH * (LEP_HEIGHT - 1) + (LEP_WIDTH - 1)))
                              img (2 * LEP_WIDTH - 1) (2 * LEP_HEIGHT - 1) in
  let img := interp_set_outer_row pm buf img true in
  let img := interp_set_outer_row pm buf img false in
  let img := interp_set_outer_col pm buf img true in
  let img := interp_set_outer_col pm buf img false in
  interp_set_inner pm buf img.

(** The [do ... while (++lepP < lep_bufferP + LEP_WIDTH*LEP_HEIGHT)] of
    [render_interp_rad_data], after its first pass: [n] passes left. *)
Fixpoint linearize_loop (min_val diff : Z) (n : nat) (buf : list Z) (lepP : nat) : list Z :=
  match n with
  | O => buf
  | S n' =>
      let buf := <[lepP := rad_t8 min_val diff (rd buf lepP)]> buf in
      linearize_loop min_val diff n' buf (S lepP)
  end.

Definition render_interp_rad_data (pm : Z) (lep : lep_buffer_t) (img : list Z)
  : lep_buffer_t * list Z :=
  let min_val := lep_min_val lep in
  let max_val := lep_max_val lep in
  let diff := rad_diff min_val max_val in
  (* the body runs once before the loop test *)
  let buf := <[0 := rad_t8 min_val diff (rd (lep_bufferP lep) 0)]> (lep_bufferP lep) in
  let buf := linearize_loop min_val diff (LEP_WIDTH * LEP_HEIGHT - 1) buf 1 in
  (set_lep_bufferP lep buf, render_interp_agc_data pm buf img).

(** The [while (ptr < lep_bufferP + (src_y+1)*LEP_WIDTH)] loop shared in
    shape by [render_double_rad_data] and [render_double_agc_data]; [t8]
    is what each takes from a sample ([rad_t8] or [agc_t8]). *)
Fixpoint double_line (t8 : Z -> Z) (pm : Z) (src : list Z) (n : nat)
         (img : list Z) (ptr ip : nat) : list Z * nat * nat :=
  match n with
  | O => (img, ptr, ip)
  | S n' =>
      let v := t8 (rd src ptr) in
      let ptr := S ptr in
      let img := store8 img ip (Z.lxor v pm) in
      let ip := S ip in
      let img := store8 img ip (Z.lxor v pm) in
      let ip := S ip in
      double_line t8 pm src n' img ptr ip
  end.

(** The [for (src_y...)] loop of the two doubling renderers, [n] source
    lines left. *)
Fixpoint double_lines (t8 : Z -> Z) (pm : Z) (src : list Z) (n : nat) (src_y : nat)
         (img : list Z) (ptr ip : nat) : list Z :=
  match n with
  | O => img
  | S n' =>
      let '(img, ptr, ip) :=
        double_line t8 pm src ((src_y + 1) * LEP_WIDTH - ptr) img ptr ip in
      let img := memcpy img ip (ip - 2 * LEP_WIDTH) (2 * LEP_WIDTH) in
      let ip := ip + 2 * LEP_WIDTH in
      double_lines t8 pm src n' (S src_y) img ptr ip
  end.

Definition render_double_rad_data (pm : Z) (lep : lep_buffer_t) (img : list Z) : list Z :=
  let min_val := lep_min_val lep in
  let max_val := lep_max_val lep in
  let diff := rad_diff min_val max_val in
  double_lines (rad_t8 min_val diff) pm (lep_bufferP lep) LEP_HEIGHT 0 img 0 0.

Definition render_double_agc_data (pm : Z) (lep : lep_buffer_t) (img : list Z) : list Z :=
  double_lines agc_t8 pm (lep_bufferP lep) LEP_HEIGHT 0 img 0 0.

(** [render_lep_data]; the file-level [render_palette_mod] it sets is
    passed to the renderer it selects.  The interpolating radiometric
    renderer rewrites the lepton buffer, so the buffer is returned too. *)
Definition render_lep_data (lep : lep_buffer_t) (img : list Z) (g : gui_state_t)
  : lep_buffer_t * list Z :=
  let render_palette_mod := if black_hot_palette g then 255%Z else 0%Z in
  if display_interp_enable g then
    if agc_enabled g then
      (lep, render_interp_agc_data render_palette_mod (lep_bufferP lep) img)
    else
      render_interp_rad_data render_palette_mod lep img
  else
    if agc_enabled g then
      (lep, render_double_agc_data render_palette_mod lep img)
    else
      (lep, render_double_rad_data render_palette_mod lep img).

End Dimensions.
End Render.

(** ** The raster laws the renderers are checked against *)
Module RenderSpec.
Import Render.

Definition blend2 (o n : Z) : Z := ((3 * o + n) / 4)%Z.
Definition blend4 (o n1 n2 n3 : Z) : Z := ((5 * o + n1 + n2 + n3) / 8)%Z.

Definition idx (W X Y : nat) : nat := Y * (2 * W) + X.
Definition px (W : nat) (src : list Z) (x y : nat) : Z := u8 (rd src (y * W + x)).

Definition nb (c d : nat) : nat := if d =? 0 then c - 1 else c + 1.
Definition outer (n c d : nat) : bool := ((c =? 0) && (d =? 0)) || ((c =? n - 1) && (d =? 1)).
Definition interp_base (W H : nat) (src : list Z) (x dx y dy : nat) : Z :=
  let o := px W src x y in
  match outer W x dx, outer H y dy with
  | true, true => o
  | false, true => blend2 o (px W src (nb x dx) y)
  | true, false => blend2 o (px W src x (nb y dy))
  | false, false =>
      blend4 o (px W src (nb x dx) y) (px W src x (nb y dy)) (px W src (nb x dx) (nb y dy))
  end.

Definition rad_claim (min_val max_val v : Z) : Z :=
  if (v <? min_val)%Z then 0%Z
  else Z.min 255 ((v - min_val) * 255 / Z.max 1 (max_val - min_val)).

Definition src_px (W : nat) (src : list Z) (x y : nat) : Z := rd src (y * W + x).

End RenderSpec.

(** ** ctrl_task.h and video_task.h: the constants the tasks share *)
Module Consts.

Definition CTRL_EVAL_MSEC : Z := 50.
Definition CTRL_BTN_LONG_PRESS_MSEC : Z := 3000.
Definition CTRL_FAULT_BLINK_ON_MSEC : Z := 200.
Definition CTRL_FAULT_BLINK_OFF_MSEC : Z := 300.
Definition CTRL_FAULT_IDLE_MSEC : Z := 2000.

Definition CTRL_FAULT_NONE : Z := 0.
Definition CTRL_FAULT_ESP32_INIT : Z := 1.
Definition CTRL_FAULT_PERIPH_INIT : Z := 2.
Definition CTRL_FAULT_MEM_INIT : Z := 3.
Definition CTRL_FAULT_LEP_CCI : Z := 4.
Definition CTRL_FAULT_LEP_VOSPI : Z := 5.
Definition CTRL_FAULT_LEP_SYNC : Z := 6.

Definition CTRL_NOTIFY_STARTUP_DONE : Z := 1.
Definition CTRL_NOTIFY_FAULT : Z := 2.
Definition CTRL_NOTIFY_FAULT_CLEAR : Z := 4.

Definition VID_NOTIFY_LEP_FRAME_MASK_1 : Z := 1.
Definition VID_NOTIFY_LEP_FRAME_MASK_2 : Z := 2.
Definition VID_NOTIFY_PARM_CHANGE_MASK : Z := 16.
Definition VID_NOTIFY_PARM_SELECT_MASK : Z := 32.

End Consts.
Export Consts.

(** ** lep_task.c: the acquisition state machine *)
Module Lep.

Definition STATE_INIT : Z := 0.
Definition STATE_RUN : Z := 1.
Definition STATE_RE_INIT : Z := 2.
Definition STATE_ERROR : Z := 3.

(** The local variables of [lep_task] that live across loop passes. *)
Record lep_vars := {
  task_state : Z;
  vid_buf_index : Z;
  vsync_count : Z;
  sync_fail_count : Z;
  reset_fail_count : Z
}.

(** What one pass of the loop asks of its collaborators, in program order. *)
Inductive lep_call :=
| ctrl_set_fault_type (f : Z)
| xSemaphoreTake (buf : Z)
| vospi_get_frame (buf : Z)
| xSemaphoreGive (buf : Z)
| xTaskNotify_vid (mask : Z)
| vTaskDelay (ms : Z)
| gpio_set_level_reset (level : Z).

Section Limits.
(** [LEP_SYNC_FAIL_FAULT_LIMIT] and [LEP_RESET_FAIL_RETRY_SECS] come from
    [lep_task.h]. *)
Variables LEP_SYNC_FAIL_FAULT_LIMIT LEP_RESET_FAIL_RETRY_SECS : Z.

(** [case STATE_INIT], [ok] being what [lepton_init()] returned. *)
Definition lep_state_init (ok : bool) (s : lep_vars) : lep_vars * list lep_call :=
  if ok then
    ({| task_state := STATE_RUN; vid_buf_index := vid_buf_index s;
        vsync_count := vsync_count s; sync_fail_count := sync_fail_count s;
        reset_fail_count := reset_fail_count s |}, [])
  else
    ({| task_state := STATE_ERROR; vid_buf_index := vid_buf_index s;
        vsync_count := vsync_count s; sync_fail_count := sync_fail_count s;
        reset_fail_count := LEP_RESET_FAIL_RETRY_SECS |},
     [ctrl_set_fault_type CTRL_FAULT_LEP_CCI]).

(** [case STATE_RUN] once vsync is seen, [ok] being what
    [vospi_transfer_segment()] returned. *)
Definition lep_state_run (ok : bool) (s : lep_vars) : lep_vars * list lep_call :=
  if ok then
    let vsync_count := 0%Z in
    let buf := vid_buf_index s in
    let frame := [xSemaphoreTake buf; vospi_get_frame buf; xSemaphoreGive buf] in
    let '(notify, vid_buf_index) :=
      if (buf =? 0)%Z then ([xTaskNotify_vid VID_NOTIFY_LEP_FRAME_MASK_1], 1%Z)
      else ([xTaskNotify_vid VID_NOTIFY_LEP_FRAME_MASK_2], 0%Z) in
    let clear :=
      if (LEP_SYNC_FAIL_FAULT_LIMIT <=? sync_fail_count s)%Z
      then [ctrl_set_fault_type CTRL_FAULT_NONE] else [] in
    ({| task_state := task_state s; vid_buf_index := vid_buf_index;
        vsync_count := vsync_count; sync_fail_count := 0; reset_fail_count := 0 |},
     frame ++ notify ++ clear ++ [vTaskDelay 30])
  else
    let vsync_count := (vsync_count s + 1)%Z in
    if (vsync_count =? 36)%Z then
      let vsync_count := 0%Z in
      let pause := [vTaskDelay 185] in
      let tested := sync_fail_count s in
      let sync_fail_count := (sync_fail_count s + 1)%Z in
      if (tested =? LEP_SYNC_FAIL_FAULT_LIMIT)%Z then
        let sync_fail_count := 0%Z in
        let fault := [ctrl_set_fault_type CTRL_FAULT_LEP_SYNC] in
        if (reset_fail_count s =? 0)%Z then
          ({| task_state := STATE_RE_INIT; vid_buf_index := vid_buf_index s;
              vsync_count := vsync_count; sync_fail_count := sync_fail_count;
              reset_fail_count := reset_fail_count s |}, pause ++ fault)
        else
          ({| task_state := STATE_ERROR; vid_buf_index := vid_buf_index s;
              vsync_count := vsync_count; sync_fail_count := sync_fail_count;
              reset_fail_count := LEP_RESET_FAIL_RETRY_SECS |}, pause ++ fault)
      else
        ({| task_state := task_state s; vid_buf_index := vid_buf_index s;
            vsync_count := vsync_count; sync_fail_count := sync_fail_count;
            reset_fail_count := reset_fail_count s |}, pause)
    else
      ({| task_state := task_state s; vid_buf_index := vid_buf_index s;
          vsync_count := vsync_count; sync_fail_count := sync_fail_count s;
          reset_fail_count := reset_fail_count s |}, []).

(** [case STATE_RE_INIT], [ok] being what [lepton_init()] returned. *)
Definition lep_state_re_init (ok : bool) (s : lep_vars) : lep_vars * list lep_call :=
  let reset := [gpio_set_level_reset 1; vTaskDelay 10; gpio_set_level_reset 0;
                vTaskDelay 1000] in
  if ok then
    ({| task_state := STATE_RUN; vid_buf_index := vid_buf_index s;
        vsync_count := vsync_count s; sync_fail_count := sync_fail_count s;
        reset_fail_count := 1 |}, reset)
  else
    ({| task_state := STATE_ERROR; vid_buf_index := vid_buf_index s;
        vsync_count := vsync_count s; sync_fail_count := sync_fail_count s;
        reset_fail_count := LEP_RESET_FAIL_RETRY_SECS |},
     reset ++ [ctrl_set_fault_type CTRL_FAULT_LEP_CCI]).

(** [case STATE_ERROR]. *)
Definition lep_state_error (s : lep_vars) : lep_vars * list lep_call :=
  let reset_fail_count := (reset_fail_count s - 1)%Z in
  ({| task_state := if (reset_fail_count =? 0)%Z then STATE_RE_INIT else task_state s;
      vid_buf_index := vid_buf_index s;
      vsync_count := vsync_count s; sync_fail_count := sync_fail_count s;
      reset_fail_count := reset_fail_count |}, [vTaskDelay 1000]).

(** One pass through [while (true) switch (task_state)]; [ok] is the answer
    of the one external query the pass makes, if it makes one. *)
Definition lep_task_pass (ok : bool) (s : lep_vars) : lep_vars * list lep_call :=
  if (task_state s =? STATE_INIT)%Z then lep_state_init ok s
  else if (task_state s =? STATE_RUN)%Z then lep_state_run ok s
  else if (task_state s =? STATE_RE_INIT)%Z then lep_state_re_init ok s
  else if (task_state s =? STATE_ERROR)%Z then lep_state_error s
  else
    ({| task_state := STATE_RE_INIT; vid_buf_index := vid_buf_index s;
        vsync_count := vsync_count s; sync_fail_count := sync_fail_count s;
        reset_fail_count := reset_fail_count s |}, []).

(** Successive passes, one external answer per pass; the calls accumulate. *)
Fixpoint lep_task_run (oks : list bool) (s : lep_vars) : lep_vars * list lep_call :=
  match oks with
  | [] => (s, [])
  | ok :: oks' =>
      let '(s1, c1) := lep_task_pass ok s in
      let '(s2, c2) := lep_task_run oks' s1 in
      (s2, c1 ++ c2)
  end.

End Limits.
End Lep.

(** ** The vocabulary of the acquisition properties *)
Module LepSpec.
Import Lep.

(** The task's variables as [lep_task] initialises them. *)
Definition lep_task_start : lep_vars :=
  {| task_state := STATE_INIT; vid_buf_index := 0; vsync_count := 0;
     sync_fail_count := 0; reset_fail_count := 0 |}.

(** The variables after [m] consecutive misses in the Run state, counted
    from zeroed miss and failure counters, while no fault has been raised:
    the miss counter holds [m mod 36] and the failure counter [m / 36]. *)
Definition lep_after_misses (s : lep_vars) (m : nat) : lep_vars :=
  {| task_state := STATE_RUN; vid_buf_index := vid_buf_index s;
     vsync_count := Z.of_nat (m mod 36); sync_fail_count := Z.of_nat (m / 36);
     reset_fail_count := reset_fail_count s |}.

End LepSpec.

(** ** ps_utilities.c: the persistent parameters *)
Module Ps.

Definition PS_PARM_PALETTE_MARKER : Z := 0.
Definition PS_PARM_EMISSIVITY : Z := 1.
Definition PS_PARM_UNITS : Z := 2.

Definition PS_PARAM_PALETTE_MARKER_DEF : Z := 0.
Definition PS_PARAM_EMISSIVITY_DEF : Z := 97.
Definition PS_PARAM_UNITS_DEF : Z := 0.

Definition palette_marker_info_key : string := "palette_marker".
Definition emissivity_info_key : string := "emissivity".
Definition units_info_key : string := "units".

(** The three cached values and the [nvs_set_i32] writes made so far,
    oldest first. *)
Record ps_vars := {
  val_palette_marker : Z;
  val_emissivity : Z;
  val_units : Z;
  nvs_writes : list (string * Z)
}.

Definition ps_get_parm (ps : ps_vars) (index : Z) : Z :=
  if (index =? PS_PARM_PALETTE_MARKER)%Z then val_palette_marker ps
  else if (index =? PS_PARM_EMISSIVITY)%Z then val_emissivity ps
  else if (index =? PS_PARM_UNITS)%Z then val_units ps
  else 0%Z.

Definition ps_set_parm (ps : ps_vars) (index val : Z) : ps_vars :=
  if (index =? PS_PARM_PALETTE_MARKER)%Z then
    {| val_palette_marker := val; val_emissivity := val_emissivity ps;
       val_units := val_units ps;
       nvs_writes := nvs_writes ps ++ [(palette_marker_info_key, val)] |}
  else if (index =? PS_PARM_EMISSIVITY)%Z then
    {| val_palette_marker := val_palette_marker ps; val_emissivity := val;
       val_units := val_units ps;
       nvs_writes := nvs_writes ps ++ [(emissivity_info_key, val)] |}
  else if (index =? PS_PARM_UNITS)%Z then
    {| val_palette_marker := val_palette_marker ps; val_emissivity := val_emissivity ps;
       val_units := val;
       nvs_writes := nvs_writes ps ++ [(units_info_key, val)] |}
  else ps.

End Ps.

(** ** video_task.c: display handoff and the parameter session *)
Module Vid.
Import Render Ps.

Definition VID_EVAL_MSEC : Z := 20.

Definition NUM_PARMS : Z := 3.
Definition PARM_INDEX_MARKER : Z := 0.
Definition PARM_INDEX_EMISSIVITY : Z := 1.
Definition PARM_INDEX_UNITS : Z := 2.

Definition NUM_M_PARM_VALS : Z := 4.
Definition M_PARM_MARKER_MASK : Z := 1.
Definition M_PARM_PALETTE_MASK : Z := 2.

Definition NUM_E_PARM_VALS : Z := 23.
Definition parm_e_value : list Z :=
  [10; 20; 30; 40; 50; 60; 70; 80; 82; 84; 86; 88;
   90; 91; 92; 93; 94; 95; 96; 97; 98; 99; 100]%Z.

Definition NUM_U_PARM_VALS : Z := 2.

Definition PARM_ENTRY_TIMEOUT_MSEC : Z := CTRL_BTN_LONG_PRESS_MSEC + 7000.

(** [parm_e_value[i]]; outside the table (undefined in C) it reads 0. *)
Definition parm_e_value_at (i : Z) : Z :=
  if (i <? 0)%Z then 0%Z else nth (Z.to_nat i) parm_e_value 0%Z.

(** The [for] loop of [_vid_get_emissivity_index] over the rest of the
    table, [i] being the index of its head. *)
Fixpoint emissivity_index_from (tbl : list Z) (i : Z) (cur_e : Z) : Z :=
  match tbl with
  | [] => (NUM_E_PARM_VALS - 1)%Z
  | e :: tbl' => if (e =? cur_e)%Z then i else emissivity_index_from tbl' (i + 1)%Z cur_e
  end.

Definition _vid_get_emissivity_index (cur_e : Z) : Z :=
  emissivity_index_from parm_e_value 0 cur_e.

(** The parameter-selection variables, with the [prev_time] static of
    [_vid_eval_parm_update]. *)
Record parm_vars := {
  cur_parm_index : Z;
  cur_parm_max_index : Z;
  cur_parm_value : Z;
  prev_parm_value : Z;
  parm_entry_timeout : Z;
  prev_time : Z
}.

(** The frame memory the task works on: the driver's frame buffer, the two
    rendering buffers [rend_fbP] and the two lepton buffers. *)
Record vid_bufs := {
  drv_fb : list Z;
  rend_fb0 : list Z;
  rend_fb1 : list Z;
  vid_lep_buffer0 : lep_buffer_t;
  vid_lep_buffer1 : lep_buffer_t
}.

(** What the task asks of its collaborators.  [display_image] and
    [render_image] mark the entry of [_vid_display_image] and
    [_vid_render_image], so that their order within a pass is on record. *)
Inductive vid_call :=
| lepton_emissivity (e : Z)
| video_wait_frame
| display_image (render_buf_index : Z)
| render_image (render_buf_index : Z)
| vTaskDelay (ms : Z).

Record vid_vars := {
  notify_image_1 : bool;
  notify_image_2 : bool;
  notify_parm_val_change : bool;
  notify_parm_sel_change : bool;
  gui_state : gui_state_t;
  parm : parm_vars;
  ps : ps_vars;
  bufs : vid_bufs;
  calls : list vid_call
}.

Definition set_notify (n1 n2 nv ns : bool) (s : vid_vars) : vid_vars :=
  {| notify_image_1 := n1; notify_image_2 := n2;
     notify_parm_val_change := nv; notify_parm_sel_change := ns;
     gui_state := gui_state s; parm := parm s; ps := ps s; bufs := bufs s;
     calls := calls s |}.

Definition set_gui_state (g : gui_state_t) (s : vid_vars) : vid_vars :=
  {| notify_image_1 := notify_image_1 s; notify_image_2 := notify_image_2 s;
     notify_parm_val_change := notify_parm_val_change s;
     notify_parm_sel_change := notify_parm_sel_change s;
     gui_state := g; parm := parm s; ps := ps s; bufs := bufs s; calls := calls s |}.

Definition set_parm (p : parm_vars) (s : vid_vars) : vid_vars :=
  {| notify_image_1 := notify_image_1 s; notify_image_2 := notify_image_2 s;
     notify_parm_val_change := notify_parm_val_change s;
     notify_parm_sel_change := notify_parm_sel_change s;
     gui_state := gui_state s; parm := p; ps := ps s; bufs := bufs s; calls := calls s |}.

Definition set_ps (q : ps_vars) (s : vid_vars) : vid_vars :=
  {| notify_image_1 := notify_image_1 s; notify_image_2 := notify_image_2 s;
     notify_parm_val_change := notify_parm_val_change s;
     notify_parm_sel_change := notify_parm_sel_change s;
     gui_state := gui_state s; parm := parm s; ps := q; bufs := bufs s; calls := calls s |}.

Definition set_bufs (b : vid_bufs) (s : vid_vars) : vid_vars :=
  {| notify_image_1 := notify_image_1 s; notify_image_2 := notify_image_2 s;
     notify_parm_val_change := notify_parm_val_change s;
     notify_parm_sel_change := notify_parm_sel_change s;
     gui_state := gui_state s; parm := parm s; ps := ps s; bufs := b; calls := calls s |}.

Definition call (c : vid_call) (s : vid_vars) : vid_vars :=
  {| notify_image_1 := notify_image_1 s; notify_image_2 := notify_image_2 s;
     notify_parm_val_change := notify_parm_val_change s;
     notify_parm_sel_change := notify_parm_sel_change s;
     gui_state := gui_state s; parm := parm s; ps := ps s; bufs := bufs s;
     calls := calls s ++ [c] |}.

(** The marker/palette update of the GUI state from a parameter value. *)
Definition gui_set_marker_palette (v : Z) (g : gui_state_t) : gui_state_t :=
  {| agc_enabled := agc_enabled g;
     black_hot_palette := (Z.land v M_PARM_PALETTE_MASK =? M_PARM_PALETTE_MASK)%Z;
     display_interp_enable := display_interp_enable g;
     is_radiometric := is_radiometric g;
     min_max_enable := (Z.land v M_PARM_MARKER_MASK =? M_PARM_MARKER_MASK)%Z;
     spotmeter_enable := (Z.land v M_PARM_MARKER_MASK =? M_PARM_MARKER_MASK)%Z;
     temp_unit_C := temp_unit_C g;
     rad_high_res := rad_high_res g |}.

Definition gui_set_temp_unit_C (b : bool) (g : gui_state_t) : gui_state_t :=
  {| agc_enabled := agc_enabled g; black_hot_palette := black_hot_palette g;
     display_interp_enable := display_interp_enable g;
     is_radiometric := is_radiometric g; min_max_enable := min_max_enable g;
     spotmeter_enable := spotmeter_enable g; temp_unit_C := b;
     rad_high_res := rad_high_res g |}.

(** The set-up at the head of [vid_task], from the stored parameters; the
    GUI flags the set-up leaves alone are zero-initialised statics. *)
Definition vid_task_init (q : ps_vars) (b : vid_bufs) : vid_vars :=
  let cur_parm_value := ps_get_parm q PS_PARM_PALETTE_MARKER in
  {| notify_image_1 := false; notify_image_2 := false;
     notify_parm_val_change := false; notify_parm_sel_change := false;
     gui_state :=
       {| agc_enabled := false;
          black_hot_palette :=
            (Z.land cur_parm_value M_PARM_PALETTE_MASK =? M_PARM_PALETTE_MASK)%Z;
          display_interp_enable := true;
          is_radiometric := false;
          min_max_enable :=
            (Z.land cur_parm_value M_PARM_MARKER_MASK =? M_PARM_MARKER_MASK)%Z;
          spotmeter_enable :=
            (Z.land cur_parm_value M_PARM_MARKER_MASK =? M_PARM_MARKER_MASK)%Z;
          temp_unit_C := negb (ps_get_parm q PS_PARM_UNITS =? 0)%Z;
          rad_high_res := false |};
     parm := {| cur_parm_index := 0; cur_parm_max_index := NUM_M_PARM_VALS - 1;
                cur_parm_value := cur_parm_value; prev_parm_value := cur_parm_value;
                parm_entry_timeout := 0; prev_time := 0 |};
     ps := q; bufs := b; calls := [] |}.

(** [_vid_handle_notifications], [nv] being the pending notification bits
    (0 when nothing is pending). *)
Definition _vid_handle_notifications (nv : Z) (s : vid_vars) : vid_vars :=
  set_notify
    (if Notification nv VID_NOTIFY_LEP_FRAME_MASK_1 then true else notify_image_1 s)
    (if Notification nv VID_NOTIFY_LEP_FRAME_MASK_2 then true else notify_image_2 s)
    (if Notification nv VID_NOTIFY_PARM_CHANGE_MASK then true
     else notify_parm_val_change s)
    (if Notification nv VID_NOTIFY_PARM_SELECT_MASK then true
     else notify_parm_sel_change s)
    s.

(** The [switch] that stores a changed value, common to the select and the
    timeout branches of [_vid_eval_parm_update]. *)
Definition parm_store_change (s : vid_vars) : vid_vars :=
  let p := parm s in
  if (cur_parm_value p =? prev_parm_value p)%Z then s
  else if (cur_parm_index p =? PARM_INDEX_EMISSIVITY)%Z then
    set_ps (ps_set_parm (ps s) PS_PARM_EMISSIVITY (parm_e_value_at (cur_parm_value p))) s
  else if (cur_parm_index p =? PARM_INDEX_UNITS)%Z then
    set_ps (ps_set_parm (ps s) PS_PARM_UNITS (cur_parm_value p)) s
  else
    set_ps (ps_set_parm (ps s) PS_PARM_PALETTE_MARKER (cur_parm_value p)) s.

(** [_vid_eval_parm_update], [now_us] being what [esp_timer_get_time()]
    returns when the function asks for it. *)
Definition _vid_eval_parm_update (now_us : Z) (s : vid_vars) : vid_vars :=
  let p := parm s in
  if notify_parm_val_change s then
    let s := set_notify (notify_image_1 s) (notify_image_2 s) false
                        (notify_parm_sel_change s) s in
    let v := (cur_parm_value p + 1)%Z in
    let v := if (cur_parm_max_index p <? v)%Z then 0%Z else v in
    let s :=
      if (cur_parm_index p =? PARM_INDEX_EMISSIVITY)%Z then
        call (lepton_emissivity (parm_e_value_at v)) s
      else if (cur_parm_index p =? PARM_INDEX_UNITS)%Z then
        set_gui_state (gui_set_temp_unit_C (negb (v =? 0)%Z) (gui_state s)) s
      else
        set_gui_state (gui_set_marker_palette v (gui_state s)) s in
    set_parm {| cur_parm_index := cur_parm_index p;
                cur_parm_max_index := cur_parm_max_index p;
                cur_parm_value := v; prev_parm_value := prev_parm_value p;
                parm_entry_timeout := PARM_ENTRY_TIMEOUT_MSEC;
                prev_time := (now_us ÷ 1000)%Z |} s
  else if notify_parm_sel_change s then
    let s := set_notify (notify_image_1 s) (notify_image_2 s)
                        (notify_parm_val_change s) false s in
    let s := parm_store_change s in
    let i := (cur_parm_index p + 1)%Z in
    let '(i, timeout, ptime) :=
      if (i =? NUM_PARMS)%Z then (0%Z, 0%Z, prev_time p)
      else (i, PARM_ENTRY_TIMEOUT_MSEC, (now_us ÷ 1000)%Z) in
    let '(v, vmax) :=
      if (i =? PARM_INDEX_EMISSIVITY)%Z then
        (_vid_get_emissivity_index (ps_get_parm (ps s) PS_PARM_EMISSIVITY),
         (NUM_E_PARM_VALS - 1)%Z)
      else if (i =? PARM_INDEX_UNITS)%Z then
        (ps_get_parm (ps s) PS_PARM_UNITS, (NUM_U_PARM_VALS - 1)%Z)
      else
        (ps_get_parm (ps s) PS_PARM_PALETTE_MARKER, (NUM_M_PARM_VALS - 1)%Z) in
    set_parm {| cur_parm_index := i; cur_parm_max_index := vmax;
                cur_parm_value := v; prev_parm_value := v;
                parm_entry_timeout := timeout; prev_time := ptime |} s
  else if negb (parm_entry_timeout p =? 0)%Z then
    let cur_time := (now_us ÷ 1000)%Z in
    if (parm_entry_timeout p <=? cur_time - prev_time p)%Z then
      let s := parm_store_change s in
      let v := ps_get_parm (ps s) PS_PARM_PALETTE_MARKER in
      set_parm {| cur_parm_index := 0; cur_parm_max_index := NUM_M_PARM_VALS - 1;
                  cur_parm_value := v; prev_parm_value := v;
                  parm_entry_timeout := 0; prev_time := prev_time p |} s
    else s
  else s.

(** The first two calls of a pass of [vid_task]: the parameter half of the
    pass. *)
Definition parm_step (nv now_us : Z) (s : vid_vars) : vid_vars :=
  _vid_eval_parm_update now_us (_vid_handle_notifications nv s).

(** The copy loop of [_vid_display_image], [n] bytes left, both pointers at
    offset [p]. *)
Fixpoint display_copy (n : nat) (drv rend : list Z) (p : nat) : list Z :=
  match n with
  | O => drv
  | S n' => display_copy n' (<[p := rd rend p]> drv) rend (S p)
  end.

Definition rend_fbP (b : vid_bufs) (i : Z) : list Z :=
  if (i =? 0)%Z then rend_fb0 b else rend_fb1 b.

Definition set_rend_fbP (i : Z) (img : list Z) (b : vid_bufs) : vid_bufs :=
  if (i =? 0)%Z then
    {| drv_fb := drv_fb b; rend_fb0 := img; rend_fb1 := rend_fb1 b;
       vid_lep_buffer0 := vid_lep_buffer0 b; vid_lep_buffer1 := vid_lep_buffer1 b |}
  else
    {| drv_fb := drv_fb b; rend_fb0 := rend_fb0 b; rend_fb1 := img;
       vid_lep_buffer0 := vid_lep_buffer0 b; vid_lep_buffer1 := vid_lep_buffer1 b |}.

Definition vid_lep_buffer (b : vid_bufs) (i : Z) : lep_buffer_t :=
  if (i =? 0)%Z then vid_lep_buffer0 b else vid_lep_buffer1 b.

Definition set_vid_lep_buffer (i : Z) (lep : lep_buffer_t) (b : vid_bufs) : vid_bufs :=
  if (i =? 0)%Z then
    {| drv_fb := drv_fb b; rend_fb0 := rend_fb0 b; rend_fb1 := rend_fb1 b;
       vid_lep_buffer0 := lep; vid_lep_buffer1 := vid_lep_buffer1 b |}
  else
    {| drv_fb := drv_fb b; rend_fb0 := rend_fb0 b; rend_fb1 := rend_fb1 b;
       vid_lep_buffer0 := vid_lep_buffer0 b; vid_lep_buffer1 := lep |}.

Definition set_drv_fb (img : list Z) (b : vid_bufs) : vid_bufs :=
  {| drv_fb := img; rend_fb0 := rend_fb0 b; rend_fb1 := rend_fb1 b;
     vid_lep_buffer0 := vid_lep_buffer0 b; vid_lep_buffer1 := vid_lep_buffer1 b |}.

Section Collaborators.
(** [LEP_WIDTH], [LEP_HEIGHT] ([vospi.h]); the telemetry decoding of
    [lepton_utilities.h]; and the overlay renderers of [render.c], whose
    drawing the properties below do not look into.  [render_parm_string]
    stands for the call on the text [_vid_get_parm_string] builds from the
    parameter index and value. *)
Variables LEP_WIDTH LEP_HEIGHT : nat.
Variable lepton_get_tel_status : list Z -> Z.
Variable LEP_STATUS_AGC_STATE : Z.
Variable lepton_is_radiometric : bool.
Variable LEP_TEL_TLIN_RES : nat.
Variable render_min_max_markers : lep_buffer_t -> list Z -> list Z.
Variable render_spotmeter : lep_buffer_t -> list Z -> gui_state_t -> list Z.
Variable render_parm_string : Z -> Z -> list Z -> list Z.

Definition _vid_display_image (render_buf_index : Z) (s : vid_vars) : vid_vars :=
  let s := call (display_image render_buf_index) s in
  let b := bufs s in
  let drv := display_copy (2 * LEP_WIDTH * (2 * LEP_HEIGHT))
                          (drv_fb b) (rend_fbP b render_buf_index) 0 in
  set_bufs (set_drv_fb drv b) s.

(** The three overlay steps that close [_vid_render_image]. *)
Definition render_overlays (g : gui_state_t) (p : parm_vars)
           (lepP : lep_buffer_t) (rendP : list Z) : list Z :=
  let rendP := if min_max_enable g then render_min_max_markers lepP rendP else rendP in
  let rendP :=
    if spotmeter_enable g && is_radiometric g
    then render_spotmeter lepP rendP g else rendP in
  if negb (cur_parm_index p =? PARM_INDEX_MARKER)%Z
  then render_parm_string (cur_parm_index p) (cur_parm_value p) rendP
  else rendP.

Definition _vid_render_image (render_buf_index : Z) (s : vid_vars) : vid_vars :=
  let s := call (render_image render_buf_index) s in
  let b := bufs s in
  let lepP := vid_lep_buffer b (if (render_buf_index =? 0)%Z then 0%Z else 1%Z) in
  let rendP := rend_fbP b render_buf_index in
  let g := gui_state s in
  let g :=
    {| agc_enabled :=
         (Z.land (lepton_get_tel_status (lep_telemP lepP)) LEP_STATUS_AGC_STATE
          =? LEP_STATUS_AGC_STATE)%Z;
       black_hot_palette := black_hot_palette g;
       display_interp_enable := display_interp_enable g;
       is_radiometric := lepton_is_radiometric;
       min_max_enable := min_max_enable g;
       spotmeter_enable := spotmeter_enable g;
       temp_unit_C := temp_unit_C g;
       rad_high_res := negb (rd (lep_telemP lepP) LEP_TEL_TLIN_RES =? 0)%Z |} in
  let '(lepP, rendP) := render_lep_data LEP_WIDTH LEP_HEIGHT lepP rendP g in
  let rendP := render_overlays g (parm s) lepP rendP in
  let b := set_vid_lep_buffer (if (render_buf_index =? 0)%Z then 0%Z else 1%Z) lepP b in
  let b := set_rend_fbP render_buf_index rendP b in
  set_bufs b (set_gui_state g s).

(** One pass of the [while (1)] of [vid_task]. *)
Definition vid_task_pass (nv now_us : Z) (s : vid_vars) : vid_vars :=
  let s := parm_step nv now_us s in
  let s :=
    if notify_image_1 s then
      let s := set_notify false (notify_image_2 s) (notify_parm_val_change s)
                          (notify_parm_sel_change s) s in
      let s := call video_wait_frame s in
      let s := _vid_display_image 1 s in
      _vid_render_image 0 s
    else s in
  let s :=
    if notify_image_2 s then
      let s := set_notify (notify_image_1 s) false (notify_parm_val_change s)
                          (notify_parm_sel_change s) s in
      let s := call video_wait_frame s in
      let s := _vid_display_image 0 s in
      _vid_render_image 1 s
    else s in
  call (vTaskDelay VID_EVAL_MSEC) s.

End Collaborators.
End Vid.

(** ** The vocabulary of the handoff and parameter-session properties *)
Module VidSpec.
Import Render RenderSpec Ps Vid.

(** The notification bit that announces raw frame slot [K]. *)
Definition slot_mask (K : Z) : Z :=
  if (K =? 0)%Z then VID_NOTIFY_LEP_FRAME_MASK_1 else VID_NOTIFY_LEP_FRAME_MASK_2.

(** The parameter session as the specification's data model has it: active
    index, maximum, current and previous value, and the inactivity timeout
    (0 when none is active).  The time stamp [prev_time] only matters while
    a timeout is active. *)
Definition parm_session (s : vid_vars) : Z * Z * Z * Z * Z :=
  (cur_parm_index (parm s), cur_parm_max_index (parm s), cur_parm_value (parm s),
   prev_parm_value (parm s), parm_entry_timeout (parm s)).

(** What a pending change of the active group is stored as. *)
Definition pending_value (p : parm_vars) : Z :=
  if (cur_parm_index p =? PARM_INDEX_EMISSIVITY)%Z
  then parm_e_value_at (cur_parm_value p) else cur_parm_value p.

(** Long-presses delivered one after the other, at the given times. *)
Definition long_presses (times : list Z) (s : vid_vars) : vid_vars :=
  fold_left (fun s t => parm_step VID_NOTIFY_PARM_SELECT_MASK t s) times s.

Inductive parm_event := ShortPress | LongPress | TimerPoll.

Definition parm_event_bits (e : parm_event) : Z :=
  match e with
  | ShortPress => VID_NOTIFY_PARM_CHANGE_MASK
  | LongPress => VID_NOTIFY_PARM_SELECT_MASK
  | TimerPoll => 0%Z
  end.

(** The session states reached from boot by events that come with the time
    at which they are evaluated. *)
Definition parm_run (evs : list (parm_event * Z)) (s : vid_vars) : vid_vars :=
  fold_left (fun s e => parm_step (parm_event_bits e.1) e.2 s) evs s.

(** The inactivity timeout is active and has run out at time [now_us]. *)
Definition timeout_fires (now_us : Z) (s : vid_vars) : bool :=
  negb (parm_entry_timeout (parm s) =? 0)%Z
  && (parm_entry_timeout (parm s) <=? now_us ÷ 1000 - prev_time (parm s))%Z.

(** Along a run of events from [s]: a short-press was delivered while the
    active index was 0, and neither a long-press nor a timer poll at which
    the timeout fired has followed it.  [pend] is the answer for the events
    before [s]. *)
Fixpoint default_edit_pending (evs : list (parm_event * Z)) (s : vid_vars) (pend : bool)
  : bool :=
  match evs with
  | [] => pend
  | e :: evs' =>
      let pend' :=
        match e.1 with
        | ShortPress => pend || (cur_parm_index (parm s) =? 0)%Z
        | LongPress => false
        | TimerPoll => pend && negb (timeout_fires e.2 s)
        end in
      default_edit_pending evs' (parm_step (parm_event_bits e.1) e.2 s) pend'
  end.

(** A raw frame as the acquisition side leaves it: [W*H] samples of 16
    bits, with a recorded minimum not above the recorded maximum. *)
Definition raw_frame (W H : nat) (lep : lep_buffer_t) : Prop :=
  length (lep_bufferP lep) = W * H /\
  Forall (fun v => (0 <= v < 65536)%Z) (lep_bufferP lep) /\
  (0 <= lep_min_val lep <= lep_max_val lep)%Z /\ (lep_max_val lep < 65536)%Z.

(** The 8-bit value of raw sample [(x, y)]: its low byte under AGC, its
    radiometric scaling otherwise. *)
Definition frame_sample (W : nat) (lep : lep_buffer_t) (g : gui_state_t) (x y : nat) : Z :=
  let v := src_px W (lep_bufferP lep) x y in
  if agc_enabled g then Z.land v 255
  else rad_claim (lep_min_val lep) (lep_max_val lep) v.

(** What output pixel [(X, Y)] of the rendering of a raw frame holds, before
    any overlay: the sample of its 2x2 block when pixels are doubled, the
    corner, edge or interior blend of the samples when they are
    interpolated; XORed with 255 for the black-hot palette. *)
Definition frame_pixel (W H : nat) (lep : lep_buffer_t) (g : gui_state_t) (X Y : nat) : Z :=
  let s := frame_sample W lep g in
  let x := X / 2 in
  let dx := X mod 2 in
  let y := Y / 2 in
  let dy := Y mod 2 in
  let v :=
    if display_interp_enable g then
      match outer W x dx, outer H y dy with
      | true, true => s x y
      | false, true => blend2 (s x y) (s (nb x dx) y)
      | true, false => blend2 (s x y) (s x (nb y dy))
      | false, false =>
          blend4 (s x y) (s (nb x dx) y) (s x (nb y dy)) (s (nb x dx) (nb y dy))
      end
    else s x y in
  Z.lxor v (if black_hot_palette g then 255%Z else 0%Z).

(** Sample data: the stored defaults and one-pixel frame memory. *)
Definition ps_defaults : ps_vars :=
  {| val_palette_marker := PS_PARAM_PALETTE_MARKER_DEF;
     val_emissivity := PS_PARAM_EMISSIVITY_DEF;
     val_units := PS_PARAM_UNITS_DEF; nvs_writes := [] |}.

Definition lep_blank : lep_buffer_t :=
  {| telem_valid := false; lep_min_val := 0; lep_min_x := 0; lep_min_y := 0;
     lep_max_val := 0; lep_max_x := 0; lep_max_y := 0;
     lep_bufferP := [0]%Z; lep_telemP := [] |}.

Definition bufs_blank : vid_bufs :=
  {| drv_fb := replicate 4 0%Z; rend_fb0 := replicate 4 0%Z;
     rend_fb1 := replicate 4 9%Z;
     vid_lep_buffer0 := lep_blank; vid_lep_buffer1 := lep_blank |}.

(** Sample data: a raw frame of two samples and frame memory for it. *)
Definition lep_sample : lep_buffer_t :=
  {| telem_valid := true; lep_min_val := 100; lep_min_x := 0; lep_min_y := 0;
     lep_max_val := 200; lep_max_x := 1; lep_max_y := 0;
     lep_bufferP := [100; 200]%Z; lep_telemP := [] |}.

Definition bufs_sample : vid_bufs :=
  {| drv_fb := replicate 8 0%Z; rend_fb0 := replicate 8 0%Z;
     rend_fb1 := replicate 8 9%Z;
     vid_lep_buffer0 := lep_sample; vid_lep_buffer1 := lep_sample |}.

End VidSpec.

(** ** ctrl_task.c: control state, fault LED and button *)
Module Ctrl.

Definition CTRL_LED_OFF : Z := 0.
Definition CTRL_LED_RED : Z := 1.
Definition CTRL_LED_YEL : Z := 2.
Definition CTRL_LED_GRN : Z := 3.

Definition CTRL_LED_ST_SOLID : Z := 0.
Definition CTRL_LED_ST_FLT_ON : Z := 1.
Definition CTRL_LED_ST_FLT_OFF : Z := 2.
Definition CTRL_LED_ST_FLT_IDLE : Z := 3.

Definition CTRL_ST_STARTUP : Z := 0.
Definition CTRL_ST_RUN : Z := 1.
Definition CTRL_ST_FAULT : Z := 2.

(** The file-level variables of the task, the statics of
    [ctrl_debounce_button], the task's pending notification bits, the
    levels last written to the red and green LED pins, and the
    notifications sent to the video task so far (oldest first). *)
Record ctrl_vars := {
  ctrl_state : Z;
  ctrl_pre_activity_state : Z;
  ctrl_led_state : Z;
  ctrl_led_timer : Z;
  ctrl_fault_led_count : Z;
  ctrl_fault_type : Z;
  prev_btn : bool;
  btn_down : bool;
  btn_timer : Z;
  notification : Z;
  led_pins : Z * Z;
  vid_notified : list Z
}.

Definition set_fault (ftype pre notif : Z) (c : ctrl_vars) : ctrl_vars :=
  {| ctrl_state := ctrl_state c; ctrl_pre_activity_state := pre;
     ctrl_led_state := ctrl_led_state c; ctrl_led_timer := ctrl_led_timer c;
     ctrl_fault_led_count := ctrl_fault_led_count c; ctrl_fault_type := ftype;
     prev_btn := prev_btn c; btn_down := btn_down c; btn_timer := btn_timer c;
     notification := notif; led_pins := led_pins c; vid_notified := vid_notified c |}.

Definition set_notification (notif : Z) (c : ctrl_vars) : ctrl_vars :=
  set_fault (ctrl_fault_type c) (ctrl_pre_activity_state c) notif c.

Definition set_ctrl_state (st : Z) (c : ctrl_vars) : ctrl_vars :=
  {| ctrl_state := st; ctrl_pre_activity_state := ctrl_pre_activity_state c;
     ctrl_led_state := ctrl_led_state c; ctrl_led_timer := ctrl_led_timer c;
     ctrl_fault_led_count := ctrl_fault_led_count c; ctrl_fault_type := ctrl_fault_type c;
     prev_btn := prev_btn c; btn_down := btn_down c; btn_timer := btn_timer c;
     notification := notification c; led_pins := led_pins c;
     vid_notified := vid_notified c |}.

Definition set_led_vars (lst timer count : Z) (pins : Z * Z) (c : ctrl_vars) : ctrl_vars :=
  {| ctrl_state := ctrl_state c; ctrl_pre_activity_state := ctrl_pre_activity_state c;
     ctrl_led_state := lst; ctrl_led_timer := timer;
     ctrl_fault_led_count := count; ctrl_fault_type := ctrl_fault_type c;
     prev_btn := prev_btn c; btn_down := btn_down c; btn_timer := btn_timer c;
     notification := notification c; led_pins := pins;
     vid_notified := vid_notified c |}.

Definition set_button (prev down : bool) (timer : Z) (c : ctrl_vars) : ctrl_vars :=
  {| ctrl_state := ctrl_state c; ctrl_pre_activity_state := ctrl_pre_activity_state c;
     ctrl_led_state := ctrl_led_state c; ctrl_led_timer := ctrl_led_timer c;
     ctrl_fault_led_count := ctrl_fault_led_count c; ctrl_fault_type := ctrl_fault_type c;
     prev_btn := prev; btn_down := down; btn_timer := timer;
     notification := notification c; led_pins := led_pins c;
     vid_notified := vid_notified c |}.

Definition notify_vid (mask : Z) (c : ctrl_vars) : ctrl_vars :=
  {| ctrl_state := ctrl_state c; ctrl_pre_activity_state := ctrl_pre_activity_state c;
     ctrl_led_state := ctrl_led_state c; ctrl_led_timer := ctrl_led_timer c;
     ctrl_fault_led_count := ctrl_fault_led_count c; ctrl_fault_type := ctrl_fault_type c;
     prev_btn := prev_btn c; btn_down := btn_down c; btn_timer := btn_timer c;
     notification := notification c; led_pins := led_pins c;
     vid_notified := vid_notified c ++ [mask] |}.

(** [xTaskNotify(task_handle_ctrl, bits, eSetBits)]. *)
Definition xTaskNotify_ctrl (bits : Z) (c : ctrl_vars) : ctrl_vars :=
  set_notification (Z.lor (notification c) bits) c.

(** [ctrl_set_fault_type], called from the other tasks. *)
Definition ctrl_set_fault_type (f : Z) (c : ctrl_vars) : ctrl_vars :=
  if (f =? CTRL_FAULT_NONE)%Z then
    xTaskNotify_ctrl CTRL_NOTIFY_FAULT_CLEAR
      (set_fault f (ctrl_pre_activity_state c) (notification c) c)
  else
    xTaskNotify_ctrl CTRL_NOTIFY_FAULT
      (set_fault f (ctrl_state c) (notification c) c).

(** [ctrl_set_led]: the levels of the red and the green pin; another
    colour code changes nothing. *)
Definition ctrl_set_led (color : Z) (pins : Z * Z) : Z * Z :=
  if (color =? CTRL_LED_OFF)%Z then (0, 0)%Z
  else if (color =? CTRL_LED_RED)%Z then (1, 0)%Z
  else if (color =? CTRL_LED_YEL)%Z then (1, 1)%Z
  else if (color =? CTRL_LED_GRN)%Z then (0, 1)%Z
  else pins.

Definition ctrl_set_led_state (new_st : Z) (c : ctrl_vars) : ctrl_vars :=
  if (new_st =? CTRL_LED_ST_SOLID)%Z then
    set_led_vars new_st (ctrl_led_timer c) (ctrl_fault_led_count c) (led_pins c) c
  else if (new_st =? CTRL_LED_ST_FLT_ON)%Z then
    set_led_vars new_st (CTRL_FAULT_BLINK_ON_MSEC ÷ CTRL_EVAL_MSEC)
                 (ctrl_fault_led_count c) (ctrl_set_led CTRL_LED_RED (led_pins c)) c
  else if (new_st =? CTRL_LED_ST_FLT_OFF)%Z then
    set_led_vars new_st (CTRL_FAULT_BLINK_OFF_MSEC ÷ CTRL_EVAL_MSEC)
                 (ctrl_fault_led_count c) (ctrl_set_led CTRL_LED_OFF (led_pins c)) c
  else if (new_st =? CTRL_LED_ST_FLT_IDLE)%Z then
    set_led_vars new_st (CTRL_FAULT_IDLE_MSEC ÷ CTRL_EVAL_MSEC)
                 (ctrl_fault_led_count c) (ctrl_set_led CTRL_LED_OFF (led_pins c)) c
  else
    set_led_vars new_st (ctrl_led_timer c) (ctrl_fault_led_count c) (led_pins c) c.

Definition set_fault_led_count (n : Z) (c : ctrl_vars) : ctrl_vars :=
  set_led_vars (ctrl_led_state c) (ctrl_led_timer c) n (led_pins c) c.

Definition set_led_timer (t : Z) (c : ctrl_vars) : ctrl_vars :=
  set_led_vars (ctrl_led_state c) t (ctrl_fault_led_count c) (led_pins c) c.

Definition set_led_pins (pins : Z * Z) (c : ctrl_vars) : ctrl_vars :=
  set_led_vars (ctrl_led_state c) (ctrl_led_timer c) (ctrl_fault_led_count c) pins c.

Definition ctrl_set_state (new_st : Z) (c : ctrl_vars) : ctrl_vars :=
  let c := set_ctrl_state new_st c in
  if (new_st =? CTRL_ST_STARTUP)%Z then
    ctrl_set_led_state CTRL_LED_ST_SOLID
      (set_led_pins (ctrl_set_led CTRL_LED_YEL (led_pins c)) c)
  else if (new_st =? CTRL_ST_RUN)%Z then
    ctrl_set_led_state CTRL_LED_ST_SOLID
      (set_led_pins (ctrl_set_led CTRL_LED_GRN (led_pins c)) c)
  else if (new_st =? CTRL_ST_FAULT)%Z then
    if negb (ctrl_fault_type c =? CTRL_FAULT_NONE)%Z then
      ctrl_set_led_state CTRL_LED_ST_FLT_ON (set_fault_led_count (ctrl_fault_type c) c)
    else c
  else c.

Definition ctrl_eval_led_sm (c : ctrl_vars) : ctrl_vars :=
  if (ctrl_led_state c =? CTRL_LED_ST_SOLID)%Z then c
  else if (ctrl_led_state c =? CTRL_LED_ST_FLT_ON)%Z then
    let c := set_led_timer (ctrl_led_timer c - 1) c in
    if (ctrl_led_timer c =? 0)%Z then ctrl_set_led_state CTRL_LED_ST_FLT_OFF c else c
  else if (ctrl_led_state c =? CTRL_LED_ST_FLT_OFF)%Z then
    let c := set_led_timer (ctrl_led_timer c - 1) c in
    if (ctrl_led_timer c =? 0)%Z then
      let c := set_fault_led_count (ctrl_fault_led_count c - 1) c in
      if (ctrl_fault_led_count c =? 0)%Z then ctrl_set_led_state CTRL_LED_ST_FLT_IDLE c
      else ctrl_set_led_state CTRL_LED_ST_FLT_ON c
    else c
  else if (ctrl_led_state c =? CTRL_LED_ST_FLT_IDLE)%Z then
    let c := set_led_timer (ctrl_led_timer c - 1) c in
    if (ctrl_led_timer c =? 0)%Z then
      ctrl_set_led_state CTRL_LED_ST_FLT_ON (set_fault_led_count (ctrl_fault_type c) c)
    else c
  else c.

(** [ctrl_debounce_button], [level] being what [gpio_get_level] reads from
    the button pin; the result carries [*short_p] and [*long_p]. *)
Definition ctrl_debounce_button (level : Z) (c : ctrl_vars) : ctrl_vars * bool * bool :=
  let btn_released := false in
  let cur_btn := (level =? 0)%Z in
  let '(btn_down, btn_timer) :=
    if cur_btn && prev_btn c && negb (btn_down c)
    then (true, (CTRL_BTN_LONG_PRESS_MSEC ÷ CTRL_EVAL_MSEC)%Z)
    else (btn_down c, btn_timer c) in
  let '(btn_down, btn_released) :=
    if negb cur_btn && negb (prev_btn c) && btn_down
    then (false, true) else (btn_down, btn_released) in
  let prev_btn := cur_btn in
  let '(btn_timer, long_p) :=
    if btn_down then
      if negb (btn_timer =? 0)%Z then
        let btn_timer := (btn_timer - 1)%Z in
        if (btn_timer =? 0)%Z then (btn_timer, true) else (btn_timer, false)
      else (btn_timer, false)
    else (btn_timer, false) in
  let short_p := btn_released && negb (btn_timer =? 0)%Z in
  (set_button prev_btn btn_down btn_timer c, short_p, long_p).

Definition ctrl_eval_sm (level : Z) (c : ctrl_vars) : ctrl_vars :=
  let '(c, btn_short_press, btn_long_press) := ctrl_debounce_button level c in
  if (ctrl_state c =? CTRL_ST_STARTUP)%Z then c
  else if (ctrl_state c =? CTRL_ST_RUN)%Z then
    let c := if btn_short_press then notify_vid VID_NOTIFY_PARM_CHANGE_MASK c else c in
    if btn_long_press then notify_vid VID_NOTIFY_PARM_SELECT_MASK c else c
  else if (ctrl_state c =? CTRL_ST_FAULT)%Z then c
  else ctrl_set_state CTRL_ST_STARTUP c.

(** [ctrl_handle_notifications]: the pending bits are read and cleared
    together; with nothing pending the value read is 0. *)
Definition ctrl_handle_notifications (c : ctrl_vars) : ctrl_vars :=
  let notification_value := notification c in
  let c := set_notification 0 c in
  let c :=
    if Notification notification_value CTRL_NOTIFY_STARTUP_DONE then
      if negb (ctrl_state c =? CTRL_ST_FAULT)%Z then ctrl_set_state CTRL_ST_RUN c else c
    else c in
  let c :=
    if Notification notification_value CTRL_NOTIFY_FAULT
    then ctrl_set_state CTRL_ST_FAULT c else c in
  if Notification notification_value CTRL_NOTIFY_FAULT_CLEAR
  then ctrl_set_state (ctrl_pre_activity_state c) c else c.

(** One pass of the [while (1)] of [ctrl_task]. *)
Definition ctrl_task_pass (level : Z) (c : ctrl_vars) : ctrl_vars :=
  let c := ctrl_handle_notifications c in
  let c := ctrl_eval_led_sm c in
  ctrl_eval_sm level c.

(** What reaches the control task: a fault report or clear from another
    task, the start-up notification of [app_main], or one pass of its loop
    with the button level it samples. *)
Inductive ctrl_event :=
| EvSetFaultType (f : Z)
| EvStartupDone
| EvPass (level : Z).

Definition ctrl_step (e : ctrl_event) (c : ctrl_vars) : ctrl_vars :=
  match e with
  | EvSetFaultType f => ctrl_set_fault_type f c
  | EvStartupDone => xTaskNotify_ctrl CTRL_NOTIFY_STARTUP_DONE c
  | EvPass level => ctrl_task_pass level c
  end.

Definition ctrl_run (evs : list ctrl_event) (c : ctrl_vars) : ctrl_vars :=
  fold_left (fun c e => ctrl_step e c) evs c.

(** Passes of the LED state machine alone. *)
Fixpoint led_ticks (n : nat) (c : ctrl_vars) : ctrl_vars :=
  match n with
  | O => c
  | S n' => led_ticks n' (ctrl_eval_led_sm c)
  end.

(** The LED pin levels seen during [n] successive evaluation periods,
    starting with the period that begins in [c]. *)
Fixpoint led_trace (n : nat) (c : ctrl_vars) : list (Z * Z) :=
  match n with
  | O => []
  | S n' => led_pins c :: led_trace n' (ctrl_eval_led_sm c)
  end.

(** The debouncer over successive samples, for as long as the button stays
    registered as down: the pairs [(short_p, long_p)] of each evaluation up
    to and including the one that registers the release. *)
Fixpoint held_outputs (levels : list Z) (c : ctrl_vars) : list (bool * bool) :=
  match levels with
  | [] => []
  | level :: levels' =>
      let '(c', short_p, long_p) := ctrl_debounce_button level c in
      (short_p, long_p) :: (if btn_down c' then held_outputs levels' c' else [])
  end.

End Ctrl.

(** ** The vocabulary of the control properties *)
Module CtrlSpec.
Import Ctrl.

(** The variables as [ctrl_task_init] leaves them on a fresh start, whatever
    the LED pins showed before. *)
Definition ctrl_task_init (pins : Z * Z) : ctrl_vars :=
  ctrl_set_state CTRL_ST_STARTUP
    {| ctrl_state := 0; ctrl_pre_activity_state := 0; ctrl_led_state := 0;
       ctrl_led_timer := 0; ctrl_fault_led_count := 0;
       ctrl_fault_type := CTRL_FAULT_NONE;
       prev_btn := false; btn_down := false; btn_timer := 0;
       notification := 0; led_pins := pins; vid_notified := [] |}.

(** An event that is not a fault report. *)
Definition no_fault_report (e : ctrl_event) : Prop :=
  match e with
  | EvSetFaultType f => f = CTRL_FAULT_NONE
  | _ => True
  end.

(** A signal that waits for the next pass: start-up done or fault clear. *)
Definition signal_only (e : ctrl_event) : Prop :=
  match e with
  | EvSetFaultType f => f = CTRL_FAULT_NONE
  | EvStartupDone => True
  | EvPass _ => False
  end.

(** What the LED state machine reads and writes. *)
Definition led_view (c : ctrl_vars) : Z * Z * Z * Z * (Z * Z) :=
  (ctrl_led_state c, ctrl_led_timer c, ctrl_fault_led_count c, ctrl_fault_type c,
   led_pins c).

End CtrlSpec.

(** ** render.c: the drawing primitives and the min/max markers *)
Module Draw.

Definition IMG_BUF_MULT_FACTOR : Z := 2.
Definition IMG_MM_MARKER_SIZE : Z := 10.

(** Conversion to [int16_t]: reduce into [-32768, 32767] modulo 2^16. *)
Definition i16 (v : Z) : Z := ((v + 32768) mod 65536 - 32768)%Z.

(** What a drawing call comes to: it returns with the image it leaves, it
    writes outside the image buffer (undefined in C), or its loop is still
    running when the iteration allowance is used up. *)
Inductive outcome (A : Type) : Type :=
| Done (a : A)
| OutOfBounds
| OutOfFuel.
Arguments Done {A} a.
Arguments OutOfBounds {A}.
Arguments OutOfFuel {A}.

Definition bind {A B : Type} (m : outcome A) (f : A -> outcome B) : outcome B :=
  match m with
  | Done a => f a
  | OutOfBounds => OutOfBounds
  | OutOfFuel => OutOfFuel
  end.

Notation "'do' x <- m ; f" := (bind m (fun x => f))
  (at level 10, x name, m at level 100, f at level 200).

(** [*(img + p) = c] for a [uint8_t] value [c]. *)
Definition poke (img : list Z) (p : Z) (c : Z) : outcome (list Z) :=
  if ((0 <=? p) && (p <? Z.of_nat (length img)))%Z
  then Done (<[Z.to_nat p := c]> img) else OutOfBounds.

Section ImageSize.
(** [LEP_WIDTH] and [LEP_HEIGHT] come from [vospi.h]. *)
Variables LEP_WIDTH LEP_HEIGHT : nat.

Definition IMG_BUF_WIDTH : Z := IMG_BUF_MULT_FACTOR * Z.of_nat LEP_WIDTH.
Definition IMG_BUF_HEIGHT : Z := IMG_BUF_MULT_FACTOR * Z.of_nat LEP_HEIGHT.

(** [draw_pixel(img, x, y, c)] with [int16_t x, y] and [uint8_t c]. *)
Definition draw_pixel (img : list Z) (x y c : Z) : outcome (list Z) :=
  let x := i16 x in
  let y := i16 y in
  let c := u8 c in
  if ((x <? 0) || (IMG_BUF_WIDTH <=? x))%Z then Done img
  else if ((y <? 0) || (IMG_BUF_HEIGHT <=? y))%Z then Done img
  else poke img (x + y * IMG_BUF_WIDTH) c.

(** The [while (x1 <= x2)] of [draw_hline]; [imgP] is the offset of the
    pointer of that name. *)
Fixpoint draw_hline_loop (fuel : nat) (img : list Z) (imgP x1 x2 c : Z)
  : outcome (list Z) :=
  match fuel with
  | O => OutOfFuel
  | S fuel' =>
      if (x1 <=? x2)%Z then
        do img <- (if ((0 <=? x1) && (x1 <? IMG_BUF_WIDTH))%Z
                   then poke img imgP c else Done img);
        draw_hline_loop fuel' img (imgP + 1) (i16 (x1 + 1)) x2 c
      else Done img
  end.

Definition draw_hline (fuel : nat) (img : list Z) (x1 x2 y c : Z) : outcome (list Z) :=
  let x1 := i16 x1 in
  let x2 := i16 x2 in
  let y := i16 y in
  let c := u8 c in
  if ((y <? 0) || (IMG_BUF_HEIGHT <=? y))%Z then Done img
  else draw_hline_loop fuel img (y * IMG_BUF_WIDTH + x1) x1 x2 c.

(** The [while (y1 <= y2)] of [draw_vline]. *)
Fixpoint draw_vline_loop (fuel : nat) (img : list Z) (imgP y1 y2 c : Z)
  : outcome (list Z) :=
  match fuel with
  | O => OutOfFuel
  | S fuel' =>
      if (y1 <=? y2)%Z then
        do img <- (if ((0 <=? y1) && (y1 <? IMG_BUF_HEIGHT))%Z
                   then poke img imgP c else Done img);
        draw_vline_loop fuel' img (imgP + IMG_BUF_WIDTH) (i16 (y1 + 1)) y2 c
      else Done img
  end.

Definition draw_vline (fuel : nat) (img : list Z) (x y1 y2 c : Z) : outcome (list Z) :=
  let x := i16 x in
  let y1 := i16 y1 in
  let y2 := i16 y2 in
  let c := u8 c in
  if ((x <? 0) || (IMG_BUF_WIDTH <=? x))%Z then Done img
  else draw_vline_loop fuel img (y1 * IMG_BUF_WIDTH + x) y1 y2 c.

(** The [for (;;)] of [draw_line]; [dx], [dy], [sx], [sy] keep the values
    set before the loop. *)
Fixpoint draw_line_loop (fuel : nat) (img : list Z)
         (x1 y1 x2 y2 dx dy sx sy err c : Z) : outcome (list Z) :=
  match fuel with
  | O => OutOfFuel
  | S fuel' =>
      do img <- (if ((0 <=? x1) && (x1 <? IMG_BUF_WIDTH)
                     && (0 <=? y1) && (y1 <? IMG_BUF_HEIGHT))%Z
                 then draw_pixel img x1 y1 c else Done img);
      if ((x1 =? x2) && (y1 =? y2))%Z then Done img
      else
        let e2 := i16 (2 * err) in
        let '(err, x1) :=
          if (dy <=? e2)%Z then (i16 (err + dy), i16 (x1 + sx)) else (err, x1) in
        let '(err, y1) :=
          if (e2 <=? dx)%Z then (i16 (err + dx), i16 (y1 + sy)) else (err, y1) in
        draw_line_loop fuel' img x1 y1 x2 y2 dx dy sx sy err c
  end.

Definition draw_line (fuel : nat) (img : list Z) (x1 y1 x2 y2 c : Z)
  : outcome (list Z) :=
  let x1 := i16 x1 in
  let y1 := i16 y1 in
  let x2 := i16 x2 in
  let y2 := i16 y2 in
  let c := u8 c in
  let dx := i16 (Z.abs (x2 - x1)) in
  let dy := i16 (- Z.abs (y2 - y1)) in
  let err := i16 (dx + dy) in
  let sx := if (x1 <? x2)%Z then 1%Z else (-1)%Z in
  let sy := if (y1 <? y2)%Z then 1%Z else (-1)%Z in
  draw_line_loop fuel img x1 y1 x2 y2 dx dy sx sy err c.

(** The [while (y1 < (y+h))] of [draw_fill_rect], [n] iterations allowed;
    every line drawn has the allowance [fuel]. *)
Fixpoint draw_fill_rect_loop (n fuel : nat) (img : list Z) (x y w h y1 c : Z)
  : outcome (list Z) :=
  match n with
  | O => OutOfFuel
  | S n' =>
      if (y1 <? y + h)%Z then
        do img <- draw_hline fuel img x (x + w - 1) y1 c;
        draw_fill_rect_loop n' fuel img x y w h (i16 (y1 + 1)) c
      else Done img
  end.

Definition draw_fill_rect (fuel : nat) (img : list Z) (x y w h c : Z)
  : outcome (list Z) :=
  let x := i16 x in
  let y := i16 y in
  let w := i16 w in
  let h := i16 h in
  let c := u8 c in
  let y1 := y in
  draw_fill_rect_loop fuel fuel img x y w h y1 c.

(** [render_min_marker]: the downward triangle at the minimum. *)
Definition render_min_marker (fuel : nat) (lep : lep_buffer_t) (img : list Z)
  : outcome (list Z) :=
  let x1 := i16 (lep_min_x lep * IMG_BUF_MULT_FACTOR - IMG_MM_MARKER_SIZE ÷ 2) in
  let xm := i16 (lep_min_x lep * IMG_BUF_MULT_FACTOR) in
  let x2 := i16 (x1 + IMG_MM_MARKER_SIZE) in
  let y1 := i16 (lep_min_y lep * IMG_BUF_MULT_FACTOR - IMG_MM_MARKER_SIZE ÷ 2) in
  let y2 := i16 (y1 + IMG_MM_MARKER_SIZE) in
  do img <- draw_hline fuel img x1 x2 y1 255;
  do img <- draw_line fuel img x1 y1 xm y2 255;
  do img <- draw_line fuel img xm y2 x2 y1 255;
  let x1 := i16 (x1 - 1) in
  let y1 := i16 (y1 - 1) in
  let x2 := i16 (x2 + 1) in
  let y2 := i16 (y2 + 1) in
  do img <- draw_hline fuel img x1 x2 y1 0;
  do img <- draw_line fuel img x1 y1 xm y2 0;
  draw_line fuel img xm y2 x2 y1 0.

(** [render_max_marker]: the upward triangle at the maximum. *)
Definition render_max_marker (fuel : nat) (lep : lep_buffer_t) (img : list Z)
  : outcome (list Z) :=
  let x1 := i16 (lep_max_x lep * IMG_BUF_MULT_FACTOR - IMG_MM_MARKER_SIZE ÷ 2) in
  let xm := i16 (lep_max_x lep * IMG_BUF_MULT_FACTOR) in
  let x2 := i16 (x1 + IMG_MM_MARKER_SIZE) in
  let y1 := i16 (lep_max_y lep * IMG_BUF_MULT_FACTOR - IMG_MM_MARKER_SIZE ÷ 2) in
  let y2 := i16 (y1 + IMG_MM_MARKER_SIZE) in
  do img <- draw_hline fuel img x1 x2 y2 255;
  do img <- draw_line fuel img x1 y2 xm y1 255;
  do img <- draw_line fuel img xm y1 x2 y2 255;
  let x1 := i16 (x1 - 1) in
  let y1 := i16 (y1 - 1) in
  let x2 := i16 (x2 + 1) in
  let y2 := i16 (y2 + 1) in
  do img <- draw_hline fuel img x1 x2 y2 0;
  do img <- draw_line fuel img x1 y2 xm y1 0;
  draw_line fuel img xm y1 x2 y2 0.

Definition render_min_max_markers (fuel : nat) (lep : lep_buffer_t) (img : list Z)
  : outcome (list Z) :=
  do img <- render_min_marker fuel lep img;
  render_max_marker fuel lep img.

End ImageSize.
End Draw.

(** ** The vocabulary of the drawing properties *)
Module DrawSpec.
Import Draw.

(** The pixel in column [X] of row [Y] of an image [W] pixels wide. *)
Definition pix (W : Z) (img : list Z) (X Y : Z) : Z := rd img (Z.to_nat (X + Y * W)).

(** The buffer holds the [W*H] bytes of the image. *)
Definition sized (W H : Z) (img : list Z) : Prop := Z.of_nat (length img) = (W * H)%Z.

(** [img'] is [img] with the pixels of the [W] by [H] image that satisfy [P]
    set to [c], and nothing else changed. *)
Definition painted (W H : Z) (P : Z -> Z -> bool) (c : Z) (img img' : list Z) : Prop :=
  length img' = length img /\
  forall X Y, (0 <= X < W)%Z -> (0 <= Y < H)%Z ->
    pix W img' X Y = if P X Y then c else pix W img X Y.

(** [img'] differs from [img] at most on pixels that satisfy [P], and those
    that differ hold one of the values [cs]. *)
Definition touched (W H : Z) (P : Z -> Z -> Prop) (cs : list Z) (img img' : list Z) : Prop :=
  length img' = length img /\
  forall X Y, (0 <= X < W)%Z -> (0 <= Y < H)%Z ->
    pix W img' X Y = pix W img X Y \/ (P X Y /\ In (pix W img' X Y) cs).

(** [X], [Y] lie within [d] of [x], [y] in both directions. *)
Definition near (d x y X Y : Z) : Prop :=
  (x - d <= X <= x + d /\ y - d <= Y <= y + d)%Z.

(** [X], [Y] lie in the rectangle spanned by two corner points. *)
Definition in_box (xa ya xb yb X Y : Z) : Prop :=
  (Z.min xa xb <= X <= Z.max xa xb /\ Z.min ya yb <= Y <= Z.max ya yb)%Z.

End DrawSpec.

(** ** ps_utilities.c: initialisation *)
Module PsInit.
Import Ps.

(** The NVS key of a parameter index. *)
Definition key_of (index : Z) : string :=
  if (index =? PS_PARM_PALETTE_MARKER)%Z then palette_marker_info_key
  else if (index =? PS_PARM_EMISSIVITY)%Z then emissivity_info_key
  else units_info_key.

(** The calls [ps_init] makes to the flash layer, the reads and writes of
    entries apart. *)
Inductive flash_call :=
| nvs_flash_init
| nvs_flash_erase
| nvs_open.

(** What the NVS library answers: the error codes of the two
    [nvs_flash_init] calls, of [nvs_flash_erase] and of [nvs_open], and for
    each [nvs_get_i32] its error code with the content of the variable it
    was given after the call. *)
Record nvs_answers := {
  r_flash_init : Z;
  r_flash_erase : Z;
  r_flash_reinit : Z;
  r_open : Z;
  r_get_palette_marker : Z * Z;
  r_get_emissivity : Z * Z;
  r_get_units : Z * Z
}.

Section ErrorCodes.
(** [ESP_OK] and the NVS error codes come from the ESP-IDF headers. *)
Variables ESP_OK ESP_ERR_NVS_NO_FREE_PAGES ESP_ERR_NVS_NEW_VERSION_FOUND
          ESP_ERR_NVS_NOT_FOUND : Z.

(** One "Initialize our local copies" block: the value cached for the entry
    and the NVS writes made so far. *)
Definition ps_load (ans : Z * Z) (key : string) (def : Z) (writes : list (string * Z))
  : Z * list (string * Z) :=
  let '(err, val) := ans in
  if (err =? ESP_ERR_NVS_NOT_FOUND)%Z then (def, writes ++ [(key, def)])
  else (val, writes).

(** [ps_init]: its result, the cached values with the NVS writes made (the
    zero-initialised statics when it fails), and the flash calls made. *)
Definition ps_init (a : nvs_answers) : bool * ps_vars * list flash_call :=
  let zero := {| val_palette_marker := 0; val_emissivity := 0; val_units := 0;
                 nvs_writes := [] |} in
  let err := r_flash_init a in
  let calls := [nvs_flash_init] in
  let '(go, calls) :=
    if ((err =? ESP_ERR_NVS_NO_FREE_PAGES) || (err =? ESP_ERR_NVS_NEW_VERSION_FOUND))%Z
    then
      let calls := calls ++ [nvs_flash_erase] in
      if negb (r_flash_erase a =? ESP_OK)%Z then (false, calls)
      else
        let calls := calls ++ [nvs_flash_init] in
        if negb (r_flash_reinit a =? ESP_OK)%Z then (false, calls) else (true, calls)
    else (true, calls) in
  if negb go then (false, zero, calls)
  else
    let calls := calls ++ [nvs_open] in
    if negb (r_open a =? ESP_OK)%Z then (false, zero, calls)
    else
      let '(vp, w) := ps_load (r_get_palette_marker a) palette_marker_info_key
                              PS_PARAM_PALETTE_MARKER_DEF [] in
      let '(ve, w) := ps_load (r_get_emissivity a) emissivity_info_key
                              PS_PARAM_EMISSIVITY_DEF w in
      let '(vu, w) := ps_load (r_get_units a) units_info_key PS_PARAM_UNITS_DEF w in
      (true, {| val_palette_marker := vp; val_emissivity := ve; val_units := vu;
                nvs_writes := w |}, calls).

End ErrorCodes.
End PsInit.

(** ** The vocabulary of the parameter-session invariants *)
Module SessionSpec.
Import Render Ps Vid.

(** Successive passes of the parameter half of the video task, each with the
    notification bits it finds pending and the time it reads. *)
Definition parm_passes (evs : list (Z * Z)) (s : vid_vars) : vid_vars :=
  fold_left (fun s e => parm_step e.1 e.2 s) evs s.

(** Short-presses delivered one after the other, at the given times. *)
Definition short_presses (times : list Z) (s : vid_vars) : vid_vars :=
  fold_left (fun s t => parm_step VID_NOTIFY_PARM_CHANGE_MASK t s) times s.

(** The number of values of parameter group [i]. *)
Definition group_size (i : Z) : Z :=
  if (i =? PARM_INDEX_EMISSIVITY)%Z then NUM_E_PARM_VALS
  else if (i =? PARM_INDEX_UNITS)%Z then NUM_U_PARM_VALS
  else NUM_M_PARM_VALS.

(** Stored palette/marker and unit values that are value indices of their
    groups. *)
Definition stored_valid (q : ps_vars) : Prop :=
  (0 <= val_palette_marker q < NUM_M_PARM_VALS)%Z /\
  (0 <= val_units q < NUM_U_PARM_VALS)%Z.

(** An NVS entry a parameter group can hold. *)
Definition nvs_write_valid (w : string * Z) : Prop :=
  (w.1 = palette_marker_info_key /\ (0 <= w.2 < NUM_M_PARM_VALS)%Z) \/
  (w.1 = emissivity_info_key /\ In w.2 parm_e_value) \/
  (w.1 = units_info_key /\ (0 <= w.2 < NUM_U_PARM_VALS)%Z).

(** The value index a session starts from when it enters group [i]. *)
Definition stored_index (q : ps_vars) (i : Z) : Z :=
  if (i =? PARM_INDEX_EMISSIVITY)%Z then _vid_get_emissivity_index (val_emissivity q)
  else if (i =? PARM_INDEX_UNITS)%Z then val_units q
  else val_palette_marker q.

(** The GUI flags the parameter session sets. *)
Definition user_flags (g : gui_state_t) : bool * bool * bool * bool :=
  (black_hot_palette g, min_max_enable g, spotmeter_enable g, temp_unit_C g).

(** Two states of the video task with the same parameter session: the same
    selection variables, stored parameters, user flags and pending button
    events. *)
Definition same_session (s1 s2 : vid_vars) : Prop :=
  parm s1 = parm s2 /\ ps s1 = ps s2 /\
  user_flags (gui_state s1) = user_flags (gui_state s2) /\
  notify_parm_val_change s1 = notify_parm_val_change s2 /\
  notify_parm_sel_change s1 = notify_parm_sel_change s2.

(** The palette/marker value and the unit value in force: the value being
    edited while its group is active, the stored one otherwise. *)
Definition palette_in_force (s : vid_vars) : Z :=
  if (cur_parm_index (parm s) =? PARM_INDEX_MARKER)%Z then cur_parm_value (parm s)
  else val_palette_marker (ps s).

Definition units_in_force (s : vid_vars) : Z :=
  if (cur_parm_index (parm s) =? PARM_INDEX_UNITS)%Z then cur_parm_value (parm s)
  else val_units (ps s).

(** The value index stays inside the table of the active group, the stored
    values stay value indices, and the NVS entries written since [w0] are
    entries their groups can hold. *)
Definition range_inv (w0 : list (string * Z)) (s : vid_vars) : Prop :=
  (0 <= cur_parm_index (parm s) < NUM_PARMS)%Z /\
  cur_parm_max_index (parm s) = (group_size (cur_parm_index (parm s)) - 1)%Z /\
  (0 <= cur_parm_value (parm s) <= cur_parm_max_index (parm s))%Z /\
  stored_valid (ps s) /\
  exists ws, nvs_writes (ps s) = w0 ++ ws /\ Forall nvs_write_valid ws.

(** The GUI flags follow the values in force, and the value the group was
    entered with is the stored one. *)
Definition gui_inv (s : vid_vars) : Prop :=
  (0 <= cur_parm_index (parm s) < NUM_PARMS)%Z /\
  prev_parm_value (parm s) = stored_index (ps s) (cur_parm_index (parm s)) /\
  user_flags (gui_state s)
  = ((Z.land (palette_in_force s) M_PARM_PALETTE_MASK =? M_PARM_PALETTE_MASK)%Z,
     (Z.land (palette_in_force s) M_PARM_MARKER_MASK =? M_PARM_MARKER_MASK)%Z,
     (Z.land (palette_in_force s) M_PARM_MARKER_MASK =? M_PARM_MARKER_MASK)%Z,
     negb (units_in_force s =? 0)%Z).

End SessionSpec.

(** ** The vocabulary of the acquisition-run properties *)
Module LepRunSpec.
Import Lep.

(** The frame notifications among the calls, oldest first. *)
Fixpoint frame_masks (cs : list lep_call) : list Z :=
  match cs with
  | [] => []
  | xTaskNotify_vid m :: cs' => m :: frame_masks cs'
  | _ :: cs' => frame_masks cs'
  end.

(** The notification that announces slot [i], and the slot used after it. *)
Definition mask_of_slot (i : Z) : Z :=
  if (i =? 0)%Z then VID_NOTIFY_LEP_FRAME_MASK_1 else VID_NOTIFY_LEP_FRAME_MASK_2.

Definition other_slot (i : Z) : Z := if (i =? 0)%Z then 1%Z else 0%Z.

(** The notifications of [n] frames written to alternating slots, the first
    to slot [i]. *)
Fixpoint alternating (n : nat) (i : Z) : list Z :=
  match n with
  | O => []
  | S n' => mask_of_slot i :: alternating n' (other_slot i)
  end.

(** The number of fault clears among the calls. *)
Fixpoint fault_clears (cs : list lep_call) : nat :=
  match cs with
  | [] => 0
  | ctrl_set_fault_type f :: cs' =>
      (if (f =? CTRL_FAULT_NONE)%Z then 1 else 0) + fault_clears cs'
  | _ :: cs' => fault_clears cs'
  end.

(** The variables within their working ranges. *)
Definition lep_bounded (LIMIT RETRY : Z) (s : lep_vars) : Prop :=
  (0 <= task_state s <= 3)%Z /\
  (vid_buf_index s = 0 \/ vid_buf_index s = 1)%Z /\
  (0 <= vsync_count s < 36)%Z /\
  (0 <= sync_fail_count s <= LIMIT)%Z /\
  (if (task_state s =? STATE_ERROR)%Z then (1 <= reset_fail_count s <= RETRY)%Z
   else (0 <= reset_fail_count s <= 1)%Z).

End LepRunSpec.

(** ** The vocabulary of the control-run properties *)
Module CtrlRunSpec.
Import Ctrl.

(** Successive passes of the control task, one button sample each. *)
Definition ctrl_passes (levels : list Z) (c : ctrl_vars) : ctrl_vars :=
  ctrl_run (map EvPass levels) c.

(** Running with a solid LED, nothing pending and the button at rest. *)
Definition running_idle (c : ctrl_vars) : Prop :=
  ctrl_state c = CTRL_ST_RUN /\ ctrl_led_state c = CTRL_LED_ST_SOLID /\
  notification c = 0%Z /\ prev_btn c = false /\ btn_down c = false.

(** What the video task is sent for a press that lasts [k] samples. *)
Definition press_result (k : nat) : list Z :=
  if k <? 2 then []
  else if k <? 60 then [VID_NOTIFY_PARM_CHANGE_MASK]
  else [VID_NOTIFY_PARM_SELECT_MASK].

(** An event other than a fault clear. *)
Definition no_fault_clear (e : ctrl_event) : Prop :=
  match e with
  | EvSetFaultType f => f <> CTRL_FAULT_NONE
  | _ => True
  end.

End CtrlRunSpec.

(** ** main.c: start-up *)
Module Boot.
Import Ctrl.

(** What [app_main] does, in program order; [halt] is the closing
    [while (1) {vTaskDelay(pdMS_TO_TICKS(100));}] of a failed start. *)
Inductive boot_action :=
| create_task (name : string)
| set_fault_type (f : Z)
| notify_startup_done
| delay (ms : Z)
| halt.

(** [app_main], given what [system_esp_io_init], [system_peripheral_init]
    and [system_buffer_init] return when they are called. *)
Definition app_main (esp_io_ok peripheral_ok buffer_ok : bool) : list boot_action :=
  create_task "ctrl_task" ::
  (if negb esp_io_ok then [set_fault_type CTRL_FAULT_ESP32_INIT; halt]
   else if negb peripheral_ok then [set_fault_type CTRL_FAULT_PERIPH_INIT; halt]
   else if negb buffer_ok then [set_fault_type CTRL_FAULT_MEM_INIT; halt]
   else [notify_startup_done; create_task "vid_task"; delay 1000;
         create_task "lep_task"]).

(** What of it reaches the control task. *)
Fixpoint ctrl_events (acts : list boot_action) : list ctrl_event :=
  match acts with
  | [] => []
  | set_fault_type f :: acts' => EvSetFaultType f :: ctrl_events acts'
  | notify_startup_done :: acts' => EvStartupDone :: ctrl_events acts'
  | _ :: acts' => ctrl_events acts'
  end.

(** The fault code of the first start-up stage that fails, 0 when none does. *)
Definition boot_fault (esp_io_ok peripheral_ok buffer_ok : bool) : Z :=
  if negb esp_io_ok then CTRL_FAULT_ESP32_INIT
  else if negb peripheral_ok then CTRL_FAULT_PERIPH_INIT
  else if negb buffer_ok then CTRL_FAULT_MEM_INIT
  else CTRL_FAULT_NONE.

End Boot.

(** ** The acquisition task seen from the control task *)
Module SystemSpec.

(** What of the calls of the acquisition task reaches the control task. *)
Fixpoint lep_ctrl_events (calls : list Lep.lep_call) : list Ctrl.ctrl_event :=
  match calls with
  | [] => []
  | Lep.ctrl_set_fault_type f :: calls' => Ctrl.EvSetFaultType f :: lep_ctrl_events calls'
  | _ :: calls' => lep_ctrl_events calls'
  end.

End SystemSpec.

(* ================================================================= *)
(** * Part II: properties                                             *)
(* ================================================================= *)

(** ** The renderers *)
Module RenderProofs.
Import Render RenderSpec.

Lemma u8_range v : (0 <= u8 v < 256)%Z.
Proof.
  unfold u8. change 255%Z with (Z.ones 8). rewrite Z.land_ones by lia.
  apply Z.mod_pos_bound. lia.
Qed.

Lemma u8_small v : (0 <= v < 256)%Z -> u8 v = v.
Proof.
  intros Hv. unfold u8. change 255%Z with (Z.ones 8). rewrite Z.land_ones by lia.
  apply Z.mod_small. lia.
Qed.

Lemma u8_idem v : u8 (u8 v) = u8 v.
Proof. apply u8_small, u8_range. Qed.

Lemma u8_lxor a b : u8 (Z.lxor (u8 a) (u8 b)) = Z.lxor (u8 a) (u8 b).
Proof.
  unfold u8. apply Z.bits_inj'. intros n _.
  rewrite !Z.land_spec, !Z.lxor_spec, !Z.land_spec.
  destruct (Z.testbit a n), (Z.testbit b n), (Z.testbit 255 n); reflexivity.
Qed.

Lemma u8_lxor_small a pm :
  (0 <= a < 256)%Z -> (0 <= pm < 256)%Z -> u8 (Z.lxor a pm) = Z.lxor a pm.
Proof.
  intros Ha Hp. rewrite <- (u8_small a Ha), <- (u8_small pm Hp). apply u8_lxor.
Qed.

Lemma sub_pixel_ds A B :
  (0 <= A < 256)%Z -> (0 <= B < 256)%Z ->
  u8 ((SF_DS * A + B) ÷ DIV_DS) = blend2 A B.
Proof.
  intros HA HB. unfold DIV_DS, SF_DS, blend2. simpl (3 + 1)%Z.
  rewrite Z.quot_div_nonneg by lia. apply u8_small.
  split; [apply Z.div_pos; lia | apply Z.div_lt_upper_bound; lia].
Qed.

Lemma blend2_range A B :
  (0 <= A < 256)%Z -> (0 <= B < 256)%Z -> (0 <= blend2 A B < 256)%Z.
Proof.
  intros HA HB. unfold blend2.
  split; [apply Z.div_pos; lia | apply Z.div_lt_upper_bound; lia].
Qed.

Lemma blend4_range A B C D :
  (0 <= A < 256)%Z -> (0 <= B < 256)%Z -> (0 <= C < 256)%Z -> (0 <= D < 256)%Z ->
  (0 <= blend4 A B C D < 256)%Z.
Proof.
  intros HA HB HC HD. unfold blend4.
  split; [apply Z.div_pos; lia | apply Z.div_lt_upper_bound; lia].
Qed.

Lemma sub_pixel_qs A B C D :
  (0 <= A < 256)%Z -> (0 <= B < 256)%Z -> (0 <= C < 256)%Z -> (0 <= D < 256)%Z ->
  u8 ((SF_QS * A + B + C + D) ÷ DIV_QS) = blend4 A B C D.
Proof.
  intros HA HB HC HD. unfold DIV_QS, SF_QS. simpl (5 + 3)%Z.
  rewrite Z.quot_div_nonneg by lia. apply u8_small. apply blend4_range; assumption.
Qed.

Lemma store8_length img p v : length (store8 img p v) = length img.
Proof. apply length_insert. Qed.

Lemma store8_ne img p v i : p <> i -> store8 img p v !! i = img !! i.
Proof. intros. unfold store8. by apply list_lookup_insert_ne. Qed.

Lemma store8_eq img p v : p < length img -> store8 img p v !! p = Some (u8 v).
Proof. intros. unfold store8. by apply list_lookup_insert_eq. Qed.

Lemma lookup_cong (l : list Z) i j v w : i = j -> v = w -> l !! i = v -> l !! j = w.
Proof. by intros -> ->. Qed.

Lemma idx_cong {W} X Y X' Y' : X = X' -> Y = Y' -> idx W X Y = idx W X' Y'.
Proof. by intros -> ->. Qed.

Lemma idx_in_row {W} X Y r lo m :
  X < 2 * W -> lo + m <= 2 * W ->
  idx W lo r <= idx W X Y < idx W lo r + m -> Y = r /\ lo <= X < lo + m.
Proof.
  unfold idx. intros HX Hm Hi.
  destruct (Nat.lt_trichotomy Y r) as [Hlt|[->|Hgt]].
  - assert ((Y + 1) * (2 * W) <= r * (2 * W)) by (apply Nat.mul_le_mono_r; lia). lia.
  - lia.
  - assert ((r + 1) * (2 * W) <= Y * (2 * W)) by (apply Nat.mul_le_mono_r; lia). lia.
Qed.

Lemma idx_inj {W} X Y X' Y' :
  X < 2 * W -> X' < 2 * W -> idx W X Y = idx W X' Y' -> X = X' /\ Y = Y'.
Proof.
  intros HX HX' E.
  destruct (idx_in_row (W:=W) X Y Y' X' 1) as [-> ?]; [lia|lia|lia|]. split; [lia|done].
Qed.

Lemma idx_lt_length W H X Y : X < 2 * W -> Y < 2 * H -> idx W X Y < 2 * H * (2 * W).
Proof.
  intros HX HY. unfold idx.
  assert ((Y + 1) * (2 * W) <= 2 * H * (2 * W)) by (apply Nat.mul_le_mono_r; lia). lia.
Qed.


Section Interp.
Variables W H : nat.
Variable pm : Z.
Hypothesis Hpm : (0 <= pm < 256)%Z.
Variable src : list Z.

Hypothesis HW : 0 < W.
Local Abbreviation a p := (u8 (rd src p)).

Lemma store_px img p v :
  (0 <= v < 256)%Z -> p < length img ->
  store8 img p (Z.lxor v pm) !! p = Some (Z.lxor v pm).
Proof.
  intros Hv Hp. rewrite store8_eq by done. by rewrite u8_lxor_small.
Qed.

Lemma interp_row_loop_spec n : forall img sp ip,
  ip + 2 * n <= length img ->
  let out := interp_row_loop pm src n img sp ip (a sp) in
  length out = length img /\
  (forall i, i < ip \/ ip + 2 * n <= i -> out !! i = img !! i) /\
  (forall k, k < n ->
     out !! (ip + 2 * k) = Some (Z.lxor (blend2 (a (sp + k)) (a (sp + k + 1))) pm) /\
     out !! (ip + 2 * k + 1) = Some (Z.lxor (blend2 (a (sp + k + 1)) (a (sp + k))) pm)).
Proof.
  induction n as [|n IH]; intros img sp ip Hlen; cbn zeta.
  - simpl. split; [done|]. split; [done|]. intros k Hk. lia.
  - cbn [interp_row_loop].
    set (v1 := Z.lxor (u8 ((SF_DS * a sp + a (S sp)) ÷ DIV_DS)) pm).
    set (v2 := Z.lxor (u8 ((a sp + SF_DS * a (S sp)) ÷ DIV_DS)) pm).
    set (img2 := store8 (store8 img ip v1) (S ip) v2).
    assert (Hl2 : length img2 = length img) by (unfold img2; by rewrite !store8_length).
    destruct (IH img2 (S sp) (S (S ip))) as (IHl & IHf & IHv); [lia|].
    split; [congruence|]. split.
    + intros i Hi. rewrite IHf by lia. unfold img2.
      rewrite !store8_ne by lia. done.
    + intros [|k] Hk.
      * rewrite !IHf by lia. unfold img2.
        replace (ip + 2 * 0) with ip by lia. replace (ip + 1) with (S ip) by lia.
        replace (sp + 0) with sp by lia. replace (sp + 1) with (S sp) by lia.
        rewrite store8_ne by lia. rewrite store8_eq by lia.
        rewrite store8_eq by (rewrite store8_length; lia).
        unfold v1, v2. rewrite (Z.add_comm (a sp) (SF_DS * _)).
        rewrite !sub_pixel_ds by apply u8_range.
        rewrite !u8_lxor_small; auto using blend2_range, u8_range.
      * destruct (IHv k) as [E1 E2]; [lia|].
        replace (ip + 2 * S k) with (S (S ip) + 2 * k) by lia.
        replace (sp + S k) with (S sp + k) by lia.
        split; [exact E1|exact E2].
Qed.

Lemma interp_col_loop_spec n : forall img sp ip,
  (forall j, j < 2 * n -> ip + 2 * W * j < length img) ->
  let out := interp_col_loop W pm src n img sp ip (a sp) in
  length out = length img /\
  (forall i, (forall j, j < 2 * n -> i <> ip + 2 * W * j) -> out !! i = img !! i) /\
  (forall k, k < n ->
     out !! (ip + 2 * W * (2 * k))
       = Some (Z.lxor (blend2 (a (sp + W * k)) (a (sp + W * (k + 1)))) pm) /\
     out !! (ip + 2 * W * (2 * k + 1))
       = Some (Z.lxor (blend2 (a (sp + W * (k + 1))) (a (sp + W * k))) pm)).
Proof.
  induction n as [|n IH]; intros img sp ip Hlen; cbn zeta.
  - simpl. split; [done|]. split; [done|]. intros k Hk. lia.
  - cbn [interp_col_loop].
    set (v1 := Z.lxor (u8 ((SF_DS * a sp + a (sp + W)) ÷ DIV_DS)) pm).
    set (v2 := Z.lxor (u8 ((a sp + SF_DS * a (sp + W)) ÷ DIV_DS)) pm).
    set (img2 := store8 (store8 img ip v1) (ip + 2 * W) v2).
    assert (Hl2 : length img2 = length img) by (unfold img2; by rewrite !store8_length).
    assert (H0 : ip < length img) by (specialize (Hlen 0); lia).
    assert (H1 : ip + 2 * W < length img) by (specialize (Hlen 1); lia).
    destruct (IH img2 (sp + W) (ip + 2 * W + 2 * W)) as (IHl & IHf & IHv).
    { intros j Hj. rewrite Hl2. specialize (Hlen (j + 2)). lia. }
    split; [congruence|]. split.
    + intros i Hi. rewrite IHf.
      * unfold img2. pose proof (Hi 0). pose proof (Hi 1).
        rewrite !store8_ne by lia. done.
      * intros j Hj. specialize (Hi (j + 2)). lia.
    + intros [|k] Hk.
      * rewrite !IHf by (intros j Hj; nia). unfold img2.
        replace (ip + 2 * W * (2 * 0)) with ip by lia.
        replace (ip + 2 * W * (2 * 0 + 1)) with (ip + 2 * W) by lia.
        replace (sp + W * 0) with sp by lia. replace (sp + W * (0 + 1)) with (sp + W) by lia.
        rewrite store8_ne by lia. rewrite store8_eq by lia.
        rewrite store8_eq by (rewrite store8_length; lia).
        unfold v1, v2. rewrite (Z.add_comm (a sp) (SF_DS * _)).
        rewrite !sub_pixel_ds by apply u8_range.
        rewrite !u8_lxor_small; auto using blend2_range, u8_range.
      * destruct (IHv k) as [E1 E2]; [lia|].
        replace (ip + 2 * W * (2 * S k)) with (ip + 2 * W + 2 * W + 2 * W * (2 * k)) by lia.
        replace (ip + 2 * W * (2 * S k + 1))
          with (ip + 2 * W + 2 * W + 2 * W * (2 * k + 1)) by lia.
        replace (sp + W * S k) with (sp + W + W * k) by lia.
        replace (sp + W * (S k + 1)) with (sp + W + W * (k + 1)) by lia.
        split; [exact E1|exact E2].
Qed.

Lemma sub_pixel_qs_eq s o h v d :
  (0 <= o < 256)%Z -> (0 <= h < 256)%Z -> (0 <= v < 256)%Z -> (0 <= d < 256)%Z ->
  s = (5 * o + h + v + d)%Z ->
  u8 (Z.lxor (u8 (s ÷ DIV_QS)) pm) = Z.lxor (blend4 o h v d) pm.
Proof.
  intros Ho Hh Hv Hd ->.
  pose proof (blend4_range o h v d Ho Hh Hv Hd) as Hr.
  assert (E : u8 ((5 * o + h + v + d) ÷ DIV_QS) = blend4 o h v d).
  { unfold DIV_QS, SF_QS. simpl (5 + 3)%Z.
    rewrite Z.quot_div_nonneg by lia. by apply u8_small. }
  rewrite E. by apply u8_lxor_small.
Qed.

Lemma interp_inner_x_spec n : forall img sp ip,
  n <= W -> ip + 2 * W + 2 * n <= length img ->
  let r := interp_inner_x W pm src n img sp ip (a sp) (a (sp + W)) in
  let out := r.1.1 in
  r.1.2 = sp + n /\ r.2 = ip + 2 * n /\
  length out = length img /\
  (forall i, ~ (ip <= i < ip + 2 * n) -> ~ (ip + 2 * W <= i < ip + 2 * W + 2 * n) ->
             out !! i = img !! i) /\
  (forall k, k < n ->
     out !! (ip + 2 * k)
       = Some (Z.lxor (blend4 (a (sp + k)) (a (sp + k + 1))
                              (a (sp + k + W)) (a (sp + k + 1 + W))) pm) /\
     out !! (ip + 2 * k + 1)
       = Some (Z.lxor (blend4 (a (sp + k + 1)) (a (sp + k))
                              (a (sp + k + 1 + W)) (a (sp + k + W))) pm) /\
     out !! (ip + 2 * W + 2 * k)
       = Some (Z.lxor (blend4 (a (sp + k + W)) (a (sp + k + 1 + W))
                              (a (sp + k)) (a (sp + k + 1))) pm) /\
     out !! (ip + 2 * W + 2 * k + 1)
       = Some (Z.lxor (blend4 (a (sp + k + 1 + W)) (a (sp + k + W))
                              (a (sp + k + 1)) (a (sp + k))) pm)).
Proof.
  induction n as [|n IH]; intros img sp ip HnW Hlen; cbn zeta.
  - simpl. repeat split; try done; try lia. all: intros; lia.
  - cbn [interp_inner_x].
    set (A := a sp). set (C := a (sp + W)).
    set (B := a (S sp)). set (D := a (S sp + W)).
    set (v1 := Z.lxor (u8 ((SF_QS * A + B + C + D) ÷ DIV_QS)) pm).
    set (v2 := Z.lxor (u8 ((A + B + SF_QS * C + D) ÷ DIV_QS)) pm).
    set (v3 := Z.lxor (u8 ((A + SF_QS * B + C + D) ÷ DIV_QS)) pm).
    set (v4 := Z.lxor (u8 ((A + B + C + SF_QS * D) ÷ DIV_QS)) pm).
    set (img2 := store8 (store8 (store8 (store8 img ip v1) (ip + 2 * W) v2) (S ip) v3)
                        (S ip + 2 * W) v4).
    assert (Hl2 : length img2 = length img) by (unfold img2; by rewrite !store8_length).
    destruct (IH img2 (S sp) (S (S ip))) as (IHs & IHi & IHl & IHf & IHv); [lia|lia|].
    fold B D in IHs, IHi, IHl, IHf, IHv.
    assert (HA : (0 <= A < 256)%Z) by apply u8_range.
    assert (HB : (0 <= B < 256)%Z) by apply u8_range.
    assert (HC : (0 <= C < 256)%Z) by apply u8_range.
    assert (HD : (0 <= D < 256)%Z) by apply u8_range.
    split; [lia|]. split; [lia|]. split; [congruence|]. split.
    + intros i Hi1 Hi2. rewrite IHf by lia. unfold img2.
      rewrite !store8_ne by lia. done.
    + intros [|k] Hk.
      * rewrite !IHf by lia. unfold img2.
        replace (ip + 2 * 0) with ip by lia. replace (ip + 1) with (S ip) by lia.
        replace (ip + 2 * W + 2 * 0) with (ip + 2 * W) by lia.
        replace (ip + 2 * W + 1) with (S ip + 2 * W) by lia.
        replace (sp + 0) with sp by lia. replace (sp + 1) with (S sp) by lia.
        fold A B C D.
        repeat split.
        -- rewrite !store8_ne by lia. rewrite store8_eq by lia.
           unfold v1. apply f_equal, sub_pixel_qs_eq; auto; unfold SF_QS; lia.
        -- rewrite store8_ne by lia. rewrite store8_eq by (rewrite !store8_length; lia).
           unfold v3. apply f_equal, sub_pixel_qs_eq; auto; unfold SF_QS; lia.
        -- rewrite !store8_ne by lia. rewrite store8_eq by (rewrite !store8_length; lia).
           unfold v2. apply f_equal, sub_pixel_qs_eq; auto; unfold SF_QS; lia.
        -- rewrite store8_eq by (rewrite !store8_length; lia).
           unfold v4. apply f_equal, sub_pixel_qs_eq; auto; unfold SF_QS; lia.
      * destruct (IHv k) as (E1 & E2 & E3 & E4); [lia|].
        replace (ip + 2 * S k) with (S (S ip) + 2 * k) by lia.
        replace (ip + 2 * W + 2 * S k) with (S (S ip) + 2 * W + 2 * k) by lia.
        replace (sp + S k) with (S sp + k) by lia.
        repeat split; assumption.
Qed.

Lemma blend2_cong p1 p2 q1 q2 :
  p1 = q1 -> p2 = q2 ->
  Some (Z.lxor (blend2 (a p1) (a p2)) pm) = Some (Z.lxor (blend2 (a q1) (a q2)) pm).
Proof. by intros -> ->. Qed.

Lemma blend4_cong p1 p2 p3 p4 q1 q2 q3 q4 :
  p1 = q1 -> p2 = q2 -> p3 = q3 -> p4 = q4 ->
  Some (Z.lxor (blend4 (a p1) (a p2) (a p3) (a p4)) pm)
  = Some (Z.lxor (blend4 (a q1) (a q2) (a q3) (a q4)) pm).
Proof. by intros -> -> -> ->. Qed.

Hypothesis HH : 0 < H.

Lemma interp_set_outer_row_spec (first_row : bool) img :
  length img = 2 * H * (2 * W) ->
  let Y0 := if first_row then 0 else 2 * H - 1 in
  let y0 := if first_row then 0 else H - 1 in
  let out := interp_set_outer_row W H pm src img first_row in
  length out = length img /\
  (forall X Y, X < 2 * W -> Y <> Y0 \/ X = 0 \/ X = 2 * W - 1 ->
               out !! idx W X Y = img !! idx W X Y) /\
  (forall k, k < W - 1 ->
     out !! idx W (2 * k + 1) Y0
       = Some (Z.lxor (blend2 (px W src k y0) (px W src (k + 1) y0)) pm) /\
     out !! idx W (2 * k + 2) Y0
       = Some (Z.lxor (blend2 (px W src (k + 1) y0) (px W src k y0)) pm)).
Proof.
  intros Hlen Y0 y0 out.
  assert (Hout : out = interp_row_loop pm src (W - 1) img (y0 * W) (idx W 1 Y0)
                                       (a (y0 * W))).
  { unfold out, interp_set_outer_row, Y0, y0, idx. destruct first_row.
    - reflexivity.
    - f_equal; lia. }
  assert (HY0 : Y0 < 2 * H) by (unfold Y0; destruct first_row; lia).
  pose proof (idx_lt_length W H (2 * W - 1) Y0 ltac:(lia) HY0) as Hb.
  destruct (interp_row_loop_spec (W - 1) img (y0 * W) (idx W 1 Y0))
    as (Hl & Hf & Hv).
  { unfold idx in *. lia. }
  rewrite <- Hout in Hl, Hf, Hv.
  split; [done|]. split.
  - intros X Y HX Hc. apply Hf.
    destruct (decide (idx W 1 Y0 <= idx W X Y < idx W 1 Y0 + 2 * (W - 1))) as [Hi|Hi]; [|lia].
    apply idx_in_row in Hi; lia.
  - intros k Hk. destruct (Hv k Hk) as [E1 E2]. split.
    + eapply lookup_cong; [| |exact E1]; [unfold idx; lia|].
      unfold px. apply blend2_cong; lia.
    + eapply lookup_cong; [| |exact E2]; [unfold idx; lia|].
      unfold px. apply blend2_cong; lia.
Qed.

Lemma interp_set_outer_col_spec (first_col : bool) img :
  length img = 2 * H * (2 * W) ->
  let X0 := if first_col then 0 else 2 * W - 1 in
  let x0 := if first_col then 0 else W - 1 in
  let out := interp_set_outer_col W H pm src img first_col in
  length out = length img /\
  (forall X Y, X < 2 * W -> X <> X0 \/ Y = 0 \/ 2 * H - 1 <= Y ->
               out !! idx W X Y = img !! idx W X Y) /\
  (forall k, k < H - 1 ->
     out !! idx W X0 (2 * k + 1)
       = Some (Z.lxor (blend2 (px W src x0 k) (px W src x0 (k + 1))) pm) /\
     out !! idx W X0 (2 * k + 2)
       = Some (Z.lxor (blend2 (px W src x0 (k + 1)) (px W src x0 k)) pm)).
Proof.
  intros Hlen X0 x0 out.
  assert (Hout : out = interp_col_loop W pm src (H - 1) img x0 (idx W X0 1) (a x0)).
  { unfold out, interp_set_outer_col, X0, x0, idx. destruct first_col.
    - f_equal; lia.
    - f_equal; lia. }
  assert (HX0 : X0 < 2 * W) by (unfold X0; destruct first_col; lia).
  assert (Hidx : forall j, idx W X0 1 + 2 * W * j = idx W X0 (j + 1))
    by (intros j; unfold idx; lia).
  destruct (interp_col_loop_spec (H - 1) img x0 (idx W X0 1)) as (Hl & Hf & Hv).
  { intros j Hj. rewrite Hidx, Hlen. apply idx_lt_length; lia. }
  rewrite <- Hout in Hl, Hf, Hv.
  split; [done|]. split.
  - intros X Y HX Hc. apply Hf. intros j Hj. rewrite Hidx.
    intros [? ?]%idx_inj; lia.
  - intros k Hk. destruct (Hv k Hk) as [E1 E2]. split.
    + eapply lookup_cong; [| |exact E1]; [unfold idx; lia|].
      unfold px. apply blend2_cong; lia.
    + eapply lookup_cong; [| |exact E2]; [unfold idx; lia|].
      unfold px. apply blend2_cong; lia.
Qed.

Lemma interp_inner_y_spec n : forall img y0,
  y0 + n + 1 <= H -> length img = 2 * H * (2 * W) ->
  let out := interp_inner_y W pm src n img (y0 * W) (idx W 1 (2 * y0 + 1)) in
  length out = length img /\
  (forall X Y, X < 2 * W ->
     X = 0 \/ X = 2 * W - 1 \/ Y < 2 * y0 + 1 \/ 2 * (y0 + n) + 1 <= Y ->
     out !! idx W X Y = img !! idx W X Y) /\
  (forall r k, r < n -> k < W - 1 ->
     out !! idx W (2 * k + 1) (2 * (y0 + r) + 1)
       = Some (Z.lxor (blend4 (px W src k (y0 + r)) (px W src (k + 1) (y0 + r))
                              (px W src k (y0 + r + 1)) (px W src (k + 1) (y0 + r + 1))) pm) /\
     out !! idx W (2 * k + 2) (2 * (y0 + r) + 1)
       = Some (Z.lxor (blend4 (px W src (k + 1) (y0 + r)) (px W src k (y0 + r))
                              (px W src (k + 1) (y0 + r + 1)) (px W src k (y0 + r + 1))) pm) /\
     out !! idx W (2 * k + 1) (2 * (y0 + r) + 2)
       = Some (Z.lxor (blend4 (px W src k (y0 + r + 1)) (px W src (k + 1) (y0 + r + 1))
                              (px W src k (y0 + r)) (px W src (k + 1) (y0 + r))) pm) /\
     out !! idx W (2 * k + 2) (2 * (y0 + r) + 2)
       = Some (Z.lxor (blend4 (px W src (k + 1) (y0 + r + 1)) (px W src k (y0 + r + 1))
                              (px W src (k + 1) (y0 + r)) (px W src k (y0 + r))) pm)).
Proof.
  induction n as [|n IH]; intros img y0 Hy Hlen; cbn zeta.
  - simpl. split; [done|]. split; [done|]. intros r k Hr. lia.
  - cbn [interp_inner_y].
    pose proof (idx_lt_length W H (2 * W - 1) (2 * y0 + 2) ltac:(lia) ltac:(lia)) as Hb.
    assert (Hrow2 : idx W 1 (2 * y0 + 1) + 2 * W = idx W 1 (2 * y0 + 2))
      by (unfold idx; lia).
    destruct (interp_inner_x_spec (W - 1) img (y0 * W) (idx W 1 (2 * y0 + 1)))
      as (Es & Ei & Hl & Hf & Hv); [lia|unfold idx in *; lia|].
    destruct (interp_inner_x W pm src (W - 1) img (y0 * W) (idx W 1 (2 * y0 + 1))
                (a (y0 * W)) (a (y0 * W + W))) as [[img1 sp1] ip1].
    cbn [fst snd] in Es, Ei, Hl, Hf, Hv. subst sp1 ip1.
    replace (S (y0 * W + (W - 1))) with (S y0 * W) by lia.
    replace (idx W 1 (2 * y0 + 1) + 2 * (W - 1) + (2 * W + 2))
      with (idx W 1 (2 * S y0 + 1)) by (unfold idx; lia).
    destruct (IH img1 (S y0)) as (IHl & IHf & IHv); [lia|congruence|].
    assert (Hf' : forall X Y, X < 2 * W ->
               X = 0 \/ X = 2 * W - 1 \/ Y < 2 * y0 + 1 \/ 2 * y0 + 3 <= Y ->
               img1 !! idx W X Y = img !! idx W X Y).
    { intros X Y HX Hc. apply Hf.
      - intros Hi. apply idx_in_row in Hi; lia.
      - rewrite Hrow2. intros Hi. apply idx_in_row in Hi; lia. }
    split; [congruence|]. split.
    + intros X Y HX Hc. rewrite IHf by lia. apply Hf'; lia.
    + intros [|r] k Hr Hk.
      * destruct (Hv k Hk) as (E1 & E2 & E3 & E4).
        replace (y0 + 0) with y0 by lia.
        rewrite !IHf by lia.
        repeat split.
        -- eapply lookup_cong; [| |exact E1]; [unfold idx; lia|].
           unfold px. apply blend4_cong; lia.
        -- eapply lookup_cong; [| |exact E2]; [unfold idx; lia|].
           unfold px. apply blend4_cong; lia.
        -- eapply lookup_cong; [| |exact E3]; [unfold idx; lia|].
           unfold px. apply blend4_cong; lia.
        -- eapply lookup_cong; [| |exact E4]; [unfold idx; lia|].
           unfold px. apply blend4_cong; lia.
      * destruct (IHv r k) as (E1 & E2 & E3 & E4); [lia|lia|].
        replace (y0 + S r) with (S y0 + r) by lia.
        repeat split; assumption.
Qed.

Lemma interp_set_inner_spec img :
  length img = 2 * H * (2 * W) ->
  let out := interp_set_inner W H pm src img in
  length out = length img /\
  (forall X Y, X < 2 * W ->
     X = 0 \/ X = 2 * W - 1 \/ Y = 0 \/ 2 * H - 1 <= Y ->
     out !! idx W X Y = img !! idx W X Y) /\
  (forall y x, y < H - 1 -> x < W - 1 ->
     out !! idx W (2 * x + 1) (2 * y + 1)
       = Some (Z.lxor (blend4 (px W src x y) (px W src (x + 1) y)
                              (px W src x (y + 1)) (px W src (x + 1) (y + 1))) pm) /\
     out !! idx W (2 * x + 2) (2 * y + 1)
       = Some (Z.lxor (blend4 (px W src (x + 1) y) (px W src x y)
                              (px W src (x + 1) (y + 1)) (px W src x (y + 1))) pm) /\
     out !! idx W (2 * x + 1) (2 * y + 2)
       = Some (Z.lxor (blend4 (px W src x (y + 1)) (px W src (x + 1) (y + 1))
                              (px W src x y) (px W src (x + 1) y)) pm) /\
     out !! idx W (2 * x + 2) (2 * y + 2)
       = Some (Z.lxor (blend4 (px W src (x + 1) (y + 1)) (px W src x (y + 1))
                              (px W src (x + 1) y) (px W src x y)) pm)).
Proof.
  intros Hlen out.
  destruct (interp_inner_y_spec (H - 1) img 0) as (Hl & Hf & Hv); [lia|done|].
  assert (Hout : out = interp_inner_y W pm src (H - 1) img (0 * W) (idx W 1 (2 * 0 + 1))).
  { unfold out, interp_set_inner, idx. f_equal; lia. }
  rewrite <- Hout in Hl, Hf, Hv.
  split; [done|]. split.
  - intros X Y HX Hc. apply Hf; lia.
  - intros y x Hy Hx. apply (Hv y x Hy Hx).
Qed.

Lemma a_px_cong p x y :
  p = y * W + x -> Some (Z.lxor (a p) pm) = Some (Z.lxor (px W src x y) pm).
Proof. by intros ->. Qed.

Lemma interp_set_pixel_idx v img x y :
  interp_set_pixel W pm v img x y = store8 img (idx W x y) (Z.lxor (u8 v) pm).
Proof.
  unfold interp_set_pixel, idx. change (Z.land v 255) with (u8 v). rewrite u8_idem.
  f_equal. lia.
Qed.

Lemma interp_corners_spec img :
  length img = 2 * H * (2 * W) ->
  let img := interp_set_pixel W pm (rd src 0) img 0 0 in
  let img := interp_set_pixel W pm (rd src (W - 1)) img (2 * W - 1) 0 in
  let img := interp_set_pixel W pm (rd src (W * (H - 1))) img 0 (2 * H - 1) in
  let out := interp_set_pixel W pm (rd src (W * (H - 1) + (W - 1)))
                              img (2 * W - 1) (2 * H - 1) in
  length out = 2 * H * (2 * W) /\
  out !! idx W 0 0 = Some (Z.lxor (px W src 0 0) pm) /\
  out !! idx W (2 * W - 1) 0 = Some (Z.lxor (px W src (W - 1) 0) pm) /\
  out !! idx W 0 (2 * H - 1) = Some (Z.lxor (px W src 0 (H - 1)) pm) /\
  out !! idx W (2 * W - 1) (2 * H - 1) = Some (Z.lxor (px W src (W - 1) (H - 1)) pm).
Proof.
  intros Hlen. cbn zeta. rewrite !interp_set_pixel_idx.
  assert (Hb : forall X Y (l : list Z), X < 2 * W -> Y < 2 * H ->
                 length l = length img -> idx W X Y < length l).
  { intros X Y l HX HY ->. rewrite Hlen. by apply idx_lt_length. }
  split; [by rewrite !store8_length|].
  repeat split.
  - rewrite !store8_ne by (intros [? ?]%idx_inj; lia).
    rewrite store8_eq by (apply Hb; [lia|lia|by rewrite ?store8_length]).
    rewrite u8_lxor_small by auto using u8_range. apply a_px_cong; lia.
  - rewrite !store8_ne by (intros [? ?]%idx_inj; lia).
    rewrite store8_eq by (apply Hb; [lia|lia|by rewrite ?store8_length]).
    rewrite u8_lxor_small by auto using u8_range. apply a_px_cong; lia.
  - rewrite !store8_ne by (intros [? ?]%idx_inj; lia).
    rewrite store8_eq by (apply Hb; [lia|lia|by rewrite ?store8_length]).
    rewrite u8_lxor_small by auto using u8_range. apply a_px_cong; lia.
  - rewrite store8_eq by (apply Hb; [lia|lia|by rewrite ?store8_length]).
    rewrite u8_lxor_small by auto using u8_range. apply a_px_cong; lia.
Qed.

Lemma px_blend2_cong x1 y1 x2 y2 x1' y1' x2' y2' :
  x1 = x1' -> y1 = y1' -> x2 = x2' -> y2 = y2' ->
  Some (Z.lxor (blend2 (px W src x1 y1) (px W src x2 y2)) pm)
  = Some (Z.lxor (blend2 (px W src x1' y1') (px W src x2' y2')) pm).
Proof. by intros -> -> -> ->. Qed.

Lemma px_blend4_cong x1 y1 x2 y2 x3 y3 x4 y4 x1' y1' x2' y2' x3' y3' x4' y4' :
  x1 = x1' -> y1 = y1' -> x2 = x2' -> y2 = y2' ->
  x3 = x3' -> y3 = y3' -> x4 = x4' -> y4 = y4' ->
  Some (Z.lxor (blend4 (px W src x1 y1) (px W src x2 y2)
                       (px W src x3 y3) (px W src x4 y4)) pm)
  = Some (Z.lxor (blend4 (px W src x1' y1') (px W src x2' y2')
                         (px W src x3' y3') (px W src x4' y4')) pm).
Proof. by intros -> -> -> -> -> -> -> ->. Qed.

Lemma px_cong x1 y1 x1' y1' :
  x1 = x1' -> y1 = y1' ->
  Some (Z.lxor (px W src x1 y1) pm) = Some (Z.lxor (px W src x1' y1') pm).
Proof. by intros -> ->. Qed.

Ltac px_done E :=
  eapply lookup_cong; [| |exact E];
  [apply idx_cong; lia
  |first [apply px_blend4_cong | apply px_blend2_cong | apply px_cong]; lia].

Theorem render_interp_agc_pixel img x dx y dy :
  length img = 2 * H * (2 * W) ->
  x < W -> y < H -> dx < 2 -> dy < 2 ->
  render_interp_agc_data W H pm src img !! idx W (2 * x + dx) (2 * y + dy)
  = Some (Z.lxor (interp_base W H src x dx y dy) pm).
Proof.
  intros Hlen Hx Hy Hdx Hdy. unfold render_interp_agc_data.
  destruct (interp_corners_spec img Hlen) as (L0 & C1 & C2 & C3 & C4).
  cbv beta zeta iota in L0, C1, C2, C3, C4.
  set (img0 := interp_set_pixel W pm _ (interp_set_pixel W pm _ _ _ _) _ _) in *.
  destruct (interp_set_outer_row_spec true img0 L0) as (L1 & F1 & V1).
  cbv beta zeta iota in L1, F1, V1. set (img1 := interp_set_outer_row W H pm src img0 true) in *.
  destruct (interp_set_outer_row_spec false img1 ltac:(congruence)) as (L2 & F2 & V2).
  cbv beta zeta iota in L2, F2, V2. set (img2 := interp_set_outer_row W H pm src img1 false) in *.
  destruct (interp_set_outer_col_spec true img2 ltac:(congruence)) as (L3 & F3 & V3).
  cbv beta zeta iota in L3, F3, V3. set (img3 := interp_set_outer_col W H pm src img2 true) in *.
  destruct (interp_set_outer_col_spec false img3 ltac:(congruence)) as (L4 & F4 & V4).
  cbv beta zeta iota in L4, F4, V4. set (img4 := interp_set_outer_col W H pm src img3 false) in *.
  destruct (interp_set_inner_spec img4 ltac:(congruence)) as (L5 & F5 & V5).
  cbv beta zeta iota in L5, F5, V5. set (img5 := interp_set_inner W H pm src img4) in *.
  unfold interp_base, outer, nb.
  destruct dx as [|[|dx]]; [| |lia]; (destruct dy as [|[|dy]]; [| |lia]);
    cbn [Nat.eqb]; rewrite ?andb_true_r, ?andb_false_r, ?orb_false_r, ?orb_false_l;
    destruct (Nat.eqb_spec x 0) as [Ex|Ex]; destruct (Nat.eqb_spec x (W - 1)) as [Ex'|Ex'];
    destruct (Nat.eqb_spec y 0) as [Ey|Ey]; destruct (Nat.eqb_spec y (H - 1)) as [Ey'|Ey'];
    cbn match.
  all: try (rewrite F5, F4, F3, F2, F1 by lia;
            first [px_done C1 | px_done C2 | px_done C3 | px_done C4]).
  all: try (rewrite F5, F4, F3, F2 by lia;
            first [ destruct (V1 x ltac:(lia)) as [E _]; px_done E
                  | destruct (V1 (x - 1) ltac:(lia)) as [_ E]; px_done E ]).
  all: try (rewrite F5, F4, F3 by lia;
            first [ destruct (V2 x ltac:(lia)) as [E _]; px_done E
                  | destruct (V2 (x - 1) ltac:(lia)) as [_ E]; px_done E ]).
  all: try (rewrite F5, F4 by lia;
            first [ destruct (V3 y ltac:(lia)) as [E _]; px_done E
                  | destruct (V3 (y - 1) ltac:(lia)) as [_ E]; px_done E ]).
  all: try (rewrite F5 by lia;
            first [ destruct (V4 y ltac:(lia)) as [E _]; px_done E
                  | destruct (V4 (y - 1) ltac:(lia)) as [_ E]; px_done E ]).
  all: first
    [ destruct (V5 y x ltac:(lia) ltac:(lia)) as (E & _ & _ & _); px_done E
    | destruct (V5 y (x - 1) ltac:(lia) ltac:(lia)) as (_ & E & _ & _); px_done E
    | destruct (V5 (y - 1) x ltac:(lia) ltac:(lia)) as (_ & _ & E & _); px_done E
    | destruct (V5 (y - 1) (x - 1) ltac:(lia) ltac:(lia)) as (_ & _ & _ & E); px_done E ].
Qed.
End Interp.

Lemma rd_lookup (buf : list Z) p : p < length buf -> buf !! p = Some (rd buf p).
Proof.
  intros Hp. unfold rd. destruct (lookup_lt_is_Some_2 buf p Hp) as [v ->]. done.
Qed.

Lemma rad_t8_range min_val diff p : (0 <= rad_t8 min_val diff p < 256)%Z.
Proof.
  unfold rad_t8. destruct (p <? min_val)%Z; [lia|].
  destruct (255 <? _)%Z; [lia|apply u8_range].
Qed.

Lemma agc_t8_range p : (0 <= agc_t8 p < 256)%Z.
Proof. apply u8_range. Qed.

Lemma memcpy_spec n : forall (buf : list Z) dst s,
  s + n <= dst -> dst + n <= length buf ->
  let out := memcpy buf dst s n in
  length out = length buf /\
  (forall i, i < dst \/ dst + n <= i -> out !! i = buf !! i) /\
  (forall k, k < n -> out !! (dst + k) = buf !! (s + k)).
Proof.
  induction n as [|n IH]; intros buf dst s Hs Hd; cbn zeta.
  - simpl. split; [done|]. split; [done|]. intros k Hk. lia.
  - cbn [memcpy].
    destruct (IH (<[dst := rd buf s]> buf) (S dst) (S s)) as (IHl & IHf & IHv);
      [lia|rewrite length_insert; lia|].
    rewrite length_insert in IHl.
    split; [done|]. split.
    + intros i Hi. rewrite IHf by lia. apply list_lookup_insert_ne. lia.
    + intros [|k] Hk.
      * rewrite IHf by lia. replace (dst + 0) with dst by lia.
        replace (s + 0) with s by lia.
        rewrite list_lookup_insert_eq by lia. symmetry. apply rd_lookup. lia.
      * replace (dst + S k) with (S dst + k) by lia.
        replace (s + S k) with (S s + k) by lia.
        rewrite IHv by lia. apply list_lookup_insert_ne. lia.
Qed.

Section Double.
Variables W H : nat.
Variable pm : Z.
Hypothesis Hpm : (0 <= pm < 256)%Z.
Variable src : list Z.
Variable t8 : Z -> Z.
Hypothesis Ht8 : forall v, (0 <= t8 v < 256)%Z.
Hypothesis HW : 0 < W.

Lemma double_line_spec n : forall img ptr ip,
  ip + 2 * n <= length img ->
  let r := double_line t8 pm src n img ptr ip in
  let out := r.1.1 in
  r.1.2 = ptr + n /\ r.2 = ip + 2 * n /\
  length out = length img /\
  (forall i, i < ip \/ ip + 2 * n <= i -> out !! i = img !! i) /\
  (forall k d, k < n -> d < 2 ->
     out !! (ip + 2 * k + d) = Some (Z.lxor (t8 (rd src (ptr + k))) pm)).
Proof.
  induction n as [|n IH]; intros img ptr ip Hlen; cbn zeta.
  - simpl. repeat split; try done; try lia; intros; lia.
  - cbn [double_line].
    set (v := Z.lxor (t8 (rd src ptr)) pm).
    set (img2 := store8 (store8 img ip v) (S ip) v).
    assert (Hl2 : length img2 = length img) by (unfold img2; by rewrite !store8_length).
    destruct (IH img2 (S ptr) (S (S ip))) as (IHs & IHi & IHl & IHf & IHv); [lia|].
    split; [lia|]. split; [lia|]. split; [congruence|]. split.
    + intros i Hi. rewrite IHf by lia. unfold img2. rewrite !store8_ne by lia. done.
    + intros [|k] d Hk Hd.
      * rewrite IHf by lia. unfold img2. replace (ptr + 0) with ptr by lia. fold v.
        assert (Hv : u8 v = v) by (apply u8_lxor_small; auto).
        destruct d as [|[|d]]; [| |lia].
        -- replace (ip + 2 * 0 + 0) with ip by lia.
           rewrite store8_ne by lia. rewrite store8_eq by lia. by rewrite Hv.
        -- replace (ip + 2 * 0 + 1) with (S ip) by lia.
           rewrite store8_eq by (rewrite store8_length; lia). by rewrite Hv.
      * replace (ip + 2 * S k + d) with (S (S ip) + 2 * k + d) by lia.
        replace (ptr + S k) with (S ptr + k) by lia.
        apply IHv; lia.
Qed.

Lemma double_lines_spec n : forall img y0,
  y0 + n <= H -> length img = 2 * H * (2 * W) ->
  let out := double_lines W t8 pm src n y0 img (y0 * W) (idx W 0 (2 * y0)) in
  length out = length img /\
  (forall i, i < idx W 0 (2 * y0) -> out !! i = img !! i) /\
  (forall y x dx dy, y0 <= y < y0 + n -> x < W -> dx < 2 -> dy < 2 ->
     out !! idx W (2 * x + dx) (2 * y + dy)
     = Some (Z.lxor (t8 (rd src (y * W + x))) pm)).
Proof.
  induction n as [|n IH]; intros img y0 Hy Hlen; cbn zeta.
  - simpl. split; [done|]. split; [done|]. intros; lia.
  - cbn [double_lines].
    replace ((y0 + 1) * W - y0 * W) with W by lia.
    pose proof (idx_lt_length W H (2 * W - 1) (2 * y0 + 1) ltac:(lia) ltac:(lia)) as Hb.
    destruct (double_line_spec W img (y0 * W) (idx W 0 (2 * y0)))
      as (Es & Ei & Hl & Hf & Hv); [unfold idx in *; lia|].
    destruct (double_line t8 pm src W img (y0 * W) (idx W 0 (2 * y0)))
      as [[img1 ptr1] ip1].
    cbn [fst snd] in Es, Ei, Hl, Hf, Hv. subst ptr1 ip1.
    replace (idx W 0 (2 * y0) + 2 * W - 2 * W) with (idx W 0 (2 * y0)) by lia.
    destruct (memcpy_spec (2 * W) img1 (idx W 0 (2 * y0) + 2 * W) (idx W 0 (2 * y0)))
      as (Ml & Mf & Mv); [lia|unfold idx in *; lia|].
    set (img2 := memcpy img1 _ _ _) in *.
    replace (y0 * W + W) with (S y0 * W) by lia.
    replace (idx W 0 (2 * y0) + 2 * W + 2 * W) with (idx W 0 (2 * S y0))
      by (unfold idx; lia).
    destruct (IH img2 (S y0)) as (IHl & IHf & IHv); [lia|congruence|].
    split; [congruence|]. split.
    + intros i Hi. rewrite IHf by (unfold idx in *; lia).
      rewrite Mf by lia. apply Hf. lia.
    + intros y x dx dy Hyy Hx Hdx Hdy.
      destruct (decide (y = y0)) as [->|Hne]; [|apply IHv; lia].
      rewrite IHf.
      2:{ unfold idx. destruct dy as [|[|dy]]; lia. }
      destruct dy as [|[|dy]]; [| |lia].
      * rewrite Mf by (unfold idx; lia).
        eapply lookup_cong; [| |apply (Hv x dx Hx Hdx)]; [unfold idx; lia|done].
      * eapply lookup_cong; [| |apply (Mv (2 * x + dx))]; [unfold idx; lia| |lia].
        eapply lookup_cong; [| |apply (Hv x dx Hx Hdx)]; [unfold idx; lia|done].
Qed.
End Double.

Lemma u32_small v : (0 <= v < 2 ^ 32)%Z -> u32 v = v.
Proof. intros Hv. unfold u32. by apply Z.mod_small. Qed.

Lemma rad_t8_law min_val max_val v :
  (0 <= min_val <= max_val)%Z -> (max_val < 65536)%Z -> (0 <= v < 65536)%Z ->
  rad_t8 min_val (rad_diff min_val max_val) v = rad_claim min_val max_val v.
Proof.
  intros Hmin Hmax Hv. unfold rad_t8, rad_claim, rad_diff.
  destruct (Z.ltb_spec v min_val) as [Hlt|Hge]; [done|].
  rewrite (u32_small (max_val - min_val)) by lia.
  rewrite (u32_small (v - min_val)) by lia.
  rewrite (u32_small ((v - min_val) * 255)) by lia.
  assert (Hd : (if (max_val - min_val =? 0)%Z then 1%Z else (max_val - min_val)%Z)
               = Z.max 1 (max_val - min_val)).
  { destruct (Z.eqb_spec (max_val - min_val) 0); lia. }
  rewrite Hd.
  set (q := ((v - min_val) * 255 / Z.max 1 (max_val - min_val))%Z).
  assert (Hq : (0 <= q)%Z) by (apply Z.div_pos; lia).
  destruct (Z.ltb_spec 255 q) as [Hbig|Hsmall]; [lia|].
  rewrite u8_small by lia. lia.
Qed.

Lemma linearize_loop_spec min_val diff n : forall (buf : list Z) p,
  p + n <= length buf ->
  let out := linearize_loop min_val diff n buf p in
  length out = length buf /\
  (forall i, i < p \/ p + n <= i -> out !! i = buf !! i) /\
  (forall i, p <= i < p + n -> out !! i = Some (rad_t8 min_val diff (rd buf i))).
Proof.
  induction n as [|n IH]; intros buf p Hlen; cbn zeta.
  - simpl. split; [done|]. split; [done|]. intros; lia.
  - cbn [linearize_loop].
    set (buf2 := <[p := rad_t8 min_val diff (rd buf p)]> buf).
    assert (Hl2 : length buf2 = length buf) by apply length_insert.
    destruct (IH buf2 (S p)) as (IHl & IHf & IHv); [lia|].
    split; [congruence|]. split.
    + intros i Hi. rewrite IHf by lia. apply list_lookup_insert_ne. lia.
    + intros i Hi. destruct (decide (i = p)) as [->|Hne].
      * rewrite IHf by lia. apply list_lookup_insert_eq. lia.
      * rewrite IHv by lia. do 2 f_equal. unfold rd, buf2.
        by rewrite list_lookup_insert_ne by lia.
Qed.

Lemma render_interp_rad_data_buffer W H pm lep img :
  0 < W * H -> length (lep_bufferP lep) = W * H ->
  lep_bufferP (render_interp_rad_data W H pm lep img).1
  = map (rad_t8 (lep_min_val lep) (rad_diff (lep_min_val lep) (lep_max_val lep)))
        (lep_bufferP lep).
Proof.
  intros Hpos Hlen. unfold render_interp_rad_data. cbn [fst set_lep_bufferP lep_bufferP].
  set (f := rad_t8 _ _). set (src := lep_bufferP lep) in *.
  destruct (linearize_loop_spec (lep_min_val lep)
              (rad_diff (lep_min_val lep) (lep_max_val lep)) (W * H - 1)
              (<[0 := f (rd src 0)]> src) 1) as (Hl & Hf & Hv).
  { rewrite length_insert. lia. }
  fold f in Hl, Hf, Hv. rewrite length_insert in Hl.
  apply list_eq. intros i. rewrite list_lookup_fmap.
  destruct (decide (i < W * H)) as [Hi|Hi].
  - rewrite (rd_lookup src i) by lia. cbn [fmap option_fmap option_map].
    destruct i as [|i].
    + rewrite Hf by lia. apply list_lookup_insert_eq. lia.
    + rewrite Hv by lia. do 2 f_equal. unfold rd.
      by rewrite list_lookup_insert_ne by lia.
  - rewrite !lookup_ge_None_2; [done|lia|lia].
Qed.

Lemma idx_decompose W H i :
  i < 2 * H * (2 * W) ->
  exists x dx y dy, x < W /\ dx < 2 /\ y < H /\ dy < 2 /\ i = idx W (2 * x + dx) (2 * y + dy).
Proof.
  intros Hi. assert (HW : 2 * W <> 0) by lia.
  pose proof (Nat.div_mod_eq i (2 * W)) as E.
  pose proof (Nat.mod_upper_bound i (2 * W) HW) as HX.
  assert (HY : i / (2 * W) < 2 * H) by (apply Nat.Div0.div_lt_upper_bound; lia).
  exists (i mod (2 * W) / 2), (i mod (2 * W) mod 2), (i / (2 * W) / 2), (i / (2 * W) mod 2).
  set (X := i mod (2 * W)) in *. set (Y := i / (2 * W)) in *.
  pose proof (Nat.div_mod_eq X 2). pose proof (Nat.div_mod_eq Y 2).
  pose proof (Nat.mod_upper_bound X 2). pose proof (Nat.mod_upper_bound Y 2).
  repeat split; try lia.
  rewrite E. unfold idx. replace (2 * (X / 2) + X mod 2) with X by lia.
  replace (2 * (Y / 2) + Y mod 2) with Y by lia. lia.
Qed.

Lemma px_8bit W (src : list Z) x y :
  Forall (fun v => (0 <= v < 256)%Z) src -> px W src x y = src_px W src x y.
Proof.
  intros Hs. unfold px, src_px, rd. apply u8_small.
  destruct (src !! (y * W + x)) as [v|] eqn:E; cbn [default]; [|lia].
  by apply (Forall_lookup_1 _ _ _ _ Hs E).
Qed.

Lemma half_last n : 0 < n -> (2 * n - 1) / 2 = n - 1 /\ (2 * n - 1) mod 2 = 1.
Proof.
  intros Hn. pose proof (Nat.div_mod_eq (2 * n - 1) 2).
  pose proof (Nat.mod_upper_bound (2 * n - 1) 2). split; lia.
Qed.

Lemma outer_inner n X : 0 < X < 2 * n - 1 -> outer n (X / 2) (X mod 2) = false.
Proof.
  intros HX. unfold outer.
  pose proof (Nat.div_mod_eq X 2). pose proof (Nat.mod_upper_bound X 2).
  destruct (Nat.eqb_spec (X / 2) 0), (Nat.eqb_spec (X mod 2) 0),
    (Nat.eqb_spec (X / 2) (n - 1)), (Nat.eqb_spec (X mod 2) 1); cbn; lia.
Qed.

Lemma outer_last n : 0 < n -> outer n ((2 * n - 1) / 2) ((2 * n - 1) mod 2) = true.
Proof.
  intros Hn. destruct (half_last n Hn) as [-> ->]. unfold outer.
  rewrite Nat.eqb_refl. cbn. by rewrite orb_true_r.
Qed.

Lemma render_interp_agc_at W H pm src img X Y :
  0 < W -> 0 < H -> (0 <= pm < 256)%Z -> length img = 2 * H * (2 * W) ->
  X < 2 * W -> Y < 2 * H ->
  render_interp_agc_data W H pm src img !! idx W X Y
  = Some (Z.lxor (interp_base W H src (X / 2) (X mod 2) (Y / 2) (Y mod 2)) pm).
Proof.
  intros HW HH Hpm Hlen HX HY.
  pose proof (Nat.div_mod_eq X 2). pose proof (Nat.mod_upper_bound X 2).
  pose proof (Nat.div_mod_eq Y 2). pose proof (Nat.mod_upper_bound Y 2).
  eapply lookup_cong; [| |apply (render_interp_agc_pixel W H pm Hpm src HW HH img
                                   (X / 2) (X mod 2) (Y / 2) (Y mod 2) Hlen)];
    [apply idx_cong; lia|done|lia..].
Qed.

(** C1. For a source frame of 8-bit values the interpolating doubler writes,
    at output pixel (X, Y): the source pixel itself at the four corners; on
    the top and bottom rows and the left and right columns the quotient
    (3*owner + neighbour) / 4 of the owning source pixel (X/2, Y/2) and its
    neighbour along the edge; everywhere else the quotient
    (5*owner + n1 + n2 + n3) / 8 of the owner and its horizontal, vertical and
    diagonal neighbours.  Each value is stored XORed with the palette
    modifier [pm]. *)
Theorem interp_doubler_corner_edge_interior (W H : nat) (pm : Z) (src img : list Z) :
  0 < W -> 0 < H -> (0 <= pm < 256)%Z ->
  length src = W * H -> Forall (fun v => (0 <= v < 256)%Z) src ->
  length img = 2 * H * (2 * W) ->
  let out := render_interp_agc_data W H pm src img in
  let s := src_px W src in
  let o X Y := out !! idx W X Y in
  (o 0 0 = Some (Z.lxor (s 0 0) pm) /\
   o (2 * W - 1) 0 = Some (Z.lxor (s (W - 1) 0) pm) /\
   o 0 (2 * H - 1) = Some (Z.lxor (s 0 (H - 1)) pm) /\
   o (2 * W - 1) (2 * H - 1) = Some (Z.lxor (s (W - 1) (H - 1)) pm)) /\
  (forall X, 0 < X < 2 * W - 1 ->
     o X 0 = Some (Z.lxor ((3 * s (X / 2) 0 + s (nb (X / 2) (X mod 2)) 0) / 4) pm) /\
     o X (2 * H - 1)
       = Some (Z.lxor ((3 * s (X / 2) (H - 1) + s (nb (X / 2) (X mod 2)) (H - 1)) / 4) pm)) /\
  (forall Y, 0 < Y < 2 * H - 1 ->
     o 0 Y = Some (Z.lxor ((3 * s 0 (Y / 2) + s 0 (nb (Y / 2) (Y mod 2))) / 4) pm) /\
     o (2 * W - 1) Y
       = Some (Z.lxor ((3 * s (W - 1) (Y / 2) + s (W - 1) (nb (Y / 2) (Y mod 2))) / 4) pm)) /\
  (forall X Y, 0 < X < 2 * W - 1 -> 0 < Y < 2 * H - 1 ->
     o X Y = Some (Z.lxor ((5 * s (X / 2) (Y / 2)
                            + s (nb (X / 2) (X mod 2)) (Y / 2)
                            + s (X / 2) (nb (Y / 2) (Y mod 2))
                            + s (nb (X / 2) (X mod 2)) (nb (Y / 2) (Y mod 2))) / 8) pm)).
Proof.
  intros HW HH Hpm Hsrc H8 Hlen out s o.
  assert (Hat : forall X Y, X < 2 * W -> Y < 2 * H ->
            o X Y = Some (Z.lxor (interp_base W H src (X / 2) (X mod 2)
                                              (Y / 2) (Y mod 2)) pm))
    by (intros; by apply render_interp_agc_at).
  destruct (half_last W HW) as [EW1 EW2]. destruct (half_last H HH) as [EH1 EH2].
  assert (Hf : forall n, outer n (0 / 2) (0 mod 2) = true) by done.
  pose proof (outer_last W HW) as HlW. pose proof (outer_last H HH) as HlH.
  unfold s. repeat split; intros.
  all: rewrite Hat by lia; unfold interp_base;
    rewrite ?Hf, ?HlW, ?HlH, ?outer_inner by lia;
    rewrite ?EW1, ?EH1, ?(px_8bit W src) by done; reflexivity.
Qed.

Lemma double_lines_pixel W H pm (src : list Z) t8 img x dx y dy :
  0 < W -> (0 <= pm < 256)%Z -> (forall v, (0 <= t8 v < 256)%Z) ->
  length img = 2 * H * (2 * W) ->
  x < W -> y < H -> dx < 2 -> dy < 2 ->
  double_lines W t8 pm src H 0 img 0 0 !! idx W (2 * x + dx) (2 * y + dy)
  = Some (Z.lxor (t8 (rd src (y * W + x))) pm).
Proof.
  intros HW Hpm Ht8 Hlen Hx Hy Hdx Hdy.
  destruct (double_lines_spec W H pm Hpm src t8 Ht8 HW H img 0) as (_ & _ & Hv);
    [lia|done|].
  apply Hv; lia.
Qed.

(** C2. With recorded minimum [min] and maximum [max] (min <= max) the
    radiometric scaling sends a sample v to 0 when v < min and otherwise to
    min(255, (v - min) * 255 / (max - min)), the divisor being 1 when
    max = min: the doubling renderer writes that value (XORed with the
    palette modifier) into the 2x2 block of the sample, and the interpolating
    renderer rewrites the frame with it before interpolating.  For min = 100
    and max = 250 a sample of 175 gives 127, samples below 100 give 0 and
    samples from 250 up give 255. *)
Theorem radiometric_scaling_law (W H : nat) (pm : Z) (lep : lep_buffer_t) (img : list Z) :
  0 < W -> 0 < H -> (0 <= pm < 256)%Z ->
  (0 <= lep_min_val lep <= lep_max_val lep)%Z -> (lep_max_val lep < 65536)%Z ->
  length (lep_bufferP lep) = W * H ->
  Forall (fun v => (0 <= v < 65536)%Z) (lep_bufferP lep) ->
  length img = 2 * H * (2 * W) ->
  let scale := rad_claim (lep_min_val lep) (lep_max_val lep) in
  (forall x y dx dy, x < W -> y < H -> dx < 2 -> dy < 2 ->
     render_double_rad_data W H pm lep img !! idx W (2 * x + dx) (2 * y + dy)
     = Some (Z.lxor (scale (src_px W (lep_bufferP lep) x y)) pm)) /\
  lep_bufferP (render_interp_rad_data W H pm lep img).1 = map scale (lep_bufferP lep) /\
  (render_interp_rad_data W H pm lep img).2
  = render_interp_agc_data W H pm (map scale (lep_bufferP lep)) img /\
  rad_t8 100 (rad_diff 100 250) 175 = 127%Z /\
  (forall v, (0 <= v < 100)%Z -> rad_t8 100 (rad_diff 100 250) v = 0%Z) /\
  (forall v, (250 <= v < 65536)%Z -> rad_t8 100 (rad_diff 100 250) v = 255%Z).
Proof.
  intros HW HH Hpm Hmin Hmax Hsrc H16 Hlen scale.
  assert (Hpx : forall p, (0 <= rd (lep_bufferP lep) p < 65536)%Z).
  { intros p. unfold rd. destruct (lep_bufferP lep !! p) as [v|] eqn:E; cbn [default]; [|lia].
    by apply (Forall_lookup_1 _ _ _ _ H16 E). }
  assert (Hmap : map (rad_t8 (lep_min_val lep) (rad_diff (lep_min_val lep) (lep_max_val lep)))
                     (lep_bufferP lep) = map scale (lep_bufferP lep)).
  { apply map_ext_in. intros v Hv. apply rad_t8_law; [done|done|].
    rewrite Forall_forall in H16. apply H16. by apply list_elem_of_In. }
  assert (Hbuf : lep_bufferP (render_interp_rad_data W H pm lep img).1
                 = map scale (lep_bufferP lep)).
  { rewrite <- Hmap. apply render_interp_rad_data_buffer; [nia|done]. }
  split; [|split; [exact Hbuf|split; [|split; [|split]]]].
  - intros x y dx dy Hx Hy Hdx Hdy. unfold render_double_rad_data.
    rewrite double_lines_pixel by auto using rad_t8_range.
    unfold scale, src_px. by rewrite rad_t8_law.
  - rewrite <- Hbuf. reflexivity.
  - reflexivity.
  - intros v Hv. rewrite rad_t8_law by lia. unfold rad_claim.
    destruct (Z.ltb_spec v 100); [done|lia].
  - intros v Hv. rewrite rad_t8_law by lia. unfold rad_claim.
    destruct (Z.ltb_spec v 100); [lia|].
    change (Z.max 1 (250 - 100))%Z with 150%Z.
    assert (255 <= (v - 100) * 255 / 150)%Z by (apply Z.div_le_lower_bound; lia). lia.
Qed.

(** C3. Whatever the strategy (interpolated or doubled, AGC or
    radiometric), rendering one frame with the black-hot option set and with
    it clear gives complementary rasters: a[i] = 0xFF xor b[i] at every pixel
    index i. *)
Theorem palette_inversion_complement (W H : nat) (lep : lep_buffer_t)
        (img_a img_b : list Z) (g_a g_b : gui_state_t) :
  0 < W -> 0 < H ->
  length img_a = 2 * H * (2 * W) -> length img_b = 2 * H * (2 * W) ->
  display_interp_enable g_a = display_interp_enable g_b ->
  agc_enabled g_a = agc_enabled g_b ->
  black_hot_palette g_a = true -> black_hot_palette g_b = false ->
  forall i, i < 2 * H * (2 * W) ->
    exists a b,
      (render_lep_data W H lep img_a g_a).2 !! i = Some a /\
      (render_lep_data W H lep img_b g_b).2 !! i = Some b /\
      a = Z.lxor 255 b.
Proof.
  intros HW HH Hla Hlb Hint Hagc Ha Hb i Hi.
  destruct (idx_decompose W H i Hi) as (x & dx & y & dy & Hx & Hdx & Hy & Hdy & ->).
  unfold render_lep_data. rewrite Ha, Hb, Hint, Hagc.
  assert (H255 : (0 <= 255 < 256)%Z) by lia. assert (H0 : (0 <= 0 < 256)%Z) by lia.
  destruct (display_interp_enable g_b), (agc_enabled g_b); cbn [snd].
  - eexists _, _. rewrite !render_interp_agc_pixel by done.
    split; [done|]. split; [done|]. by rewrite Z.lxor_0_r, Z.lxor_comm.
  - unfold render_interp_rad_data. cbn [snd].
    eexists _, _. rewrite !render_interp_agc_pixel by done.
    split; [done|]. split; [done|]. by rewrite Z.lxor_0_r, Z.lxor_comm.
  - unfold render_double_agc_data.
    eexists _, _. rewrite !double_lines_pixel by auto using agc_t8_range.
    split; [done|]. split; [done|]. by rewrite Z.lxor_0_r, Z.lxor_comm.
  - unfold render_double_rad_data.
    eexists _, _. rewrite !double_lines_pixel by auto using rad_t8_range.
    split; [done|]. split; [done|]. by rewrite Z.lxor_0_r, Z.lxor_comm.
Qed.

(** *** The laws at small frames *)

Lemma interp_doubler_witness :
  let out := render_interp_agc_data 2 2 0 [100; 200; 150; 250]%Z (replicate 16 0%Z) in
  out !! idx 2 0 0 = Some 100%Z /\ out !! idx 2 1 0 = Some 125%Z /\
  out !! idx 2 2 0 = Some 175%Z /\ out !! idx 2 1 1 = Some 137%Z.
Proof.
  destruct (interp_doubler_corner_edge_interior 2 2 0 [100; 200; 150; 250]%Z
              (replicate 16 0%Z) ltac:(lia) ltac:(lia) ltac:(lia) eq_refl
              ltac:(repeat constructor; lia) eq_refl)
    as ((Hc & _) & Hrow & _ & Hin).
  split; [exact Hc|].
  split; [exact (proj1 (Hrow 1 ltac:(lia)))|].
  split; [exact (proj1 (Hrow 2 ltac:(lia)))|].
  exact (Hin 1 1 ltac:(lia) ltac:(lia)).
Defined.

Lemma radiometric_scaling_witness :
  let lep := {| telem_valid := true; lep_min_val := 100; lep_min_x := 1; lep_min_y := 0;
                lep_max_val := 250; lep_max_x := 0; lep_max_y := 0;
                lep_bufferP := [175; 99]%Z; lep_telemP := [] |} in
  (0 <= lep_min_val lep <= lep_max_val lep)%Z /\
  render_double_rad_data 2 1 0 lep (replicate 8 0%Z) !! idx 2 0 0 = Some 127%Z /\
  lep_bufferP (render_interp_rad_data 2 1 0 lep (replicate 8 0%Z)).1 = [127; 0]%Z.
Proof.
  intros lep. split; [cbn; lia|].
  destruct (radiometric_scaling_law 2 1 0 lep (replicate 8 0%Z)
              ltac:(lia) ltac:(lia) ltac:(lia) ltac:(cbn; lia) ltac:(cbn; lia) eq_refl
              ltac:(repeat constructor; lia) eq_refl)
    as (Hd & Hb & _).
  split; [exact (Hd 0 0 0 0 ltac:(lia) ltac:(lia) ltac:(lia) ltac:(lia))|exact Hb].
Defined.

Lemma palette_inversion_witness :
  let lep := {| telem_valid := true; lep_min_val := 0; lep_min_x := 0; lep_min_y := 0;
                lep_max_val := 255; lep_max_x := 0; lep_max_y := 0;
                lep_bufferP := [7]%Z; lep_telemP := [] |} in
  let g hot := {| agc_enabled := true; black_hot_palette := hot;
                  display_interp_enable := true; is_radiometric := false;
                  min_max_enable := false; spotmeter_enable := false;
                  temp_unit_C := false; rad_high_res := false |} in
  exists a b,
    (render_lep_data 1 1 lep (replicate 4 0%Z) (g true)).2 !! 0 = Some a /\
    (render_lep_data 1 1 lep (replicate 4 0%Z) (g false)).2 !! 0 = Some b /\
    a = Z.lxor 255 b.
Proof.
  intros lep g.
  exact (palette_inversion_complement 1 1 lep (replicate 4 0%Z) (replicate 4 0%Z)
           (g true) (g false) ltac:(lia) ltac:(lia) eq_refl eq_refl eq_refl eq_refl
           eq_refl eq_refl 0 ltac:(lia)).
Defined.

End RenderProofs.

(** ** The acquisition task *)
Module LepProofs.
Import Lep LepSpec.

Section LepFacts.
Variables LIMIT RETRY : Z.

Lemma lep_task_run_app oks1 oks2 s :
  lep_task_run LIMIT RETRY (oks1 ++ oks2) s
  = let r1 := lep_task_run LIMIT RETRY oks1 s in
    let r2 := lep_task_run LIMIT RETRY oks2 r1.1 in
    (r2.1, r1.2 ++ r2.2).
Proof.
  revert s. induction oks1 as [|ok oks1 IH]; intros s; cbn [lep_task_run app].
  - cbn. by destruct (lep_task_run LIMIT RETRY oks2 s).
  - destruct (lep_task_pass LIMIT RETRY ok s) as [s1 c1]. rewrite IH. cbn zeta.
    destruct (lep_task_run LIMIT RETRY oks1 s1) as [s2 c2]. cbn [fst snd].
    destruct (lep_task_run LIMIT RETRY oks2 s2) as [s3 c3]. cbn [fst snd].
    by rewrite app_assoc.
Qed.

Lemma lep_misses_closed_form (s : lep_vars) (m : nat) :
  task_state s = STATE_RUN -> vsync_count s = 0%Z -> sync_fail_count s = 0%Z ->
  (0 <= LIMIT)%Z -> m < 36 * (Z.to_nat LIMIT + 1) ->
  lep_task_run LIMIT RETRY (replicate m false) s
  = (lep_after_misses s m, replicate (m / 36) (vTaskDelay 185)).
Proof.
  intros Hst Hv Hf HL. induction m as [|m IH]; intros Hm.
  - cbn. destruct s; cbn in *; subst. reflexivity.
  - replace (S m) with (m + 1) by lia. rewrite replicate_add, lep_task_run_app.
    rewrite IH by lia. cbn [fst snd replicate lep_task_run].
    pose proof (Nat.div_mod_eq m 36). pose proof (Nat.mod_upper_bound m 36).
    pose proof (Nat.div_mod_eq (m + 1) 36). pose proof (Nat.mod_upper_bound (m + 1) 36).
    assert (Hq : (m / 36 <= Z.to_nat LIMIT)) by lia.
    unfold lep_after_misses.
    replace (Z.of_nat ((m + 1) mod 36))
      with (if (Z.of_nat (m mod 36) + 1 =? 36)%Z then 0%Z else (Z.of_nat (m mod 36) + 1)%Z)
      by (destruct (Z.eqb_spec (Z.of_nat (m mod 36) + 1) 36); lia).
    assert (Hd : (m + 1) / 36 = if (Z.of_nat (m mod 36) + 1 =? 36)%Z then m / 36 + 1 else m / 36)
      by (destruct (Z.eqb_spec (Z.of_nat (m mod 36) + 1) 36); lia).
    assert (HL' : (Z.of_nat (m mod 36) + 1 = 36)%Z -> (Z.of_nat (m / 36) =? LIMIT)%Z = false)
      by (intros; apply Z.eqb_neq; lia).
    rewrite Hd. clear Hd.
    revert HL'. generalize (Z.of_nat (m mod 36)). intros v HL'.
    unfold lep_task_pass, lep_state_run.
    cbn [task_state vsync_count sync_fail_count reset_fail_count vid_buf_index].
    change (STATE_RUN =? STATE_INIT)%Z with false. change (STATE_RUN =? STATE_RUN)%Z with true.
    cbv iota.
    destruct (Z.eqb_spec (v + 1) 36) as [E36|E36].
    + rewrite (HL' E36). cbn [fst snd]. rewrite replicate_add. cbn [replicate].
      f_equal. f_equal. lia.
    + cbn [fst snd]. by rewrite !app_nil_r.
Qed.
End LepFacts.

Section LepClaims.
Variables LIMIT RETRY : Z.

Lemma last_miss_index n : (36 * (n + 1) - 1) / 36 = n /\ (36 * (n + 1) - 1) mod 36 = 35.
Proof.
  pose proof (Nat.div_mod_eq (36 * (n + 1) - 1) 36).
  pose proof (Nat.mod_upper_bound (36 * (n + 1) - 1) 36). lia.
Qed.

(** C4, amended. In the Run state a miss short of the 36th only increments
    the miss counter.  The 36th consecutive miss zeroes it and pauses 185 ms
    once; if the failure counter is not yet at the limit it is incremented;
    if it already equals the limit it is cleared and a synchronisation fault
    is reported, the state becoming ReInit when the reset counter is 0 and
    Error with the retry timer loaded otherwise.  A successful attempt zeroes
    the miss, failure and reset counters.  Counted from zeroed counters, the
    fault is therefore reported at miss number 36 * (limit + 1), after
    limit + 1 pauses, and not before.  A successful ReInit enters Run with
    the reset counter at 1. *)
Theorem run_state_miss_escalation (s : lep_vars) :
  task_state s = STATE_RUN ->
  let miss := lep_task_pass LIMIT RETRY false s in
  let hit := lep_task_pass LIMIT RETRY true s in
  (vsync_count s + 1 <> 36 ->
     miss = ({| task_state := STATE_RUN; vid_buf_index := vid_buf_index s;
                vsync_count := vsync_count s + 1; sync_fail_count := sync_fail_count s;
                reset_fail_count := reset_fail_count s |}, []))%Z /\
  (vsync_count s + 1 = 36 -> sync_fail_count s <> LIMIT ->
     miss = ({| task_state := STATE_RUN; vid_buf_index := vid_buf_index s;
                vsync_count := 0; sync_fail_count := sync_fail_count s + 1;
                reset_fail_count := reset_fail_count s |}, [vTaskDelay 185]))%Z /\
  (vsync_count s + 1 = 36 -> sync_fail_count s = LIMIT -> reset_fail_count s = 0 ->
     miss = ({| task_state := STATE_RE_INIT; vid_buf_index := vid_buf_index s;
                vsync_count := 0; sync_fail_count := 0; reset_fail_count := 0 |},
             [vTaskDelay 185; ctrl_set_fault_type CTRL_FAULT_LEP_SYNC]))%Z /\
  (vsync_count s + 1 = 36 -> sync_fail_count s = LIMIT -> reset_fail_count s <> 0 ->
     miss = ({| task_state := STATE_ERROR; vid_buf_index := vid_buf_index s;
                vsync_count := 0; sync_fail_count := 0; reset_fail_count := RETRY |},
             [vTaskDelay 185; ctrl_set_fault_type CTRL_FAULT_LEP_SYNC]))%Z /\
  (task_state hit.1 = STATE_RUN /\ vsync_count hit.1 = 0 /\
   sync_fail_count hit.1 = 0 /\ reset_fail_count hit.1 = 0)%Z /\
  (vsync_count s = 0%Z -> sync_fail_count s = 0%Z -> (0 <= LIMIT)%Z ->
     (forall m, m < 36 * (Z.to_nat LIMIT + 1) ->
        lep_task_run LIMIT RETRY (replicate m false) s
        = (lep_after_misses s m, replicate (m / 36) (vTaskDelay 185))) /\
     lep_task_run LIMIT RETRY (replicate (36 * (Z.to_nat LIMIT + 1)) false) s
     = ({| task_state := if (reset_fail_count s =? 0)%Z then STATE_RE_INIT else STATE_ERROR;
           vid_buf_index := vid_buf_index s;
           vsync_count := 0%Z; sync_fail_count := 0%Z;
           reset_fail_count := if (reset_fail_count s =? 0)%Z then 0%Z else RETRY |},
        replicate (Z.to_nat LIMIT + 1) (vTaskDelay 185)
          ++ [ctrl_set_fault_type CTRL_FAULT_LEP_SYNC])) /\
  (forall s', task_state s' = STATE_RE_INIT ->
     task_state (lep_task_pass LIMIT RETRY true s').1 = STATE_RUN /\
     reset_fail_count (lep_task_pass LIMIT RETRY true s').1 = 1%Z).
Proof.
  intros Hst miss hit.
  assert (Hmiss : miss = lep_state_run LIMIT RETRY false s).
  { unfold miss, lep_task_pass. rewrite Hst. reflexivity. }
  assert (Hhit : hit = lep_state_run LIMIT RETRY true s).
  { unfold hit, lep_task_pass. rewrite Hst. reflexivity. }
  rewrite Hmiss, Hhit. clear Hmiss Hhit miss hit.
  split; [|split; [|split; [|split; [|split; [|split]]]]].
  - intros Hne. unfold lep_state_run. rewrite (proj2 (Z.eqb_neq _ _) Hne).
    by rewrite Hst.
  - intros H36 Hnl. unfold lep_state_run.
    rewrite (proj2 (Z.eqb_eq _ _) H36), (proj2 (Z.eqb_neq _ _) Hnl). by rewrite Hst.
  - intros H36 Hl Hr. unfold lep_state_run.
    rewrite (proj2 (Z.eqb_eq _ _) H36), (proj2 (Z.eqb_eq _ _) Hl),
      (proj2 (Z.eqb_eq _ _) Hr). by rewrite Hr.
  - intros H36 Hl Hr. unfold lep_state_run.
    by rewrite (proj2 (Z.eqb_eq _ _) H36), (proj2 (Z.eqb_eq _ _) Hl),
      (proj2 (Z.eqb_neq _ _) Hr).
  - unfold lep_state_run. destruct (vid_buf_index s =? 0)%Z; cbn; by rewrite Hst.
  - intros Hv Hf HL. split.
    + intros m Hm. by apply lep_misses_closed_form.
    + destruct (last_miss_index (Z.to_nat LIMIT)) as [Ed Em].
      replace (36 * (Z.to_nat LIMIT + 1)) with ((36 * (Z.to_nat LIMIT + 1) - 1) + 1) at 1 by lia.
      rewrite replicate_add, lep_task_run_app.
      rewrite lep_misses_closed_form by (done || lia).
      cbn [fst snd replicate lep_task_run]. rewrite Ed.
      unfold lep_after_misses. rewrite Em, Ed.
      unfold lep_task_pass, lep_state_run.
      cbn [task_state vsync_count sync_fail_count reset_fail_count vid_buf_index].
      change (STATE_RUN =? STATE_INIT)%Z with false.
      change (STATE_RUN =? STATE_RUN)%Z with true.
      change (Z.of_nat 35 + 1 =? 36)%Z with true. cbv iota.
      rewrite (proj2 (Z.eqb_eq (Z.of_nat (Z.to_nat LIMIT)) LIMIT)) by lia.
      rewrite replicate_add. cbn [replicate].
      destruct (reset_fail_count s =? 0)%Z eqn:Er; cbn [fst snd app].
      * apply Z.eqb_eq in Er. rewrite Er. by rewrite <- !app_assoc.
      * by rewrite <- !app_assoc.
  - intros s' Hs'. unfold lep_task_pass. rewrite Hs'. split; reflexivity.
Qed.
End LepClaims.

(** The escalation with a limit of 10 and a retry time of 60. *)
Lemma run_state_miss_escalation_witness :
  let s := {| task_state := STATE_RUN; vid_buf_index := 0; vsync_count := 0;
              sync_fail_count := 0; reset_fail_count := 0 |} in
  task_state s = STATE_RUN /\ vsync_count s = 0%Z /\ sync_fail_count s = 0%Z /\
  (0 <= 10)%Z /\
  lep_task_run 10 60 (replicate 396 false) s
  = ({| task_state := STATE_RE_INIT; vid_buf_index := 0; vsync_count := 0;
        sync_fail_count := 0; reset_fail_count := 0 |},
     replicate 11 (vTaskDelay 185) ++ [ctrl_set_fault_type CTRL_FAULT_LEP_SYNC]).
Proof.
  intros s. split; [reflexivity|]. split; [reflexivity|]. split; [reflexivity|].
  split; [lia|].
  destruct (run_state_miss_escalation 10 60 s eq_refl) as (_ & _ & _ & _ & _ & Hrun & _).
  destruct (Hrun eq_refl eq_refl ltac:(lia)) as [_ Hfull]. exact Hfull.
Defined.

(** With a limit of 10: the pause that takes the failure counter from 9 to 10
    reports no fault and clears nothing; and after a reset followed by one
    good frame, the next escalation resets again instead of going to Error. *)
Lemma reaching_limit_reports_nothing :
  let s := {| task_state := STATE_RUN; vid_buf_index := 0; vsync_count := 35;
              sync_fail_count := 9; reset_fail_count := 0 |} in
  let r := lep_task_pass 10 60 false s in
  (sync_fail_count r.1 = 10%Z /\ task_state r.1 = STATE_RUN /\ r.2 = [vTaskDelay 185]) /\
  let after_reset := lep_task_pass 10 60 true
        {| task_state := STATE_RE_INIT; vid_buf_index := 0; vsync_count := 0;
           sync_fail_count := 0; reset_fail_count := 0 |} in
  let r2 := lep_task_run 10 60 (true :: replicate 396 false) after_reset.1 in
  (In (gpio_set_level_reset 1) after_reset.2 /\ task_state after_reset.1 = STATE_RUN /\
   reset_fail_count after_reset.1 = 1%Z /\
   task_state r2.1 = STATE_RE_INIT).
Proof.
  vm_compute. repeat split; auto.
Qed.

End LepProofs.

(** ** The video task *)
Module VidProofs.
Import Render RenderSpec Ps Vid VidSpec.

(** *** The parameter session *)

Ltac eval_notifications :=
  repeat match goal with
         | |- context [Notification ?a ?b] =>
             let v := eval vm_compute in (Notification a b) in
             change (Notification a b) with v
         end; cbv iota.

Ltac split_ifs :=
  repeat match goal with |- context [if ?c then _ else _] => destruct c end.

Lemma pending_step e now s pend :
  notify_parm_val_change s = false /\ notify_parm_sel_change s = false /\
  (0 <= cur_parm_index (parm s) < NUM_PARMS)%Z /\
  (pend = true -> cur_parm_index (parm s) = 0%Z /\ parm_entry_timeout (parm s) <> 0%Z) /\
  (pend = false -> cur_parm_index (parm s) = 0%Z -> parm_entry_timeout (parm s) = 0%Z) ->
  let s' := parm_step (parm_event_bits e) now s in
  let pend' := default_edit_pending [(e, now)] s pend in
  notify_parm_val_change s' = false /\ notify_parm_sel_change s' = false /\
  (0 <= cur_parm_index (parm s') < NUM_PARMS)%Z /\
  (pend' = true -> cur_parm_index (parm s') = 0%Z /\ parm_entry_timeout (parm s') <> 0%Z) /\
  (pend' = false -> cur_parm_index (parm s') = 0%Z -> parm_entry_timeout (parm s') = 0%Z).
Proof.
  intros (Hv & Hsel & Hidx & Hp & Hq).
  destruct s as [n1 n2 nv ns g [idx vmax cur prev tmo ptime] q b cl].
  cbn [notify_parm_val_change notify_parm_sel_change parm cur_parm_index
       parm_entry_timeout] in *.
  subst nv ns. unfold NUM_PARMS in *.
  cbn [default_edit_pending fst snd].
  destruct e; unfold parm_step, _vid_handle_notifications, _vid_eval_parm_update,
    timeout_fires;
    cbn [parm_event_bits notify_parm_val_change notify_parm_sel_change
         set_notify parm cur_parm_index parm_entry_timeout prev_time];
    eval_notifications.
  - (* short-press *)
    assert (Hpend : (pend || (idx =? 0)%Z = true -> idx = 0%Z)).
    { destruct pend; cbn [orb]; [intros _; by apply Hp|apply Z.eqb_eq]. }
    assert (Hnot : (pend || (idx =? 0)%Z = false -> idx <> 0%Z)).
    { destruct pend; cbn [orb]; [discriminate|apply Z.eqb_neq]. }
    split_ifs; cbn; repeat split; auto; try lia; try discriminate;
      intros; exfalso; by apply Hnot.
  - (* long-press *)
    unfold parm_store_change.
    destruct (Z.eqb_spec (idx + 1) NUM_PARMS) as [E3|E3]; unfold NUM_PARMS in E3;
      split_ifs; cbn; repeat split; auto; intros; try discriminate; lia.
  - (* timer poll *)
    cbn [parm cur_parm_index parm_entry_timeout prev_time].
    destruct (Z.eqb_spec tmo 0) as [E0|E0]; cbn [negb andb].
    + rewrite andb_true_r. cbn. repeat split; auto; try lia; by apply Hp.
    + destruct (tmo <=? now ÷ 1000 - ptime)%Z; cbn [negb andb].
      * rewrite andb_false_r. unfold parm_store_change.
        split_ifs; cbn; repeat split; auto; intros; try discriminate; lia.
      * rewrite andb_true_r. cbn. repeat split; auto; try lia; by apply Hp.
Qed.

Lemma pending_run evs : forall s pend,
  notify_parm_val_change s = false /\ notify_parm_sel_change s = false /\
  (0 <= cur_parm_index (parm s) < NUM_PARMS)%Z /\
  (pend = true -> cur_parm_index (parm s) = 0%Z /\ parm_entry_timeout (parm s) <> 0%Z) /\
  (pend = false -> cur_parm_index (parm s) = 0%Z -> parm_entry_timeout (parm s) = 0%Z) ->
  let s' := parm_run evs s in
  let pend' := default_edit_pending evs s pend in
  (pend' = true -> cur_parm_index (parm s') = 0%Z /\ parm_entry_timeout (parm s') <> 0%Z) /\
  (pend' = false -> cur_parm_index (parm s') = 0%Z -> parm_entry_timeout (parm s') = 0%Z).
Proof.
  induction evs as [|[e now] evs IH]; intros s pend Hinv.
  - cbn. tauto.
  - cbn [parm_run fold_left default_edit_pending fst snd].
    apply (IH (parm_step (parm_event_bits e) now s)).
    exact (pending_step e now s pend Hinv).
Qed.

(** C7, amended. From boot, under any sequence of short-press, long-press
    and timer events: when the active index is 0, no inactivity timeout is
    active, except while a short-press delivered in group 0 has not yet been
    followed by a long-press or by the timeout firing; and then one is. *)
Theorem default_group_timeout_only_while_edit_pending
        (q : ps_vars) (b : vid_bufs) (evs : list (parm_event * Z)) :
  let s := parm_run evs (vid_task_init q b) in
  cur_parm_index (parm s) = 0%Z ->
  (parm_entry_timeout (parm s) = 0%Z
   <-> default_edit_pending evs (vid_task_init q b) false = false).
Proof.
  intros s Hidx.
  destruct (pending_run evs (vid_task_init q b) false) as [Hp Hq].
  { cbn. unfold NUM_PARMS. repeat split; auto; try lia; discriminate. }
  fold s in Hp, Hq. split.
  - intros Ht. destruct (default_edit_pending evs (vid_task_init q b) false); [|done].
    destruct (Hp eq_refl) as [_ Hne]. by destruct Hne.
  - intros Hpend. by apply Hq.
Qed.

Lemma parm_step_timeout now s :
  notify_parm_val_change s = false -> notify_parm_sel_change s = false ->
  parm_entry_timeout (parm s) <> 0%Z ->
  (parm_entry_timeout (parm s) <= now ÷ 1000 - prev_time (parm s))%Z ->
  parm_step 0 now s
  = let s1 := parm_store_change s in
    let v := ps_get_parm (ps s1) PS_PARM_PALETTE_MARKER in
    set_parm {| cur_parm_index := 0; cur_parm_max_index := NUM_M_PARM_VALS - 1;
                cur_parm_value := v; prev_parm_value := v;
                parm_entry_timeout := 0; prev_time := prev_time (parm s) |} s1.
Proof.
  intros Hv Hs Ht Hfire.
  unfold parm_step, _vid_handle_notifications, _vid_eval_parm_update.
  cbn [notify_parm_val_change notify_parm_sel_change set_notify parm].
  eval_notifications. rewrite Hv, Hs. cbv iota.
  rewrite (proj2 (Z.eqb_neq _ _) Ht). cbn [negb].
  rewrite (proj2 (Z.leb_le _ _) Hfire).
  destruct s; cbn in *; subst. reflexivity.
Qed.

Lemma parm_step_select now s :
  notify_parm_val_change s = false ->
  parm_step VID_NOTIFY_PARM_SELECT_MASK now s
  = let s0 := set_notify (notify_image_1 s) (notify_image_2 s) false false s in
    let s1 := parm_store_change s0 in
    let i := (cur_parm_index (parm s) + 1)%Z in
    let '(i, timeout, ptime) :=
      if (i =? NUM_PARMS)%Z then (0%Z, 0%Z, prev_time (parm s))
      else (i, PARM_ENTRY_TIMEOUT_MSEC, (now ÷ 1000)%Z) in
    let '(v, vmax) :=
      if (i =? PARM_INDEX_EMISSIVITY)%Z then
        (_vid_get_emissivity_index (ps_get_parm (ps s1) PS_PARM_EMISSIVITY),
         (NUM_E_PARM_VALS - 1)%Z)
      else if (i =? PARM_INDEX_UNITS)%Z then
        (ps_get_parm (ps s1) PS_PARM_UNITS, (NUM_U_PARM_VALS - 1)%Z)
      else
        (ps_get_parm (ps s1) PS_PARM_PALETTE_MARKER, (NUM_M_PARM_VALS - 1)%Z) in
    set_parm {| cur_parm_index := i; cur_parm_max_index := vmax;
                cur_parm_value := v; prev_parm_value := v;
                parm_entry_timeout := timeout; prev_time := ptime |} s1.
Proof.
  intros Hv.
  unfold parm_step, _vid_handle_notifications, _vid_eval_parm_update.
  cbn [notify_parm_val_change notify_parm_sel_change set_notify parm
       notify_image_1 notify_image_2].
  eval_notifications. rewrite Hv. cbv iota. reflexivity.
Qed.

Lemma long_press_in_emissivity t n1 n2 ns g vmax cur prev tmo ptime q b cl :
  parm_step VID_NOTIFY_PARM_SELECT_MASK t
    {| notify_image_1 := n1; notify_image_2 := n2; notify_parm_val_change := false;
       notify_parm_sel_change := ns; gui_state := g;
       parm := {| cur_parm_index := PARM_INDEX_EMISSIVITY; cur_parm_max_index := vmax;
                  cur_parm_value := cur; prev_parm_value := prev;
                  parm_entry_timeout := tmo; prev_time := ptime |};
       ps := q; bufs := b; calls := cl |}
  = let q1 := if (cur =? prev)%Z then q
              else ps_set_parm q PS_PARM_EMISSIVITY (parm_e_value_at cur) in
    let v := ps_get_parm q1 PS_PARM_UNITS in
    {| notify_image_1 := n1; notify_image_2 := n2; notify_parm_val_change := false;
       notify_parm_sel_change := false; gui_state := g;
       parm := {| cur_parm_index := PARM_INDEX_UNITS;
                  cur_parm_max_index := NUM_U_PARM_VALS - 1;
                  cur_parm_value := v; prev_parm_value := v;
                  parm_entry_timeout := PARM_ENTRY_TIMEOUT_MSEC;
                  prev_time := t ÷ 1000 |};
       ps := q1; bufs := b; calls := cl |}.
Proof.
  rewrite parm_step_select by reflexivity. unfold parm_store_change.
  cbn [parm cur_parm_index cur_parm_value prev_parm_value set_notify ps prev_time].
  change (PARM_INDEX_EMISSIVITY + 1 =? NUM_PARMS)%Z with false.
  change (PARM_INDEX_EMISSIVITY =? PARM_INDEX_EMISSIVITY)%Z with true.
  cbv iota beta.
  change (PARM_INDEX_EMISSIVITY + 1 =? PARM_INDEX_EMISSIVITY)%Z with false.
  change (PARM_INDEX_EMISSIVITY + 1 =? PARM_INDEX_UNITS)%Z with true.
  change (PARM_INDEX_EMISSIVITY + 1)%Z with PARM_INDEX_UNITS.
  cbv iota beta zeta. destruct (cur =? prev)%Z; reflexivity.
Qed.

Lemma long_press_in_units t n1 n2 ns g vmax cur prev tmo ptime q b cl :
  parm_step VID_NOTIFY_PARM_SELECT_MASK t
    {| notify_image_1 := n1; notify_image_2 := n2; notify_parm_val_change := false;
       notify_parm_sel_change := ns; gui_state := g;
       parm := {| cur_parm_index := PARM_INDEX_UNITS; cur_parm_max_index := vmax;
                  cur_parm_value := cur; prev_parm_value := prev;
                  parm_entry_timeout := tmo; prev_time := ptime |};
       ps := q; bufs := b; calls := cl |}
  = let q1 := if (cur =? prev)%Z then q else ps_set_parm q PS_PARM_UNITS cur in
    let v := ps_get_parm q1 PS_PARM_PALETTE_MARKER in
    {| notify_image_1 := n1; notify_image_2 := n2; notify_parm_val_change := false;
       notify_parm_sel_change := false; gui_state := g;
       parm := {| cur_parm_index := 0; cur_parm_max_index := NUM_M_PARM_VALS - 1;
                  cur_parm_value := v; prev_parm_value := v;
                  parm_entry_timeout := 0; prev_time := ptime |};
       ps := q1; bufs := b; calls := cl |}.
Proof.
  rewrite parm_step_select by reflexivity. unfold parm_store_change.
  cbn [parm cur_parm_index cur_parm_value prev_parm_value set_notify ps prev_time].
  change (PARM_INDEX_UNITS + 1 =? NUM_PARMS)%Z with true.
  change (PARM_INDEX_UNITS =? PARM_INDEX_EMISSIVITY)%Z with false.
  change (PARM_INDEX_UNITS =? PARM_INDEX_UNITS)%Z with true.
  cbv iota beta.
  change (0 =? PARM_INDEX_EMISSIVITY)%Z with false.
  change (0 =? PARM_INDEX_UNITS)%Z with false.
  cbv iota beta zeta. destruct (cur =? prev)%Z; reflexivity.
Qed.

(** C6. In a non-default group with the timeout armed and no button event
    pending, letting the timeout fire leaves the same session (index,
    maximum, current and previous value, timeout), the same stored
    parameters and NVS writes, and the same GUI state, frame memory, calls and
    flags as delivering the long-presses that finish the cycle (two from the
    emissivity group, one from the units group): the index is 0, no timeout
    is active, and a pending change has been written to persistent
    storage: on both paths exactly one NVS entry is added, the pending value
    under the key of the group, and the cached parameter reads as that
    value; without a pending change nothing is written.  Only the time stamp
    [prev_time], unused while no timeout is active, may differ. *)
Theorem timeout_equals_long_presses_to_cycle_end
        (s : vid_vars) (now : Z) (times : list Z) :
  cur_parm_index (parm s) = PARM_INDEX_EMISSIVITY \/
  cur_parm_index (parm s) = PARM_INDEX_UNITS ->
  parm_entry_timeout (parm s) <> 0%Z ->
  notify_parm_val_change s = false -> notify_parm_sel_change s = false ->
  (parm_entry_timeout (parm s) <= now ÷ 1000 - prev_time (parm s))%Z ->
  length times = Z.to_nat (NUM_PARMS - cur_parm_index (parm s)) ->
  let timed_out := parm_step 0 now s in
  let pressed := long_presses times s in
  let written :=
    if (cur_parm_value (parm s) =? prev_parm_value (parm s))%Z then []
    else [(if (cur_parm_index (parm s) =? PARM_INDEX_EMISSIVITY)%Z
           then emissivity_info_key else units_info_key,
           pending_value (parm s))] in
  (parm_session timed_out = parm_session pressed /\
   ps timed_out = ps pressed /\
   gui_state timed_out = gui_state pressed /\
   bufs timed_out = bufs pressed /\
   calls timed_out = calls pressed /\
   notify_image_1 timed_out = notify_image_1 pressed /\
   notify_image_2 timed_out = notify_image_2 pressed /\
   notify_parm_val_change timed_out = notify_parm_val_change pressed /\
   notify_parm_sel_change timed_out = notify_parm_sel_change pressed) /\
  cur_parm_index (parm timed_out) = 0%Z /\
  parm_entry_timeout (parm timed_out) = 0%Z /\
  ps timed_out
  = (if (cur_parm_value (parm s) =? prev_parm_value (parm s))%Z then ps s
     else ps_set_parm (ps s) (cur_parm_index (parm s)) (pending_value (parm s))) /\
  nvs_writes (ps timed_out) = nvs_writes (ps s) ++ written /\
  nvs_writes (ps pressed) = nvs_writes (ps s) ++ written /\
  (cur_parm_value (parm s) <> prev_parm_value (parm s) ->
   ps_get_parm (ps timed_out) (cur_parm_index (parm s)) = pending_value (parm s) /\
   ps_get_parm (ps pressed) (cur_parm_index (parm s)) = pending_value (parm s)).
Proof.
  intros Hidx Ht Hv Hs Hfire Hlen timed_out pressed written.
  unfold timed_out, written. rewrite parm_step_timeout by done.
  unfold pressed, long_presses. clear timed_out pressed written.
  destruct s as [n1 n2 nv ns g [idx vmax cur prev tmo ptime] q b cl].
  cbn [parm cur_parm_index parm_entry_timeout prev_time notify_parm_val_change
       notify_parm_sel_change cur_parm_value prev_parm_value] in *.
  subst nv ns.
  unfold parm_store_change, parm_session, pending_value.
  cbn [parm cur_parm_index cur_parm_value prev_parm_value ps].
  destruct Hidx as [-> | ->].
  - (* emissivity: two long-presses *)
    destruct times as [|t1 [|t2 [|t3 times]]]; try discriminate Hlen.
    cbn [fold_left]. rewrite long_press_in_emissivity. cbv zeta.
    rewrite long_press_in_units. cbv zeta.
    change (PARM_INDEX_EMISSIVITY =? PARM_INDEX_EMISSIVITY)%Z with true.
    destruct (Z.eqb_spec cur prev); rewrite !Z.eqb_refl; cbn;
      rewrite ?app_nil_r; repeat split; try reflexivity; intros; done.
  - (* units: one long-press *)
    destruct times as [|t1 [|t2 times]]; try discriminate Hlen.
    cbn [fold_left]. rewrite long_press_in_units. cbv zeta.
    change (PARM_INDEX_UNITS =? PARM_INDEX_EMISSIVITY)%Z with false.
    change (PARM_INDEX_UNITS =? PARM_INDEX_UNITS)%Z with true.
    destruct (Z.eqb_spec cur prev); cbn;
      rewrite ?app_nil_r; repeat split; try reflexivity; intros; done.
Qed.

(** *** The display handoff *)

Lemma display_copy_spec (rend : list Z) n : forall (drv : list Z) p,
  p + n <= length drv -> p + n <= length rend ->
  let out := display_copy n drv rend p in
  length out = length drv /\
  (forall i, i < p \/ p + n <= i -> out !! i = drv !! i) /\
  (forall i, p <= i < p + n -> out !! i = rend !! i).
Proof.
  induction n as [|n IH]; intros drv p Hd Hr; cbn zeta.
  - simpl. split; [done|]. split; [done|]. intros; lia.
  - cbn [display_copy].
    destruct (IH (<[p := rd rend p]> drv) (S p)) as (IHl & IHf & IHv);
      [rewrite length_insert; lia|lia|].
    rewrite length_insert in IHl. split; [done|]. split.
    + intros i Hi. rewrite IHf by lia. apply list_lookup_insert_ne. lia.
    + intros i Hi. destruct (decide (i = p)) as [->|Hne].
      * rewrite IHf by lia. rewrite list_lookup_insert_eq by lia.
        symmetry. apply RenderProofs.rd_lookup. lia.
      * apply IHv. lia.
Qed.

Lemma display_copy_all (drv rend : list Z) n :
  length drv = n -> length rend = n -> display_copy n drv rend 0 = rend.
Proof.
  intros Hd Hr. destruct (display_copy_spec rend n drv 0) as (Hl & _ & Hv); [lia|lia|].
  apply list_eq. intros i. destruct (decide (i < n)) as [Hi|Hi].
  - apply Hv. lia.
  - rewrite !lookup_ge_None_2; [done|lia|lia].
Qed.

Lemma parm_store_change_frame s :
  notify_image_1 (parm_store_change s) = notify_image_1 s /\
  notify_image_2 (parm_store_change s) = notify_image_2 s /\
  bufs (parm_store_change s) = bufs s /\
  calls (parm_store_change s) = calls s.
Proof. unfold parm_store_change. split_ifs; cbn; auto. Qed.

Lemma parm_step_frame nv now s :
  notify_image_1 (parm_step nv now s)
  = (if Notification nv VID_NOTIFY_LEP_FRAME_MASK_1 then true else notify_image_1 s) /\
  notify_image_2 (parm_step nv now s)
  = (if Notification nv VID_NOTIFY_LEP_FRAME_MASK_2 then true else notify_image_2 s) /\
  bufs (parm_step nv now s) = bufs s /\
  exists pre, calls (parm_step nv now s) = calls s ++ pre.
Proof.
  unfold parm_step, _vid_eval_parm_update.
  set (s0 := _vid_handle_notifications nv s).
  assert (H0 : notify_image_1 s0
               = (if Notification nv VID_NOTIFY_LEP_FRAME_MASK_1 then true
                  else notify_image_1 s) /\
               notify_image_2 s0
               = (if Notification nv VID_NOTIFY_LEP_FRAME_MASK_2 then true
                  else notify_image_2 s) /\
               bufs s0 = bufs s /\ calls s0 = calls s) by (cbn; auto).
  destruct H0 as (E1 & E2 & E3 & E4). rewrite <- E1, <- E2, <- E3, <- E4.
  clearbody s0. clear E1 E2 E3 E4.
  destruct (notify_parm_val_change s0); [|destruct (notify_parm_sel_change s0)].
  - split_ifs; cbn; repeat split; eauto using app_nil_r.
  - destruct (parm_store_change_frame
                (set_notify (notify_image_1 s0) (notify_image_2 s0) false false s0))
      as (F1 & F2 & F3 & F4).
    destruct (cur_parm_index (parm s0) + 1 =? NUM_PARMS)%Z; cbv iota beta;
      split_ifs; cbn [notify_image_1 notify_image_2 bufs calls set_parm];
      rewrite F1, F2, F3, F4; cbn; repeat split; eauto using app_nil_r.
  - destruct (parm_store_change_frame s0) as (F1 & F2 & F3 & F4).
    split_ifs; cbn [notify_image_1 notify_image_2 bufs calls set_parm];
      rewrite ?F1, ?F2, ?F3, ?F4; repeat split; eauto using app_nil_r.
Qed.

(** *** The rendering of a raw frame, pixel by pixel *)

Lemma outer_false_nb n c d :
  c < n -> d < 2 -> outer n c d = false -> nb c d < n.
Proof.
  intros Hc Hd. unfold outer, nb.
  destruct (Nat.eqb_spec c 0), (Nat.eqb_spec d 0), (Nat.eqb_spec c (n - 1)),
    (Nat.eqb_spec d 1); cbn; intros; try discriminate; lia.
Qed.

Lemma half_bounds n X :
  X < 2 * n -> X / 2 < n /\ X mod 2 < 2 /\ X = 2 * (X / 2) + X mod 2.
Proof.
  intros HX. pose proof (Nat.div_mod_eq X 2). pose proof (Nat.mod_upper_bound X 2). lia.
Qed.

Lemma rd_16bit (src : list Z) p :
  Forall (fun v => (0 <= v < 65536)%Z) src -> (0 <= rd src p < 65536)%Z.
Proof.
  intros Hs. unfold rd. destruct (src !! p) as [v|] eqn:E; cbn [default]; [|lia].
  by apply (Forall_lookup_1 _ _ _ _ Hs E).
Qed.

Lemma rd_map (f : Z -> Z) (src : list Z) p :
  p < length src -> rd (map f src) p = f (rd src p).
Proof.
  intros Hp. unfold rd. rewrite list_lookup_fmap.
  destruct (lookup_lt_is_Some_2 src p Hp) as [v ->]. reflexivity.
Qed.

Lemma render_lep_data_pixel W H lep img g X Y :
  0 < W -> 0 < H -> length img = 2 * H * (2 * W) -> raw_frame W H lep ->
  X < 2 * W -> Y < 2 * H ->
  (render_lep_data W H lep img g).2 !! idx W X Y = Some (frame_pixel W H lep g X Y).
Proof.
  intros HW HH Hlen (Hsrc & H16 & Hmin & Hmax) HX HY.
  destruct (half_bounds W X HX) as (Hx & Hdx & EX).
  destruct (half_bounds H Y HY) as (Hy & Hdy & EY).
  set (pm := if black_hot_palette g then 255%Z else 0%Z).
  assert (Hpm : (0 <= pm < 256)%Z) by (unfold pm; destruct (black_hot_palette g); lia).
  assert (Hin : forall x y, x < W -> y < H -> y * W + x < W * H) by (intros; nia).
  assert (Hrad : forall p,
            rad_t8 (lep_min_val lep) (rad_diff (lep_min_val lep) (lep_max_val lep))
                   (rd (lep_bufferP lep) p)
            = rad_claim (lep_min_val lep) (lep_max_val lep) (rd (lep_bufferP lep) p)).
  { intros p. apply RenderProofs.rad_t8_law; [done|done|by apply rd_16bit]. }
  unfold render_lep_data, frame_pixel. fold pm.
  destruct (display_interp_enable g) eqn:Eint, (agc_enabled g) eqn:Eagc; cbn [snd].
  - (* interpolated, AGC *)
    rewrite RenderProofs.render_interp_agc_at by done.
    unfold interp_base, frame_sample, src_px, px, u8. rewrite Eagc. reflexivity.
  - (* interpolated, radiometric *)
    change (render_interp_rad_data W H pm lep img).2
      with (render_interp_agc_data W H pm
              (lep_bufferP (render_interp_rad_data W H pm lep img).1) img).
    rewrite RenderProofs.render_interp_rad_data_buffer by (done || nia).
    rewrite RenderProofs.render_interp_agc_at by done.
    set (f := rad_t8 _ _).
    assert (Hpx : forall x y, x < W -> y < H ->
              px W (map f (lep_bufferP lep)) x y = frame_sample W lep g x y).
    { intros x y Hx' Hy'. unfold px, frame_sample, src_px. rewrite Eagc.
      rewrite rd_map by (rewrite Hsrc; auto). unfold f. rewrite Hrad.
      apply RenderProofs.u8_small. rewrite <- Hrad. apply RenderProofs.rad_t8_range. }
    unfold interp_base. do 2 f_equal.
    destruct (outer W (X / 2) (X mod 2)) eqn:Ox, (outer H (Y / 2) (Y mod 2)) eqn:Oy;
      rewrite ?Hpx by eauto using outer_false_nb; reflexivity.
  - (* doubled, AGC *)
    unfold render_double_agc_data. rewrite EX, EY at 1.
    rewrite RenderProofs.double_lines_pixel
      by auto using RenderProofs.agc_t8_range.
    unfold frame_sample, src_px, agc_t8, u8. rewrite Eagc.
    by rewrite <- Z.land_assoc, Z.land_diag.
  - (* doubled, radiometric *)
    unfold render_double_rad_data. rewrite EX, EY at 1.
    rewrite RenderProofs.double_lines_pixel
      by auto using RenderProofs.rad_t8_range.
    unfold frame_sample, src_px. rewrite Eagc. by rewrite Hrad.
Qed.

Section Handoff.
Variables W H : nat.
Variable lepton_get_tel_status : list Z -> Z.
Variable LEP_STATUS_AGC_STATE : Z.
Variable lepton_is_radiometric : bool.
Variable LEP_TEL_TLIN_RES : nat.
Variable render_min_max_markers : lep_buffer_t -> list Z -> list Z.
Variable render_spotmeter : lep_buffer_t -> list Z -> gui_state_t -> list Z.
Variable render_parm_string : Z -> Z -> list Z -> list Z.

Local Abbreviation display := (_vid_display_image W H).
Local Abbreviation render :=
  (_vid_render_image W H lepton_get_tel_status LEP_STATUS_AGC_STATE
     lepton_is_radiometric LEP_TEL_TLIN_RES
     render_min_max_markers render_spotmeter render_parm_string).
Local Abbreviation pass :=
  (vid_task_pass W H lepton_get_tel_status LEP_STATUS_AGC_STATE
     lepton_is_radiometric LEP_TEL_TLIN_RES
     render_min_max_markers render_spotmeter render_parm_string).
Local Abbreviation overlays :=
  (render_overlays render_min_max_markers render_spotmeter render_parm_string).

Lemma display_frame k s :
  notify_image_1 (display k s) = notify_image_1 s /\
  notify_image_2 (display k s) = notify_image_2 s /\
  parm (display k s) = parm s /\ gui_state (display k s) = gui_state s /\
  calls (display k s) = calls s ++ [display_image k] /\
  rend_fb0 (bufs (display k s)) = rend_fb0 (bufs s) /\
  rend_fb1 (bufs (display k s)) = rend_fb1 (bufs s) /\
  vid_lep_buffer0 (bufs (display k s)) = vid_lep_buffer0 (bufs s) /\
  vid_lep_buffer1 (bufs (display k s)) = vid_lep_buffer1 (bufs s).
Proof. unfold _vid_display_image. cbn. repeat split. Qed.

Lemma display_shows k s :
  length (drv_fb (bufs s)) = 2 * W * (2 * H) ->
  length (rend_fbP (bufs s) k) = 2 * W * (2 * H) ->
  drv_fb (bufs (display k s)) = rend_fbP (bufs s) k.
Proof.
  intros Hd Hr. unfold _vid_display_image. cbn. by apply display_copy_all.
Qed.

Lemma render_frame k s :
  k = 0%Z \/ k = 1%Z ->
  notify_image_1 (render k s) = notify_image_1 s /\
  notify_image_2 (render k s) = notify_image_2 s /\
  parm (render k s) = parm s /\
  calls (render k s) = calls s ++ [render_image k] /\
  drv_fb (bufs (render k s)) = drv_fb (bufs s) /\
  rend_fbP (bufs (render k s)) (1 - k) = rend_fbP (bufs s) (1 - k) /\
  rend_fbP (bufs (render k s)) k
  = (let r := render_lep_data W H (vid_lep_buffer (bufs s) k) (rend_fbP (bufs s) k)
                              (gui_state (render k s)) in
     overlays (gui_state (render k s)) (parm s) r.1 r.2).
Proof.
  intros [-> | ->]; unfold _vid_render_image; cbn;
    match goal with
    | |- context [render_lep_data ?w ?h ?l ?i ?g] =>
        destruct (render_lep_data w h l i g) as [lep' img'] eqn:E
    end; cbn; repeat split; by rewrite E.
Qed.

Lemma render_gui k s :
  k = 0%Z \/ k = 1%Z ->
  let g := gui_state (render k s) in
  agc_enabled g
  = (Z.land (lepton_get_tel_status (lep_telemP (vid_lep_buffer (bufs s) k)))
            LEP_STATUS_AGC_STATE =? LEP_STATUS_AGC_STATE)%Z /\
  black_hot_palette g = black_hot_palette (gui_state s) /\
  display_interp_enable g = display_interp_enable (gui_state s) /\
  min_max_enable g = min_max_enable (gui_state s) /\
  spotmeter_enable g = spotmeter_enable (gui_state s).
Proof.
  intros [-> | ->]; unfold _vid_render_image; cbn;
    match goal with
    | |- context [render_lep_data ?w ?h ?l ?i ?g] =>
        destruct (render_lep_data w h l i g) as [lep' img']
    end; cbn; repeat split.
Qed.

Lemma display_keeps k j s :
  rend_fbP (bufs (display k s)) j = rend_fbP (bufs s) j /\
  vid_lep_buffer (bufs (display k s)) j = vid_lep_buffer (bufs s) j.
Proof. unfold _vid_display_image, rend_fbP, vid_lep_buffer. cbn. by destruct (j =? 0)%Z. Qed.

Lemma pass_single_frame s nv now K :
  K = 0%Z \/ K = 1%Z ->
  Notification nv (slot_mask K) = true ->
  Notification nv (slot_mask (1 - K)) = false ->
  notify_image_1 s = false -> notify_image_2 s = false ->
  exists s0,
    bufs s0 = bufs s /\ gui_state s0 = gui_state (parm_step nv now s) /\
    parm s0 = parm (parm_step nv now s) /\
    pass nv now s = call (vTaskDelay VID_EVAL_MSEC) (render K (display (1 - K) s0)).
Proof.
  intros HK Hn Hn' H1 H2. unfold vid_task_pass.
  destruct (parm_step_frame nv now s) as (E1 & E2 & Eb & _).
  set (s1 := parm_step nv now s) in *. rewrite H1 in E1. rewrite H2 in E2.
  destruct HK as [-> | ->].
  - change (slot_mask 0) with VID_NOTIFY_LEP_FRAME_MASK_1 in Hn.
    change (slot_mask (1 - 0)) with VID_NOTIFY_LEP_FRAME_MASK_2 in Hn'.
    change (1 - 0)%Z with 1%Z.
    rewrite Hn in E1. rewrite Hn' in E2. rewrite E1.
    set (s0 := call video_wait_frame _).
    destruct (display_frame 1 s0) as (_ & D2 & _).
    destruct (render_frame 0 (display 1 s0))
      as (_ & R2 & _); [auto|].
    assert (Hn2 : notify_image_2 s0 = false) by (unfold s0; cbn; exact E2).
    rewrite R2, D2, Hn2. exists s0. unfold s0. cbn. auto.
  - change (slot_mask 1) with VID_NOTIFY_LEP_FRAME_MASK_2 in Hn.
    change (slot_mask (1 - 1)) with VID_NOTIFY_LEP_FRAME_MASK_1 in Hn'.
    change (1 - 1)%Z with 0%Z.
    rewrite Hn in E2. rewrite Hn' in E1. rewrite E1, E2.
    set (s0 := call video_wait_frame _). exists s0. unfold s0. cbn. auto.
Qed.

Lemma pass_renders_frame (s : vid_vars) (nv now K : Z) :
  K = 0%Z \/ K = 1%Z ->
  Notification nv (slot_mask K) = true ->
  Notification nv (slot_mask (1 - K)) = false ->
  notify_image_1 s = false -> notify_image_2 s = false ->
  0 < W -> 0 < H ->
  length (rend_fbP (bufs s) K) = 2 * H * (2 * W) ->
  raw_frame W H (vid_lep_buffer (bufs s) K) ->
  let s' := pass nv now s in
  let g := gui_state s' in
  let raw := vid_lep_buffer (bufs s) K in
  agc_enabled g
  = (Z.land (lepton_get_tel_status (lep_telemP raw)) LEP_STATUS_AGC_STATE
     =? LEP_STATUS_AGC_STATE)%Z /\
  black_hot_palette g = black_hot_palette (gui_state (parm_step nv now s)) /\
  display_interp_enable g = display_interp_enable (gui_state (parm_step nv now s)) /\
  (exists lep' base,
     rend_fbP (bufs s') K = overlays g (parm s') lep' base /\
     forall X Y, X < 2 * W -> Y < 2 * H ->
       base !! idx W X Y = Some (frame_pixel W H raw g X Y)) /\
  (min_max_enable g = false -> spotmeter_enable g = false ->
   cur_parm_index (parm s') = PARM_INDEX_MARKER ->
   forall X Y, X < 2 * W -> Y < 2 * H ->
     rend_fbP (bufs s') K !! idx W X Y = Some (frame_pixel W H raw g X Y)).
Proof.
  intros HK Hn Hn' H1 H2 HW HH Hlen Hraw s' g raw.
  destruct (pass_single_frame s nv now K HK Hn Hn' H1 H2) as (s0 & Hb & Hg & Hp & Epass).
  assert (Es' : bufs s' = bufs (render K (display (1 - K) s0)) /\
                gui_state s' = gui_state (render K (display (1 - K) s0)) /\
                parm s' = parm (render K (display (1 - K) s0))).
  { unfold s'. rewrite Epass. cbn. auto. }
  destruct Es' as (Eb & Eg & Ep). unfold g. clear g. rewrite Eb, Eg, Ep.
  clearbody s'. clear s' Eb Eg Ep Epass.
  destruct (display_frame (1 - K) s0) as (_ & _ & Dp & Dg & _).
  destruct (display_keeps (1 - K) K s0) as (Dr & Dl).
  destruct (render_gui K (display (1 - K) s0) HK) as (G1 & G2 & G3 & G4 & G5).
  cbv zeta in G1, G2, G3, G4, G5.
  destruct (render_frame K (display (1 - K) s0) HK)
    as (_ & _ & Rp & _ & _ & _ & Rk).
  cbv zeta in Rk. rewrite Dr, Dl, Hb in Rk. rewrite Dl, Hb in G1.
  rewrite Dg, Hg in G2, G3. rewrite Rp.
  fold raw in Rk, G1.
  set (g := gui_state (render K (display (1 - K) s0))) in *.
  assert (Hbase : forall X Y, X < 2 * W -> Y < 2 * H ->
            (render_lep_data W H raw (rend_fbP (bufs s) K) g).2 !! idx W X Y
            = Some (frame_pixel W H raw g X Y)).
  { intros X Y HX HY. by apply render_lep_data_pixel. }
  split; [exact G1|]. split; [exact G2|]. split; [exact G3|]. split.
  - eexists _, _. split; [exact Rk|exact Hbase].
  - intros Hmm Hsp Hidx X Y HX HY. rewrite Rk. unfold render_overlays.
    rewrite Hmm, Hsp, Dp, Hidx in *. cbn [andb negb].
    change (PARM_INDEX_MARKER =? PARM_INDEX_MARKER)%Z with true. cbn [negb].
    by apply Hbase.
Qed.

(** C5. A successful acquisition pass on slot K takes the slot's lock, loads
    the frame, releases the lock, notifies the video task with the bit of slot
    K, and moves on to slot 1-K.  A video pass that sees the bit of slot K
    waits for the video frame, then copies render buffer 1-K to the driver's
    frame buffer, and only then renders into buffer K.  When the bit of the
    other slot is not set, the driver's buffer ends up holding what render
    buffer 1-K held, that buffer is untouched, and render buffer K holds the
    rendering of raw slot K: for a raw frame of 16-bit samples, the overlays
    are drawn over a raster whose pixel (X, Y) is the low byte (AGC, as the
    frame's telemetry says) or the radiometric scaling of the sample of its
    2x2 block, or the corner, edge or interior blend of such samples when
    interpolation is on, XORed with 255 for the black-hot palette; with the
    markers off and the default group active, that raster is what buffer K
    holds. *)
Theorem display_then_render_handoff :
  (forall (LIMIT RETRY K : Z) (s : Lep.lep_vars),
     K = 0%Z \/ K = 1%Z ->
     Lep.task_state s = Lep.STATE_RUN -> Lep.vid_buf_index s = K ->
     let r := Lep.lep_task_pass LIMIT RETRY true s in
     Lep.vid_buf_index r.1 = (1 - K)%Z /\
     exists rest,
       r.2 = [Lep.xSemaphoreTake K; Lep.vospi_get_frame K; Lep.xSemaphoreGive K;
              Lep.xTaskNotify_vid (slot_mask K)] ++ rest) /\
  (forall (s : vid_vars) (nv now K : Z),
     K = 0%Z \/ K = 1%Z ->
     Notification nv (slot_mask K) = true ->
     exists pre post,
       calls (pass nv now s)
       = calls s ++ pre
           ++ [video_wait_frame; display_image (1 - K); render_image K] ++ post) /\
  (forall (s : vid_vars) (nv now K : Z),
     K = 0%Z \/ K = 1%Z ->
     Notification nv (slot_mask K) = true ->
     Notification nv (slot_mask (1 - K)) = false ->
     notify_image_1 s = false -> notify_image_2 s = false ->
     length (drv_fb (bufs s)) = 2 * W * (2 * H) ->
     length (rend_fbP (bufs s) (1 - K)) = 2 * W * (2 * H) ->
     let s' := pass nv now s in
     drv_fb (bufs s') = rend_fbP (bufs s) (1 - K) /\
     rend_fbP (bufs s') (1 - K) = rend_fbP (bufs s) (1 - K) /\
     rend_fbP (bufs s') K
     = (let r := render_lep_data W H (vid_lep_buffer (bufs s) K) (rend_fbP (bufs s) K)
                                 (gui_state s') in
        overlays (gui_state s') (parm s') r.1 r.2)) /\
  (forall (s : vid_vars) (nv now K : Z),
     K = 0%Z \/ K = 1%Z ->
     Notification nv (slot_mask K) = true ->
     Notification nv (slot_mask (1 - K)) = false ->
     notify_image_1 s = false -> notify_image_2 s = false ->
     0 < W -> 0 < H ->
     length (rend_fbP (bufs s) K) = 2 * H * (2 * W) ->
     raw_frame W H (vid_lep_buffer (bufs s) K) ->
     let s' := pass nv now s in
     let g := gui_state s' in
     let raw := vid_lep_buffer (bufs s) K in
     agc_enabled g
     = (Z.land (lepton_get_tel_status (lep_telemP raw)) LEP_STATUS_AGC_STATE
        =? LEP_STATUS_AGC_STATE)%Z /\
     black_hot_palette g = black_hot_palette (gui_state (parm_step nv now s)) /\
     display_interp_enable g = display_interp_enable (gui_state (parm_step nv now s)) /\
     (exists lep' base,
        rend_fbP (bufs s') K = overlays g (parm s') lep' base /\
        forall X Y, X < 2 * W -> Y < 2 * H ->
          base !! idx W X Y = Some (frame_pixel W H raw g X Y)) /\
     (min_max_enable g = false -> spotmeter_enable g = false ->
      cur_parm_index (parm s') = PARM_INDEX_MARKER ->
      forall X Y, X < 2 * W -> Y < 2 * H ->
        rend_fbP (bufs s') K !! idx W X Y = Some (frame_pixel W H raw g X Y))).
Proof.
  split; [|split; [|split]].
  - intros LIMIT RETRY K s HK Hst Hidx r. unfold r, Lep.lep_task_pass. rewrite Hst.
    change (Lep.STATE_RUN =? Lep.STATE_INIT)%Z with false.
    change (Lep.STATE_RUN =? Lep.STATE_RUN)%Z with true. cbv iota.
    unfold Lep.lep_state_run. rewrite Hidx.
    destruct HK as [-> | ->]; cbn; split; eauto.
  - intros s nv now K HK Hn. unfold vid_task_pass.
    destruct (parm_step_frame nv now s) as (E1 & E2 & _ & pre & Ec).
    set (s1 := parm_step nv now s) in *.
    destruct HK as [-> | ->]; cbn [slot_mask Z.eqb] in Hn.
    + rewrite Hn in E1. rewrite E1.
      set (s2 := render 0 (display 1 _)).
      assert (Hc2 : calls s2 = calls s ++ pre
                               ++ [video_wait_frame; display_image 1; render_image 0]).
      { unfold s2. destruct (render_frame 0 (display 1 (call video_wait_frame
                               (set_notify false (notify_image_2 s1)
                                  (notify_parm_val_change s1)
                                  (notify_parm_sel_change s1) s1))))
          as (_ & _ & _ & -> & _); [auto|].
        destruct (display_frame 1 (call video_wait_frame
                               (set_notify false (notify_image_2 s1)
                                  (notify_parm_val_change s1)
                                  (notify_parm_sel_change s1) s1)))
          as (_ & _ & _ & _ & -> & _).
        cbn. rewrite Ec. by rewrite <- !app_assoc. }
      clearbody s2. exists pre.
      destruct (notify_image_2 s2).
      * eexists. cbn [calls call]. 
        destruct (render_frame 1 (display 0 (call video_wait_frame
                               (set_notify (notify_image_1 s2) false
                                  (notify_parm_val_change s2)
                                  (notify_parm_sel_change s2) s2))))
          as (_ & _ & _ & -> & _); [auto|].
        destruct (display_frame 0 (call video_wait_frame
                               (set_notify (notify_image_1 s2) false
                                  (notify_parm_val_change s2)
                                  (notify_parm_sel_change s2) s2)))
          as (_ & _ & _ & _ & -> & _).
        cbn. rewrite Hc2. rewrite <- !app_assoc. cbn. reflexivity.
      * exists [vTaskDelay VID_EVAL_MSEC]. cbn. rewrite Hc2.
        rewrite <- !app_assoc. reflexivity.
    + rewrite Hn in E2.
      set (s2 := if notify_image_1 s1 then _ else s1).
      assert (Hs2 : notify_image_2 s2 = true /\ exists pre2, calls s2 = calls s ++ pre2).
      { unfold s2. destruct (notify_image_1 s1).
        - destruct (render_frame 0 (display 1 (call video_wait_frame
                               (set_notify false (notify_image_2 s1)
                                  (notify_parm_val_change s1)
                                  (notify_parm_sel_change s1) s1))))
            as (_ & -> & _ & -> & _); [auto|].
          destruct (display_frame 1 (call video_wait_frame
                               (set_notify false (notify_image_2 s1)
                                  (notify_parm_val_change s1)
                                  (notify_parm_sel_change s1) s1)))
            as (_ & -> & _ & _ & -> & _).
          cbn. split; [exact E2|]. rewrite Ec. eexists. by rewrite <- !app_assoc.
        - split; [exact E2|]. eauto. }
      clearbody s2. destruct Hs2 as (-> & pre2 & Hc2).
      exists pre2, [vTaskDelay VID_EVAL_MSEC]. cbn [calls call].
      destruct (render_frame 1 (display 0 (call video_wait_frame
                               (set_notify (notify_image_1 s2) false
                                  (notify_parm_val_change s2)
                                  (notify_parm_sel_change s2) s2))))
        as (_ & _ & _ & -> & _); [auto|].
      destruct (display_frame 0 (call video_wait_frame
                               (set_notify (notify_image_1 s2) false
                                  (notify_parm_val_change s2)
                                  (notify_parm_sel_change s2) s2)))
        as (_ & _ & _ & _ & -> & _).
      cbn. rewrite Hc2. rewrite <- !app_assoc. reflexivity.
  - intros s nv now K HK Hn Hn' H1 H2 Hd Hr s'. unfold s', vid_task_pass.
    destruct (parm_step_frame nv now s) as (E1 & E2 & Eb & _).
    set (s1 := parm_step nv now s) in *. rewrite H1 in E1. rewrite H2 in E2.
    destruct HK as [-> | ->].
    + change (slot_mask 0) with VID_NOTIFY_LEP_FRAME_MASK_1 in Hn.
      change (slot_mask (1 - 0)) with VID_NOTIFY_LEP_FRAME_MASK_2 in Hn'.
      change (1 - 0)%Z with 1%Z in *.
      rewrite Hn in E1. rewrite Hn' in E2. rewrite E1.
      set (s0 := call video_wait_frame _).
      assert (Hb0 : bufs s0 = bufs s) by (unfold s0; cbn; exact Eb).
      destruct (display_frame 1 s0) as (_ & D2 & Dp & Dg & _ & D5 & D6 & D7 & D8).
      destruct (render_frame 0 (display 1 s0)) as (_ & R2 & Rp & _ & Rd & Ro & Rk); [auto|].
      change (1 - 0)%Z with 1%Z in Ro.
      assert (Hn2 : notify_image_2 s0 = false) by (unfold s0; cbn; exact E2).
      rewrite R2, D2, Hn2.
      cbn [bufs call gui_state parm].
      split; [|split].
      * rewrite Rd. rewrite display_shows by (rewrite Hb0; done). by rewrite Hb0.
      * rewrite Ro. cbn [rend_fbP Z.eqb].
        rewrite D6. by rewrite Hb0.
      * rewrite Rk, Rp. cbn [rend_fbP vid_lep_buffer Z.eqb]. rewrite D5, D7, Hb0.
        reflexivity.
    + change (slot_mask 1) with VID_NOTIFY_LEP_FRAME_MASK_2 in Hn.
      change (slot_mask (1 - 1)) with VID_NOTIFY_LEP_FRAME_MASK_1 in Hn'.
      change (1 - 1)%Z with 0%Z in *.
      rewrite Hn in E2. rewrite Hn' in E1. rewrite E1. rewrite E2.
      set (s0 := call video_wait_frame _).
      assert (Hb0 : bufs s0 = bufs s) by (unfold s0; cbn; exact Eb).
      destruct (display_frame 0 s0) as (_ & D2 & Dp & Dg & _ & D5 & D6 & D7 & D8).
      destruct (render_frame 1 (display 0 s0)) as (_ & R2 & Rp & _ & Rd & Ro & Rk); [auto|].
      change (1 - 1)%Z with 0%Z in Ro.
      cbn [bufs call gui_state parm].
      split; [|split].
      * rewrite Rd. rewrite display_shows by (rewrite Hb0; done). by rewrite Hb0.
      * rewrite Ro. cbn [rend_fbP Z.eqb].
        rewrite D5. by rewrite Hb0.
      * rewrite Rk, Rp. cbn [rend_fbP vid_lep_buffer Z.eqb]. rewrite D6, D8, Hb0.
        reflexivity.
  - exact pass_renders_frame.
Qed.
End Handoff.

(** *** The properties at a freshly booted task *)

(** One short-press after boot: the index is still 0 and the timeout is
    armed. *)
Lemma short_press_in_default_group_arms_timeout :
  let s := parm_run [(ShortPress, 0%Z)] (vid_task_init ps_defaults bufs_blank) in
  cur_parm_index (parm s) = 0%Z /\ parm_entry_timeout (parm s) = 10000%Z /\
  parm_entry_timeout (parm s) <> 0%Z.
Proof. cbn. repeat split; discriminate. Qed.

Lemma default_group_witness :
  let evs := [(ShortPress, 0%Z); (LongPress, 1000000%Z); (LongPress, 2000000%Z);
              (LongPress, 3000000%Z)] in
  let s := parm_run evs (vid_task_init ps_defaults bufs_blank) in
  cur_parm_index (parm s) = 0%Z /\
  default_edit_pending evs (vid_task_init ps_defaults bufs_blank) false = false /\
  parm_entry_timeout (parm s) = 0%Z.
Proof.
  intros evs s. split; [reflexivity|]. split; [reflexivity|].
  apply (default_group_timeout_only_while_edit_pending ps_defaults bufs_blank evs);
    reflexivity.
Defined.

Lemma timeout_equals_long_presses_witness :
  let s := parm_run [(LongPress, 0%Z); (ShortPress, 1000000%Z)]
                    (vid_task_init ps_defaults bufs_blank) in
  cur_parm_index (parm s) = PARM_INDEX_EMISSIVITY /\
  parm_session (parm_step 0 20000000 s)
  = parm_session (long_presses [12000000; 13000000]%Z s) /\
  ps (parm_step 0 20000000 s) = ps (long_presses [12000000; 13000000]%Z s) /\
  val_emissivity (ps (parm_step 0 20000000 s)) = 98%Z /\
  nvs_writes (ps s) = [] /\
  nvs_writes (ps (parm_step 0 20000000 s)) = [(emissivity_info_key, 98%Z)] /\
  nvs_writes (ps (long_presses [12000000; 13000000]%Z s)) = [(emissivity_info_key, 98%Z)].
Proof.
  intros s.
  destruct (timeout_equals_long_presses_to_cycle_end s 20000000
              [12000000; 13000000]%Z (or_introl eq_refl) ltac:(discriminate)
              eq_refl eq_refl ltac:(vm_compute; discriminate) eq_refl)
    as ((Hs & Hp & _) & _ & _ & Hc & Hw & Hw' & _).
  split; [reflexivity|]. split; [exact Hs|]. split; [exact Hp|].
  split; [rewrite Hc; reflexivity|]. split; [reflexivity|].
  split; [exact Hw|exact Hw'].
Defined.

Lemma display_then_render_witness :
  let id2 := fun (_ : lep_buffer_t) (img : list Z) => img in
  let id3 := fun (_ : lep_buffer_t) (img : list Z) (_ : gui_state_t) => img in
  let idp := fun (_ _ : Z) (img : list Z) => img in
  let s := vid_task_init ps_defaults bufs_sample in
  let s' := vid_task_pass 2 1 (fun _ => 1%Z) 1 false 0 id2 id3 idp
                          VID_NOTIFY_LEP_FRAME_MASK_1 0 s in
  drv_fb (bufs s') = replicate 8 9%Z /\
  calls s' = [video_wait_frame; display_image 1; render_image 0; vTaskDelay 20] /\
  rend_fb0 (bufs s) = replicate 8 0%Z /\
  rend_fb0 (bufs s') !! idx 2 0 0 = Some 100%Z /\
  rend_fb0 (bufs s') !! idx 2 1 0 = Some 125%Z /\
  rend_fb0 (bufs s') !! idx 2 2 1 = Some 175%Z /\
  rend_fb0 (bufs s') !! idx 2 3 1 = Some 200%Z.
Proof.
  intros id2 id3 idp s s'.
  destruct (display_then_render_handoff 2 1 (fun _ => 1%Z) 1 false 0 id2 id3 idp)
    as (_ & _ & Hcontent & Hpixels).
  destruct (Hcontent s VID_NOTIFY_LEP_FRAME_MASK_1 0%Z 0%Z (or_introl eq_refl)
              eq_refl eq_refl eq_refl eq_refl eq_refl eq_refl) as (Hd & _).
  destruct (Hpixels s VID_NOTIFY_LEP_FRAME_MASK_1 0%Z 0%Z (or_introl eq_refl)
              eq_refl eq_refl eq_refl eq_refl ltac:(lia) ltac:(lia) eq_refl)
    as (_ & _ & _ & _ & Hpix).
  { unfold raw_frame. cbn. repeat split; try lia. repeat constructor; lia. }
  split; [exact Hd|]. split; [reflexivity|]. split; [reflexivity|].
  split; [exact (Hpix eq_refl eq_refl eq_refl 0 0 ltac:(lia) ltac:(lia))|].
  split; [exact (Hpix eq_refl eq_refl eq_refl 1 0 ltac:(lia) ltac:(lia))|].
  split; [exact (Hpix eq_refl eq_refl eq_refl 2 1 ltac:(lia) ltac:(lia))|].
  exact (Hpix eq_refl eq_refl eq_refl 3 1 ltac:(lia) ltac:(lia)).
Defined.

End VidProofs.

(** ** The control task *)
Module CtrlProofs.
Import Ctrl CtrlSpec.

(** *** The button debouncer *)

Lemma debounce_exclusive level c :
  (ctrl_debounce_button level c).1.2 && (ctrl_debounce_button level c).2 = false.
Proof.
  unfold ctrl_debounce_button.
  destruct (level =? 0)%Z, (prev_btn c), (btn_down c); cbn;
    repeat match goal with
           | |- context [(?a =? ?b)%Z] => destruct (a =? b)%Z; cbn
           end; reflexivity.
Qed.

Lemma debounce_long_leaves_zero level c :
  (ctrl_debounce_button level c).2 = true ->
  btn_down (ctrl_debounce_button level c).1.1 = true /\
  btn_timer (ctrl_debounce_button level c).1.1 = 0%Z.
Proof.
  unfold ctrl_debounce_button.
  destruct (level =? 0)%Z, (prev_btn c), (btn_down c); cbn;
    repeat match goal with
           | |- context [(?a =? ?b)%Z] => destruct (Z.eqb_spec a b); cbn
           end; intros; try discriminate; auto.
Qed.

Lemma debounce_after_long level c :
  btn_down c = true -> btn_timer c = 0%Z ->
  (ctrl_debounce_button level c).1.2 = false /\
  (ctrl_debounce_button level c).2 = false /\
  (btn_down (ctrl_debounce_button level c).1.1 = true ->
   btn_timer (ctrl_debounce_button level c).1.1 = 0%Z).
Proof.
  intros Hd Ht. unfold ctrl_debounce_button. rewrite Hd, Ht.
  destruct (level =? 0)%Z, (prev_btn c); cbn; auto.
Qed.

Lemma held_outputs_silent levels : forall c,
  btn_down c = true -> btn_timer c = 0%Z ->
  Forall (fun o => o = (false, false)) (held_outputs levels c).
Proof.
  induction levels as [|level levels IH]; intros c Hd Ht; cbn [held_outputs].
  - constructor.
  - destruct (debounce_after_long level c Hd Ht) as (Hs & Hl & Hinv).
    destruct (ctrl_debounce_button level c) as [[c' short_p] long_p].
    cbn [fst snd] in Hs, Hl, Hinv. subst short_p long_p.
    constructor; [reflexivity|].
    destruct (btn_down c') eqn:Hd'; [|constructor]. apply IH; auto.
Qed.

Lemma debounce_release_before_expiry level c :
  btn_down c = true -> prev_btn c = false -> level <> 0%Z -> btn_timer c <> 0%Z ->
  (ctrl_debounce_button level c).1.2 = true /\
  (ctrl_debounce_button level c).2 = false /\
  btn_down (ctrl_debounce_button level c).1.1 = false.
Proof.
  intros Hd Hp Hl Ht. unfold ctrl_debounce_button. rewrite Hd, Hp.
  rewrite (proj2 (Z.eqb_neq level 0) Hl). cbn.
  rewrite (proj2 (Z.eqb_neq (btn_timer c) 0) Ht). auto.
Qed.

(** C10. On every evaluation and for every sample sequence the debouncer
    never reports a short-press and a long-press together.  When the
    long-press countdown has reached zero with the button held, the
    evaluations that follow, the release included, report nothing; a release
    registered while the countdown is still pending (at 1, say: it would
    expire on this very evaluation) reports a short-press only. *)
Theorem debounce_never_short_and_long :
  (forall level c,
     (ctrl_debounce_button level c).1.2 && (ctrl_debounce_button level c).2 = false) /\
  (forall level c,
     (ctrl_debounce_button level c).2 = true ->
     btn_down (ctrl_debounce_button level c).1.1 = true /\
     btn_timer (ctrl_debounce_button level c).1.1 = 0%Z) /\
  (forall levels c,
     btn_down c = true -> btn_timer c = 0%Z ->
     Forall (fun o => o = (false, false)) (held_outputs levels c)) /\
  (forall level c,
     btn_down c = true -> prev_btn c = false -> level <> 0%Z -> btn_timer c <> 0%Z ->
     (ctrl_debounce_button level c).1.2 = true /\
     (ctrl_debounce_button level c).2 = false /\
     btn_down (ctrl_debounce_button level c).1.1 = false).
Proof.
  split; [exact debounce_exclusive|]. split; [exact debounce_long_leaves_zero|].
  split; [exact held_outputs_silent|exact debounce_release_before_expiry].
Qed.

(** *** Fault entry and exit *)

Lemma Notification_lor_same n m : Notification (Z.lor n m) m = true.
Proof.
  unfold Notification. apply Z.eqb_eq, Z.bits_inj'. intros i _.
  rewrite Z.land_spec, Z.lor_spec. destruct (Z.testbit n i), (Z.testbit m i); reflexivity.
Qed.

Lemma Notification_lor_keeps n b m :
  Notification n m = true -> Notification (Z.lor n b) m = true.
Proof.
  unfold Notification. intros Hn. apply Z.eqb_eq in Hn. apply Z.eqb_eq, Z.bits_inj'.
  intros i _. rewrite Z.land_spec, Z.lor_spec.
  assert (Hi : Z.testbit n i && Z.testbit m i = Z.testbit m i)
    by (rewrite <- Z.land_spec; by rewrite Hn).
  destruct (Z.testbit n i), (Z.testbit m i), (Z.testbit b i); cbn in *; congruence.
Qed.

Lemma pre_ctrl_set_led_state st c :
  ctrl_pre_activity_state (ctrl_set_led_state st c) = ctrl_pre_activity_state c.
Proof.
  unfold ctrl_set_led_state.
  repeat match goal with |- context [if ?b then _ else _] => destruct b end; reflexivity.
Qed.

Lemma state_ctrl_set_led_state st c :
  ctrl_state (ctrl_set_led_state st c) = ctrl_state c.
Proof.
  unfold ctrl_set_led_state.
  repeat match goal with |- context [if ?b then _ else _] => destruct b end; reflexivity.
Qed.

Lemma pre_ctrl_set_state st c :
  ctrl_pre_activity_state (ctrl_set_state st c) = ctrl_pre_activity_state c.
Proof.
  unfold ctrl_set_state.
  repeat match goal with |- context [if ?b then _ else _] => destruct b end;
    rewrite ?pre_ctrl_set_led_state; reflexivity.
Qed.

Lemma state_ctrl_set_state st c : ctrl_state (ctrl_set_state st c) = st.
Proof.
  unfold ctrl_set_state.
  repeat match goal with |- context [if ?b then _ else _] => destruct b end;
    rewrite ?state_ctrl_set_led_state; reflexivity.
Qed.

Lemma pre_ctrl_eval_led_sm c :
  ctrl_pre_activity_state (ctrl_eval_led_sm c) = ctrl_pre_activity_state c.
Proof.
  unfold ctrl_eval_led_sm.
  repeat match goal with |- context [if ?b then _ else _] => destruct b end;
    rewrite ?pre_ctrl_set_led_state; reflexivity.
Qed.

Lemma state_ctrl_eval_led_sm c : ctrl_state (ctrl_eval_led_sm c) = ctrl_state c.
Proof.
  unfold ctrl_eval_led_sm.
  repeat match goal with |- context [if ?b then _ else _] => destruct b end;
    rewrite ?state_ctrl_set_led_state; reflexivity.
Qed.

Lemma debounce_keeps level c :
  ctrl_state (ctrl_debounce_button level c).1.1 = ctrl_state c /\
  ctrl_pre_activity_state (ctrl_debounce_button level c).1.1 = ctrl_pre_activity_state c.
Proof.
  unfold ctrl_debounce_button.
  repeat match goal with |- context [if ?b then _ else _] => destruct b; cbn end; auto.
Qed.

Lemma pre_ctrl_eval_sm level c :
  ctrl_pre_activity_state (ctrl_eval_sm level c) = ctrl_pre_activity_state c.
Proof.
  unfold ctrl_eval_sm. destruct (debounce_keeps level c) as [_ Hp].
  destruct (ctrl_debounce_button level c) as [[c' sp] lp]. cbn [fst snd] in Hp.
  repeat match goal with |- context [if ?b then _ else _] => destruct b end;
    rewrite ?pre_ctrl_set_state; exact Hp.
Qed.

Lemma state_ctrl_eval_sm level c :
  ctrl_state c = CTRL_ST_STARTUP \/ ctrl_state c = CTRL_ST_RUN \/ ctrl_state c = CTRL_ST_FAULT ->
  ctrl_state (ctrl_eval_sm level c) = ctrl_state c.
Proof.
  intros Hst. unfold ctrl_eval_sm. destruct (debounce_keeps level c) as [Hs _].
  destruct (ctrl_debounce_button level c) as [[c' sp] lp]. cbn [fst snd] in Hs.
  rewrite <- Hs in Hst |- *.
  destruct Hst as [E|[E|E]]; rewrite E; cbn; destruct sp, lp; cbn; congruence.
Qed.

Lemma pre_ctrl_handle_notifications c :
  ctrl_pre_activity_state (ctrl_handle_notifications c) = ctrl_pre_activity_state c.
Proof.
  unfold ctrl_handle_notifications.
  repeat match goal with |- context [if ?b then _ else _] => destruct b end;
    rewrite ?pre_ctrl_set_state; reflexivity.
Qed.

Lemma state_after_clear c :
  Notification (notification c) CTRL_NOTIFY_FAULT_CLEAR = true ->
  ctrl_state (ctrl_handle_notifications c) = ctrl_pre_activity_state c.
Proof.
  intros Hn. unfold ctrl_handle_notifications. rewrite Hn.
  rewrite state_ctrl_set_state.
  repeat match goal with |- context [if ?b then _ else _] => destruct b end;
    rewrite ?pre_ctrl_set_state; reflexivity.
Qed.

Lemma pre_ctrl_task_pass level c :
  ctrl_pre_activity_state (ctrl_task_pass level c) = ctrl_pre_activity_state c.
Proof.
  unfold ctrl_task_pass.
  by rewrite pre_ctrl_eval_sm, pre_ctrl_eval_led_sm, pre_ctrl_handle_notifications.
Qed.


(** *** The fault LED *)

Lemma set_led_vars_twice st t n p st' t' n' p' c :
  set_led_vars st t n p (set_led_vars st' t' n' p' c) = set_led_vars st t n p c.
Proof. reflexivity. Qed.

Lemma led_ticks_add n m c : led_ticks (n + m) c = led_ticks m (led_ticks n c).
Proof. revert c. induction n as [|n IH]; intros c; cbn; [done|apply IH]. Qed.

Lemma led_trace_add n m c :
  led_trace (n + m) c = led_trace n c ++ led_trace m (led_ticks n c).
Proof.
  revert c. induction n as [|n IH]; intros c; cbn; [done|]. by rewrite IH.
Qed.

Lemma led_ticks_1 c : led_ticks 1 c = ctrl_eval_led_sm c.
Proof. reflexivity. Qed.

Lemma led_trace_1 c : led_trace 1 c = [led_pins c].
Proof. reflexivity. Qed.

Lemma led_step st u n p c :
  st = CTRL_LED_ST_FLT_ON \/ st = CTRL_LED_ST_FLT_OFF \/ st = CTRL_LED_ST_FLT_IDLE ->
  u <> 0%Z ->
  ctrl_eval_led_sm (set_led_vars st (u + 1) n p c) = set_led_vars st u n p c.
Proof.
  intros Hst Hu. apply Z.eqb_neq in Hu.
  unfold ctrl_eval_led_sm, set_led_timer.
  cbn [ctrl_led_state ctrl_led_timer ctrl_fault_led_count led_pins set_led_vars].
  replace (u + 1 - 1)%Z with u by lia.
  destruct Hst as [->|[->| ->]];
    cbn [Z.eqb Pos.eqb CTRL_LED_ST_FLT_ON CTRL_LED_ST_FLT_OFF CTRL_LED_ST_FLT_IDLE
         CTRL_LED_ST_SOLID]; rewrite Hu; reflexivity.
Qed.

Lemma led_countdown st m : forall t n p c,
  st = CTRL_LED_ST_FLT_ON \/ st = CTRL_LED_ST_FLT_OFF \/ st = CTRL_LED_ST_FLT_IDLE ->
  (1 <= t)%Z ->
  led_ticks m (set_led_vars st (Z.of_nat m + t) n p c) = set_led_vars st t n p c /\
  led_trace m (set_led_vars st (Z.of_nat m + t) n p c) = replicate m p.
Proof.
  induction m as [|m IH]; intros t n p c Hst Ht.
  - cbn. split; [|done]. by replace (0 + t)%Z with t by lia.
  - cbn [led_ticks led_trace replicate].
    replace (Z.of_nat (S m) + t)%Z with (Z.of_nat m + t + 1)%Z by lia.
    rewrite led_step by (done || lia).
    destruct (IH t n p c Hst Ht) as [E1 E2]. split; [done|].
    cbn [led_pins set_led_vars]. by rewrite E2.
Qed.

Lemma led_on_expires n p c :
  ctrl_eval_led_sm (set_led_vars CTRL_LED_ST_FLT_ON 1 n p c)
  = set_led_vars CTRL_LED_ST_FLT_OFF 6 n (0, 0)%Z c.
Proof. reflexivity. Qed.

Lemma led_off_expires n p c :
  ctrl_eval_led_sm (set_led_vars CTRL_LED_ST_FLT_OFF 1 n p c)
  = if (n - 1 =? 0)%Z then set_led_vars CTRL_LED_ST_FLT_IDLE 40 (n - 1) (0, 0)%Z c
    else set_led_vars CTRL_LED_ST_FLT_ON 4 (n - 1) (1, 0)%Z c.
Proof.
  unfold ctrl_eval_led_sm. cbn. destruct (n - 1 =? 0)%Z; reflexivity.
Qed.

Lemma led_idle_expires n p c :
  ctrl_eval_led_sm (set_led_vars CTRL_LED_ST_FLT_IDLE 1 n p c)
  = set_led_vars CTRL_LED_ST_FLT_ON 4 (ctrl_fault_type c) (1, 0)%Z c.
Proof. reflexivity. Qed.

(** One on-phase and one off-phase: ten evaluation periods. *)
Lemma led_blink_cycle n c :
  led_trace 10 (set_led_vars CTRL_LED_ST_FLT_ON 4 n (1, 0)%Z c)
  = replicate 4 (1, 0)%Z ++ replicate 6 (0, 0)%Z /\
  led_ticks 10 (set_led_vars CTRL_LED_ST_FLT_ON 4 n (1, 0)%Z c)
  = if (n - 1 =? 0)%Z then set_led_vars CTRL_LED_ST_FLT_IDLE 40 (n - 1) (0, 0)%Z c
    else set_led_vars CTRL_LED_ST_FLT_ON 4 (n - 1) (1, 0)%Z c.
Proof.
  destruct (led_countdown CTRL_LED_ST_FLT_ON 3 1 n (1, 0)%Z c) as [T1 R1]; [auto|lia|].
  destruct (led_countdown CTRL_LED_ST_FLT_OFF 5 1 n (0, 0)%Z c) as [T2 R2]; [auto|lia|].
  change (Z.of_nat 3 + 1)%Z with 4%Z in *. change (Z.of_nat 5 + 1)%Z with 6%Z in *.
  change 10 with (3 + (1 + (5 + 1))).
  rewrite !led_trace_add, !led_ticks_add, !led_ticks_1, !led_trace_1, T1, R1.
  rewrite led_on_expires, T2, R2.
  cbn [led_pins set_led_vars]. rewrite led_off_expires. split; reflexivity.
Qed.

(** A burst of [k] blinks, then the idle state. *)
Lemma led_burst k : forall c,
  led_trace (10 * S k) (set_led_vars CTRL_LED_ST_FLT_ON 4 (Z.of_nat (S k)) (1, 0)%Z c)
  = concat (replicate (S k) (replicate 4 (1, 0)%Z ++ replicate 6 (0, 0)%Z)) /\
  led_ticks (10 * S k) (set_led_vars CTRL_LED_ST_FLT_ON 4 (Z.of_nat (S k)) (1, 0)%Z c)
  = set_led_vars CTRL_LED_ST_FLT_IDLE 40 0 (0, 0)%Z c.
Proof.
  induction k as [|k IH]; intros c.
  - destruct (led_blink_cycle (Z.of_nat 1) c) as [E1 E2].
    change (10 * 1) with 10. rewrite E1, E2. cbn [replicate concat].
    rewrite app_nil_r. split; reflexivity.
  - destruct (led_blink_cycle (Z.of_nat (S (S k))) c) as [E1 E2].
    replace (10 * S (S k)) with (10 + 10 * S k) by lia.
    rewrite led_trace_add, led_ticks_add, E1, E2.
    replace (Z.of_nat (S (S k)) - 1)%Z with (Z.of_nat (S k)) by lia.
    rewrite (proj2 (Z.eqb_neq (Z.of_nat (S k)) 0)) by lia.
    destruct (IH c) as [E3 E4]. rewrite E3, E4. split; reflexivity.
Qed.

Lemma ctrl_set_state_fault c :
  ctrl_fault_type c <> CTRL_FAULT_NONE ->
  ctrl_set_state CTRL_ST_FAULT c
  = set_led_vars CTRL_LED_ST_FLT_ON 4 (ctrl_fault_type c) (1, 0)%Z
                 (set_ctrl_state CTRL_ST_FAULT c).
Proof.
  intros Hf. unfold ctrl_set_state. cbn.
  rewrite (proj2 (Z.eqb_neq _ _) Hf). reflexivity.
Qed.

Lemma led_view_debounce level c :
  led_view (ctrl_debounce_button level c).1.1 = led_view c /\
  notification (ctrl_debounce_button level c).1.1 = notification c.
Proof.
  unfold ctrl_debounce_button.
  repeat match goal with |- context [if ?b then _ else _] => destruct b; cbn end; auto.
Qed.

Lemma notification_ctrl_set_led_state st c :
  notification (ctrl_set_led_state st c) = notification c.
Proof.
  unfold ctrl_set_led_state.
  repeat match goal with |- context [if ?b then _ else _] => destruct b end; reflexivity.
Qed.

Lemma notification_ctrl_eval_led_sm c :
  notification (ctrl_eval_led_sm c) = notification c.
Proof.
  unfold ctrl_eval_led_sm.
  repeat match goal with |- context [if ?b then _ else _] => destruct b end;
    rewrite ?notification_ctrl_set_led_state; reflexivity.
Qed.

Lemma fault_pass_runs_led_machine level c :
  ctrl_state c = CTRL_ST_FAULT -> notification c = 0%Z ->
  led_view (ctrl_task_pass level c) = led_view (ctrl_eval_led_sm c) /\
  ctrl_state (ctrl_task_pass level c) = CTRL_ST_FAULT /\
  notification (ctrl_task_pass level c) = 0%Z.
Proof.
  intros Hst Hn. unfold ctrl_task_pass.
  assert (Hh : ctrl_handle_notifications c = c).
  { unfold ctrl_handle_notifications. rewrite Hn.
    change (Notification 0 CTRL_NOTIFY_STARTUP_DONE) with false.
    change (Notification 0 CTRL_NOTIFY_FAULT) with false.
    change (Notification 0 CTRL_NOTIFY_FAULT_CLEAR) with false.
    cbv iota. destruct c; cbn in *; by subst. }
  rewrite Hh. set (c1 := ctrl_eval_led_sm c).
  assert (Hs1 : ctrl_state c1 = CTRL_ST_FAULT)
    by (unfold c1; by rewrite state_ctrl_eval_led_sm).
  assert (Hn1 : notification c1 = 0%Z)
    by (unfold c1; by rewrite notification_ctrl_eval_led_sm).
  unfold ctrl_eval_sm.
  destruct (led_view_debounce level c1) as [Hv Hnn].
  destruct (debounce_keeps level c1) as [Hs _].
  destruct (ctrl_debounce_button level c1) as [[c2 sp] lp]. cbn [fst snd] in *.
  rewrite Hs1 in Hs. rewrite Hs. cbn. rewrite Hs, Hnn. auto.
Qed.

(** C9. Entering the Fault state with fault code f > 0 starts the LED state
    machine in BlinkOn with the repeat count f.  From there the LED shows f
    times four periods of red and six periods of dark, then forty periods of
    dark (Idle); after these 10*f + 40 periods the task variables are again
    what they were on entry, so every burst has exactly f on-phases.  A pass
    of the task with nothing pending in the Fault state moves the LED
    variables as the LED state machine alone does. *)
Theorem fault_led_blinks_fault_code (c : ctrl_vars) (f : Z) :
  (0 < f)%Z -> ctrl_fault_type c = f ->
  let c0 := ctrl_set_state CTRL_ST_FAULT c in
  let red := ctrl_set_led CTRL_LED_RED (led_pins c) in
  let off := ctrl_set_led CTRL_LED_OFF (led_pins c) in
  let blink := replicate 4 red ++ replicate 6 off in
  ctrl_state c0 = CTRL_ST_FAULT /\
  ctrl_led_state c0 = CTRL_LED_ST_FLT_ON /\
  ctrl_fault_led_count c0 = f /\
  led_trace (10 * Z.to_nat f + 40) c0
  = concat (replicate (Z.to_nat f) blink) ++ replicate 40 off /\
  ctrl_led_state (led_ticks (10 * Z.to_nat f) c0) = CTRL_LED_ST_FLT_IDLE /\
  led_ticks (10 * Z.to_nat f + 40) c0 = c0 /\
  (forall level c', ctrl_state c' = CTRL_ST_FAULT -> notification c' = 0%Z ->
     led_view (ctrl_task_pass level c') = led_view (ctrl_eval_led_sm c') /\
     ctrl_state (ctrl_task_pass level c') = CTRL_ST_FAULT /\
     notification (ctrl_task_pass level c') = 0%Z).
Proof.
  intros Hf Hc c0 red off blink.
  assert (Hc0 : c0 = set_led_vars CTRL_LED_ST_FLT_ON 4 f (1, 0)%Z
                                  (set_ctrl_state CTRL_ST_FAULT c)).
  { unfold c0. rewrite ctrl_set_state_fault by (unfold CTRL_FAULT_NONE; lia).
    by rewrite Hc. }
  destruct (Z.to_nat f) as [|k] eqn:Ek; [lia|].
  assert (Ef : f = Z.of_nat (S k)) by lia.
  destruct (led_burst k (set_ctrl_state CTRL_ST_FAULT c)) as [E1 E2].
  destruct (led_countdown CTRL_LED_ST_FLT_IDLE 39 1 0 (0, 0)%Z
              (set_ctrl_state CTRL_ST_FAULT c)) as [T3 R3]; [auto|lia|].
  change (Z.of_nat 39 + 1)%Z with 40%Z in *.
  rewrite Hc0, Ef. split; [reflexivity|]. split; [reflexivity|]. split; [reflexivity|].
  split; [|split; [|split; [|exact fault_pass_runs_led_machine]]].
  - rewrite led_trace_add, E1, E2. apply (f_equal (app _)).
    change 40 with (39 + 1) at 1. rewrite led_trace_add, led_trace_1, R3, T3. reflexivity.
  - rewrite E2. reflexivity.
  - rewrite led_ticks_add, E2. change 40 with (39 + 1).
    rewrite led_ticks_add, led_ticks_1, T3. rewrite led_idle_expires.
    cbn [ctrl_fault_type set_ctrl_state]. by rewrite Hc, Ef.
Qed.

Lemma pre_ctrl_step e c :
  no_fault_report e ->
  ctrl_pre_activity_state (ctrl_step e c) = ctrl_pre_activity_state c.
Proof.
  destruct e as [f| |level]; cbn [no_fault_report ctrl_step].
  - intros ->. reflexivity.
  - reflexivity.
  - intros _. apply pre_ctrl_task_pass.
Qed.

Lemma pre_ctrl_run evs : forall c,
  Forall no_fault_report evs ->
  ctrl_pre_activity_state (ctrl_run evs c) = ctrl_pre_activity_state c.
Proof.
  induction evs as [|e evs IH]; intros c Hall; [reflexivity|].
  inversion Hall as [|? ? He Hevs]; subst. cbn [ctrl_run fold_left].
  fold (ctrl_run evs (ctrl_step e c)). rewrite IH by done. by apply pre_ctrl_step.
Qed.

Lemma clear_pending_ctrl_run evs : forall c,
  Forall signal_only evs ->
  Notification (notification c) CTRL_NOTIFY_FAULT_CLEAR = true ->
  Notification (notification (ctrl_run evs c)) CTRL_NOTIFY_FAULT_CLEAR = true.
Proof.
  induction evs as [|e evs IH]; intros c Hall Hn; [exact Hn|].
  inversion Hall as [|? ? He Hevs]; subst. cbn [ctrl_run fold_left].
  fold (ctrl_run evs (ctrl_step e c)). apply IH; [done|].
  destruct e as [f| |level]; cbn [signal_only ctrl_step] in *.
  - subst f. cbn. by apply Notification_lor_keeps.
  - cbn. by apply Notification_lor_keeps.
  - contradiction.
Qed.

Lemma signal_only_no_fault_report evs :
  Forall signal_only evs -> Forall no_fault_report evs.
Proof.
  intros Hall. eapply Forall_impl; [exact Hall|]. intros [f| |level]; cbn; auto.
Qed.

(** C8. If a fault is reported while the control state is s (Startup or
    Run) and a fault clear follows, with passes, start-up signals and clears
    but no other fault report in between, then the pass that processes the
    clear leaves the control state at s.  A start-up-complete signal that
    arrives in the Fault state, no clear pending, leaves the state at
    Fault. *)
Theorem fault_clear_returns_to_pre_fault_state :
  (forall (c : ctrl_vars) (s f level : Z) (mid post : list ctrl_event),
     s = CTRL_ST_STARTUP \/ s = CTRL_ST_RUN ->
     ctrl_state c = s -> f <> CTRL_FAULT_NONE ->
     Forall no_fault_report mid -> Forall signal_only post ->
     let reported := ctrl_set_fault_type f c in
     let cleared := ctrl_set_fault_type CTRL_FAULT_NONE (ctrl_run mid reported) in
     ctrl_pre_activity_state reported = s /\
     ctrl_state (ctrl_handle_notifications (ctrl_run post cleared)) = s /\
     ctrl_state (ctrl_task_pass level (ctrl_run post cleared)) = s) /\
  (forall (c : ctrl_vars) (level : Z),
     ctrl_state c = CTRL_ST_FAULT ->
     Notification (notification c) CTRL_NOTIFY_FAULT_CLEAR = false ->
     let signalled := xTaskNotify_ctrl CTRL_NOTIFY_STARTUP_DONE c in
     ctrl_state (ctrl_handle_notifications signalled) = CTRL_ST_FAULT /\
     ctrl_state (ctrl_task_pass level signalled) = CTRL_ST_FAULT).
Proof.
  split.
  - intros c s f level mid post Hs Hc Hf Hmid Hpost reported cleared.
    assert (Hrep : ctrl_pre_activity_state reported = s).
    { unfold reported, ctrl_set_fault_type.
      rewrite (proj2 (Z.eqb_neq _ _) Hf). cbn. exact Hc. }
    assert (Hpre : ctrl_pre_activity_state (ctrl_run post cleared) = s).
    { rewrite pre_ctrl_run by by apply signal_only_no_fault_report.
      unfold cleared. cbn. rewrite pre_ctrl_run by done. exact Hrep. }
    assert (Hpend : Notification (notification (ctrl_run post cleared))
                                 CTRL_NOTIFY_FAULT_CLEAR = true).
    { apply clear_pending_ctrl_run; [done|]. unfold cleared. cbn.
      apply Notification_lor_same. }
    assert (Hh : ctrl_state (ctrl_handle_notifications (ctrl_run post cleared)) = s)
      by (rewrite state_after_clear by done; exact Hpre).
    split; [exact Hrep|]. split; [exact Hh|].
    unfold ctrl_task_pass. rewrite state_ctrl_eval_sm; rewrite state_ctrl_eval_led_sm.
    + exact Hh.
    + rewrite Hh. destruct Hs as [->| ->]; auto.
  - intros c level Hc Hn signalled.
    assert (Hh : ctrl_state (ctrl_handle_notifications signalled) = CTRL_ST_FAULT).
    { unfold ctrl_handle_notifications, signalled. cbn [notification xTaskNotify_ctrl
        set_notification set_fault ctrl_state ctrl_pre_activity_state].
      assert (Hn' : Notification (Z.lor (notification c) CTRL_NOTIFY_STARTUP_DONE)
                                 CTRL_NOTIFY_FAULT_CLEAR = false).
      { unfold Notification in *. rewrite Z.land_lor_distr_l.
        change (Z.land CTRL_NOTIFY_STARTUP_DONE CTRL_NOTIFY_FAULT_CLEAR) with 0%Z.
        by rewrite Z.lor_0_r. }
      rewrite Hn', Hc. cbn [negb Z.eqb CTRL_ST_FAULT Pos.eqb].
      destruct (Notification _ CTRL_NOTIFY_STARTUP_DONE),
        (Notification _ CTRL_NOTIFY_FAULT);
        rewrite ?state_ctrl_set_state; cbn; try reflexivity; exact Hc. }
    split; [exact Hh|].
    unfold ctrl_task_pass. rewrite state_ctrl_eval_sm; rewrite state_ctrl_eval_led_sm.
    + exact Hh.
    + rewrite Hh. auto.
Qed.

(** *** The properties at sample states *)

Lemma fault_clear_witness :
  let c := {| ctrl_state := CTRL_ST_RUN; ctrl_pre_activity_state := 0;
              ctrl_led_state := CTRL_LED_ST_SOLID; ctrl_led_timer := 0;
              ctrl_fault_led_count := 0; ctrl_fault_type := CTRL_FAULT_NONE;
              prev_btn := false; btn_down := false; btn_timer := 0;
              notification := 0; led_pins := (0, 1)%Z; vid_notified := [] |} in
  ctrl_state c = CTRL_ST_RUN /\
  ctrl_state
    (ctrl_task_pass 1
       (ctrl_run [EvStartupDone]
          (ctrl_set_fault_type CTRL_FAULT_NONE
             (ctrl_run [EvPass 1; EvPass 1]
                (ctrl_set_fault_type CTRL_FAULT_LEP_SYNC c)))))
  = CTRL_ST_RUN.
Proof.
  intros c. split; [reflexivity|].
  destruct fault_clear_returns_to_pre_fault_state as [Hclear _].
  destruct (Hclear c CTRL_ST_RUN CTRL_FAULT_LEP_SYNC 1%Z [EvPass 1; EvPass 1] [EvStartupDone]
              (or_intror eq_refl) eq_refl ltac:(discriminate)
              ltac:(repeat constructor) ltac:(repeat constructor)) as (_ & _ & Hpass).
  exact Hpass.
Defined.

Lemma fault_led_witness :
  let c := ctrl_set_fault_type CTRL_FAULT_MEM_INIT (ctrl_task_init (0, 0)%Z) in
  let c0 := ctrl_set_state CTRL_ST_FAULT c in
  ctrl_fault_type c = 3%Z /\
  led_trace 70 c0
  = concat (replicate 3 (replicate 4 (1, 0)%Z ++ replicate 6 (0, 0)%Z))
      ++ replicate 40 (0, 0)%Z /\
  led_ticks 70 c0 = c0.
Proof.
  intros c c0. split; [reflexivity|].
  destruct (fault_led_blinks_fault_code c 3 ltac:(lia) eq_refl)
    as (_ & _ & _ & Htrace & _ & Hperiod & _).
  split; [exact Htrace|exact Hperiod].
Defined.

Lemma debounce_witness :
  let c := set_button false true 1 (ctrl_task_init (0, 0)%Z) in
  btn_down c = true /\ btn_timer c = 1%Z /\
  (ctrl_debounce_button 1 c).1.2 = true /\ (ctrl_debounce_button 1 c).2 = false.
Proof.
  intros c. split; [reflexivity|]. split; [reflexivity|].
  destruct debounce_never_short_and_long as (_ & _ & _ & Hrel).
  destruct (Hrel 1%Z c eq_refl eq_refl ltac:(discriminate) ltac:(discriminate))
    as (Hs & Hl & _).
  split; [exact Hs|exact Hl].
Defined.

End CtrlProofs.

(** ** The renderers: further properties *)
Module RenderMoreProofs.
Import Render RenderSpec.

Lemma agc_t8_low_byte v : agc_t8 v = Z.land v 255.
Proof.
  unfold agc_t8. apply RenderProofs.u8_small.
  change 255%Z with (Z.ones 8). rewrite Z.land_ones by lia. apply Z.mod_pos_bound. lia.
Qed.

(** X1. The pixel-doubling AGC renderer writes, at every output pixel
    [(X, Y)], the low byte of source sample [(X/2, Y/2)] XORed with the
    palette modifier: each sample fills a 2x2 block, whatever the samples
    are. *)
Theorem doubling_agc_replicates_low_byte
        (W H : nat) (pm : Z) (lep : lep_buffer_t) (img : list Z) (X Y : nat) :
  0 < W -> (0 <= pm < 256)%Z -> length img = 2 * H * (2 * W) ->
  X < 2 * W -> Y < 2 * H ->
  render_double_agc_data W H pm lep img !! idx W X Y
  = Some (Z.lxor (Z.land (src_px W (lep_bufferP lep) (X / 2) (Y / 2)) 255) pm).
Proof.
  intros HW Hpm Hlen HX HY. unfold render_double_agc_data, src_px.
  pose proof (Nat.div_mod_eq X 2). pose proof (Nat.mod_upper_bound X 2).
  pose proof (Nat.div_mod_eq Y 2). pose proof (Nat.mod_upper_bound Y 2).
  rewrite <- agc_t8_low_byte.
  eapply RenderProofs.lookup_cong;
    [| |apply (RenderProofs.double_lines_pixel W H pm (lep_bufferP lep) agc_t8 img
               (X / 2) (X mod 2) (Y / 2) (Y mod 2))];
    [apply RenderProofs.idx_cong; lia|done|done|done|apply RenderProofs.agc_t8_range|done|lia..].
Qed.

Lemma px_bounded W H (src : list Z) lo hi x y :
  (0 <= lo)%Z -> (hi < 256)%Z -> length src = W * H ->
  Forall (fun v => (lo <= v <= hi)%Z) src -> x < W -> y < H ->
  (lo <= px W src x y <= hi)%Z.
Proof.
  intros Hlo Hhi Hlen Hall Hx Hy. unfold px, rd.
  assert (Hi : y * W + x < length src).
  { rewrite Hlen. assert ((y + 1) * W <= H * W) by (apply Nat.mul_le_mono_r; lia). lia. }
  destruct (lookup_lt_is_Some_2 src (y * W + x) Hi) as [v Ev]. rewrite Ev. cbn [default].
  pose proof (Forall_lookup_1 _ _ _ _ Hall Ev) as Hv. cbv beta in Hv.
  unfold id. rewrite RenderProofs.u8_small by lia. done.
Qed.

Lemma blend2_between lo hi a b :
  (lo <= a <= hi)%Z -> (lo <= b <= hi)%Z -> (lo <= blend2 a b <= hi)%Z.
Proof.
  intros Ha Hb. unfold blend2. split.
  - apply Z.div_le_lower_bound; lia.
  - apply Z.div_le_upper_bound; lia.
Qed.

Lemma blend4_between lo hi a b c d :
  (lo <= a <= hi)%Z -> (lo <= b <= hi)%Z -> (lo <= c <= hi)%Z -> (lo <= d <= hi)%Z ->
  (lo <= blend4 a b c d <= hi)%Z.
Proof.
  intros Ha Hb Hc Hd. unfold blend4. split.
  - apply Z.div_le_lower_bound; lia.
  - apply Z.div_le_upper_bound; lia.
Qed.

Lemma nb_inside n c d : 0 < n -> c < n -> d < 2 -> outer n c d = false -> nb c d < n.
Proof.
  intros Hn Hc Hd. unfold outer, nb.
  destruct d as [|[|d]]; [| |lia]; cbn [Nat.eqb].
  - destruct (Nat.eqb_spec c 0); cbn; [discriminate|]. lia.
  - destruct (Nat.eqb_spec c (n - 1)); cbn; rewrite ?andb_false_r, ?orb_false_l;
      [discriminate|]. lia.
Qed.

(** X2. The interpolating renderer neither overshoots nor undershoots: when
    every source sample lies between [lo] and [hi] (within 0..255), every
    output pixel is the palette modifier XORed with a value between [lo] and
    [hi].  In particular a uniform frame is rendered uniform. *)
Theorem interpolation_stays_within_source_range
        (W H : nat) (pm lo hi : Z) (src img : list Z) (X Y : nat) :
  0 < W -> 0 < H -> (0 <= pm < 256)%Z -> (0 <= lo)%Z -> (hi < 256)%Z ->
  length src = W * H -> Forall (fun v => (lo <= v <= hi)%Z) src ->
  length img = 2 * H * (2 * W) -> X < 2 * W -> Y < 2 * H ->
  exists v, (lo <= v <= hi)%Z /\
    render_interp_agc_data W H pm src img !! idx W X Y = Some (Z.lxor v pm).
Proof.
  intros HW HH Hpm Hlo Hhi Hsrc Hall Himg HX HY.
  rewrite RenderProofs.render_interp_agc_at by done.
  eexists. split; [|reflexivity].
  pose proof (Nat.div_mod_eq X 2). pose proof (Nat.mod_upper_bound X 2).
  pose proof (Nat.div_mod_eq Y 2). pose proof (Nat.mod_upper_bound Y 2).
  assert (Hx : X / 2 < W) by lia. assert (Hy : Y / 2 < H) by lia.
  assert (Hdx : X mod 2 < 2) by lia. assert (Hdy : Y mod 2 < 2) by lia.
  unfold interp_base.
  destruct (outer W (X / 2) (X mod 2)) eqn:Ox, (outer H (Y / 2) (Y mod 2)) eqn:Oy.
  - by apply (px_bounded W H).
  - apply blend2_between; apply (px_bounded W H); try done. by apply nb_inside.
  - apply blend2_between; apply (px_bounded W H); try done. by apply nb_inside.
  - apply blend4_between; apply (px_bounded W H); try done; by apply nb_inside.
Qed.

(** *** The properties on a 2 by 2 frame *)

Lemma doubling_agc_witness :
  let lep := {| telem_valid := true; lep_min_val := 1; lep_min_x := 0; lep_min_y := 0;
                lep_max_val := 300; lep_max_x := 1; lep_max_y := 0;
                lep_bufferP := [1; 300; 3; 4]%Z; lep_telemP := [] |} in
  render_double_agc_data 2 2 255 lep (replicate 16 0%Z) !! idx 2 3 1
  = Some (Z.lxor (Z.land (src_px 2 (lep_bufferP lep) (3 / 2) (1 / 2)) 255) 255).
Proof.
  intros lep.
  apply (doubling_agc_replicates_low_byte 2 2 255 lep (replicate 16 0%Z) 3 1);
    [lia|lia|reflexivity|lia|lia].
Defined.

Lemma interpolation_range_witness :
  exists v, (10 <= v <= 40)%Z /\
    render_interp_agc_data 2 2 0 [10; 20; 30; 40]%Z (replicate 16 0%Z) !! idx 2 1 2
    = Some (Z.lxor v 0).
Proof.
  apply (interpolation_stays_within_source_range 2 2 0 10 40 [10; 20; 30; 40]%Z
           (replicate 16 0%Z) 1 2);
    [lia|lia|lia|lia|lia|reflexivity|repeat constructor; lia|reflexivity|lia|lia].
Defined.

End RenderMoreProofs.

(** ** The drawing primitives *)
Module DrawProofs.
Import Render Draw DrawSpec.

Ltac zbool :=
  repeat match goal with
  | |- context [(?a <=? ?b)%Z] => destruct (Z.leb_spec a b)
  | |- context [(?a <? ?b)%Z] => destruct (Z.ltb_spec a b)
  | |- context [(?a =? ?b)%Z] => destruct (Z.eqb_spec a b)
  end; cbn [andb orb negb].

Lemma i16_id v : (-32768 <= v <= 32767)%Z -> i16 v = v.
Proof. intros Hv. unfold i16. rewrite Z.mod_small by lia. lia. Qed.

Lemma i16_range v : (-32768 <= i16 v <= 32767)%Z.
Proof. unfold i16. pose proof (Z.mod_pos_bound (v + 32768) 65536). lia. Qed.

Lemma u8_byte v : (0 <= v < 256)%Z -> u8 v = v.
Proof.
  intros Hv. unfold u8. change 255%Z with (Z.ones 8). rewrite Z.land_ones by lia.
  apply Z.mod_small. lia.
Qed.

Lemma u8_bounds v : (0 <= u8 v < 256)%Z.
Proof.
  unfold u8. change 255%Z with (Z.ones 8). rewrite Z.land_ones by lia.
  apply Z.mod_pos_bound. lia.
Qed.

Section Image.
Variables LW LH : nat.
Local Abbreviation Wd := (IMG_BUF_WIDTH LW).
Local Abbreviation Ht := (IMG_BUF_HEIGHT LH).
Local Abbreviation sized := (DrawSpec.sized Wd Ht).

Lemma offset_in_image x y : (0 <= x < Wd)%Z -> (0 <= y < Ht)%Z -> (0 <= x + y * Wd < Wd * Ht)%Z.
Proof. intros Hx Hy. nia. Qed.

Lemma offset_inj x y X Y :
  (0 <= x < Wd)%Z -> (0 <= X < Wd)%Z -> (x + y * Wd = X + Y * Wd)%Z -> x = X /\ y = Y.
Proof. intros Hx HX E. assert (y = Y) by nia. subst. lia. Qed.

Lemma poke_pix img x y c :
  sized img -> (0 <= x < Wd)%Z -> (0 <= y < Ht)%Z ->
  exists img', poke img (x + y * Wd) c = Done img' /\
    painted Wd Ht (fun X Y => (X =? x)%Z && (Y =? y)%Z) c img img'.
Proof.
  intros Hs Hx Hy. pose proof (offset_in_image x y Hx Hy) as Ho.
  unfold poke, DrawSpec.sized in *.
  destruct (Z.leb_spec 0 (x + y * Wd)); [|lia].
  destruct (Z.ltb_spec (x + y * Wd) (Z.of_nat (length img))); [|lia].
  eexists. split; [reflexivity|]. split; [apply length_insert|].
  intros X Y HX HY. unfold pix, rd.
  destruct (Z.eqb_spec X x) as [->|Hne]; cbn [andb].
  - destruct (Z.eqb_spec Y y) as [->|Hne].
    + rewrite list_lookup_insert_eq by lia. reflexivity.
    + rewrite list_lookup_insert_ne; [done|]. intros E. apply Z2Nat.inj in E; nia.
  - rewrite list_lookup_insert_ne; [done|]. intros E.
    apply Z2Nat.inj in E; [|nia|nia].
    destruct (offset_inj x y X Y Hx HX E). lia.
Qed.

Lemma painted_sized P c img img' : sized img -> painted Wd Ht P c img img' -> sized img'.
Proof. intros Hs [Hl _]. unfold DrawSpec.sized in *. congruence. Qed.

Lemma painted_refl c img : painted Wd Ht (fun _ _ => false) c img img.
Proof. split; [done|]. intros. reflexivity. Qed.

Lemma painted_ext P Q c img img' :
  (forall X Y, (0 <= X < Wd)%Z -> (0 <= Y < Ht)%Z -> P X Y = Q X Y) ->
  painted Wd Ht P c img img' -> painted Wd Ht Q c img img'.
Proof.
  intros E [Hl Hp]. split; [done|]. intros X Y HX HY. rewrite <- E by done. by apply Hp.
Qed.

Lemma painted_trans P Q c img img1 img2 :
  painted Wd Ht P c img img1 -> painted Wd Ht Q c img1 img2 ->
  painted Wd Ht (fun X Y => P X Y || Q X Y) c img img2.
Proof.
  intros [L1 P1] [L2 P2]. split; [congruence|].
  intros X Y HX HY. rewrite P2, P1 by done. by destruct (P X Y), (Q X Y).
Qed.

(** *** draw_hline *)

Lemma draw_hline_loop_spec c y x2 :
  (0 <= y < Ht)%Z -> (x2 < 32767)%Z ->
  forall fuel img x1, sized img -> (-32768 <= x1)%Z ->
    (Z.max 0 (x2 - x1 + 1) < Z.of_nat fuel)%Z ->
    exists img', draw_hline_loop LW fuel img (y * Wd + x1) x1 x2 c = Done img' /\
      painted Wd Ht (fun X Y => (Y =? y)%Z && (x1 <=? X)%Z && (X <=? x2)%Z) c img img'.
Proof.
  intros Hy Hx2. induction fuel as [|fuel IH]; intros img x1 Hs Hx1 Hf; [lia|].
  cbn [draw_hline_loop]. destruct (Z.leb_spec x1 x2) as [Hle|Hgt].
  - rewrite i16_id by lia.
    assert (Hstep : exists img1,
      (if ((0 <=? x1)%Z && (x1 <? Wd)%Z) then poke img (y * Wd + x1) c else Done img)
      = Done img1 /\
      painted Wd Ht (fun X Y => (X =? x1)%Z && (Y =? y)%Z) c img img1).
    { destruct (Z.leb_spec 0 x1); cbn [andb].
      - destruct (Z.ltb_spec x1 Wd).
        + replace (y * Wd + x1)%Z with (x1 + y * Wd)%Z by lia. apply poke_pix; [done|lia|done].
        + exists img. split; [done|]. eapply painted_ext; [|apply painted_refl].
          intros X Y HX HY. cbn. zbool; lia || done.
      - exists img. split; [done|]. eapply painted_ext; [|apply painted_refl].
        intros X Y HX HY. cbn. zbool; lia || done. }
    destruct Hstep as (img1 & -> & Hp1). cbn [bind].
    destruct (IH img1 (x1 + 1)%Z) as (img' & E & Hp); [by eapply painted_sized|lia|lia|].
    replace (y * Wd + (x1 + 1))%Z with (y * Wd + x1 + 1)%Z in E by lia.
    exists img'. split; [done|].
    eapply painted_ext; [|exact (painted_trans _ _ _ _ _ _ Hp1 Hp)].
    intros X Y HX HY. cbn. zbool; lia || done.
  - exists img. split; [done|]. eapply painted_ext; [|apply painted_refl].
    intros X Y HX HY. cbn. zbool; lia || done.
Qed.

Lemma draw_hline_spec fuel img x1 x2 y c :
  sized img ->
  (-32768 <= x1 <= 32767)%Z -> (-32768 <= x2 < 32767)%Z -> (-32768 <= y <= 32767)%Z ->
  (0 <= c < 256)%Z -> (Z.max 0 (x2 - x1 + 1) < Z.of_nat fuel)%Z ->
  exists img', draw_hline LW LH fuel img x1 x2 y c = Done img' /\
    painted Wd Ht (fun X Y => (Y =? y)%Z && (x1 <=? X)%Z && (X <=? x2)%Z) c img img'.
Proof.
  intros Hs Hx1 Hx2 Hy Hc Hf. unfold draw_hline.
  rewrite !i16_id, u8_byte by lia.
  destruct (Z.ltb_spec y 0); cbn [orb].
  - exists img. split; [done|]. eapply painted_ext; [|apply painted_refl].
    intros X Y HX HY. cbn. zbool; lia || done.
  - destruct (Z.leb_spec Ht y).
    + exists img. split; [done|]. eapply painted_ext; [|apply painted_refl].
      intros X Y HX HY. cbn. zbool; lia || done.
    + apply draw_hline_loop_spec; done || lia.
Qed.

(** *** draw_vline *)

Lemma draw_vline_loop_spec c x y2 :
  (0 <= x < Wd)%Z -> (y2 < 32767)%Z ->
  forall fuel img y1, sized img -> (-32768 <= y1)%Z ->
    (Z.max 0 (y2 - y1 + 1) < Z.of_nat fuel)%Z ->
    exists img', draw_vline_loop LW LH fuel img (y1 * Wd + x) y1 y2 c = Done img' /\
      painted Wd Ht (fun X Y => (X =? x)%Z && (y1 <=? Y)%Z && (Y <=? y2)%Z) c img img'.
Proof.
  intros Hx Hy2. induction fuel as [|fuel IH]; intros img y1 Hs Hy1 Hf; [lia|].
  cbn [draw_vline_loop]. destruct (Z.leb_spec y1 y2) as [Hle|Hgt].
  - rewrite i16_id by lia.
    assert (Hstep : exists img1,
      (if ((0 <=? y1)%Z && (y1 <? Ht)%Z) then poke img (y1 * Wd + x) c else Done img)
      = Done img1 /\
      painted Wd Ht (fun X Y => (X =? x)%Z && (Y =? y1)%Z) c img img1).
    { destruct (Z.leb_spec 0 y1); cbn [andb].
      - destruct (Z.ltb_spec y1 Ht).
        + replace (y1 * Wd + x)%Z with (x + y1 * Wd)%Z by lia. apply poke_pix; [done|done|lia].
        + exists img. split; [done|]. eapply painted_ext; [|apply painted_refl].
          intros X Y HX HY. cbn. zbool; lia || done.
      - exists img. split; [done|]. eapply painted_ext; [|apply painted_refl].
        intros X Y HX HY. cbn. zbool; lia || done. }
    destruct Hstep as (img1 & -> & Hp1). cbn [bind].
    destruct (IH img1 (y1 + 1)%Z) as (img' & E & Hp); [by eapply painted_sized|lia|lia|].
    replace ((y1 + 1) * Wd + x)%Z with (y1 * Wd + x + Wd)%Z in E by lia.
    exists img'. split; [done|].
    eapply painted_ext; [|exact (painted_trans _ _ _ _ _ _ Hp1 Hp)].
    intros X Y HX HY. cbn. zbool; lia || done.
  - exists img. split; [done|]. eapply painted_ext; [|apply painted_refl].
    intros X Y HX HY. cbn. zbool; lia || done.
Qed.

Lemma draw_vline_spec fuel img x y1 y2 c :
  sized img ->
  (-32768 <= x <= 32767)%Z -> (-32768 <= y1 <= 32767)%Z -> (-32768 <= y2 < 32767)%Z ->
  (0 <= c < 256)%Z -> (Z.max 0 (y2 - y1 + 1) < Z.of_nat fuel)%Z ->
  exists img', draw_vline LW LH fuel img x y1 y2 c = Done img' /\
    painted Wd Ht (fun X Y => (X =? x)%Z && (y1 <=? Y)%Z && (Y <=? y2)%Z) c img img'.
Proof.
  intros Hs Hx Hy1 Hy2 Hc Hf. unfold draw_vline.
  rewrite !i16_id, u8_byte by lia.
  destruct (Z.ltb_spec x 0); cbn [orb].
  - exists img. split; [done|]. eapply painted_ext; [|apply painted_refl].
    intros X Y HX HY. cbn. zbool; lia || done.
  - destruct (Z.leb_spec Wd x).
    + exists img. split; [done|]. eapply painted_ext; [|apply painted_refl].
      intros X Y HX HY. cbn. zbool; lia || done.
    + apply draw_vline_loop_spec; done || lia.
Qed.

(** *** draw_fill_rect *)

Lemma draw_fill_rect_loop_spec fuel c x y w h :
  (-32768 <= x <= 32767)%Z -> (-32768 <= x + w - 1 < 32767)%Z ->
  (y + h <= 32767)%Z -> (0 <= c < 256)%Z -> (Z.max 0 w < Z.of_nat fuel)%Z ->
  forall n img y1, sized img -> (-32768 <= y1)%Z ->
    (Z.max 0 (y + h - y1) < Z.of_nat n)%Z ->
    exists img', draw_fill_rect_loop LW LH n fuel img x y w h y1 c = Done img' /\
      painted Wd Ht (fun X Y => (x <=? X)%Z && (X <=? x + w - 1)%Z
                                && (y1 <=? Y)%Z && (Y <? y + h)%Z) c img img'.
Proof.
  intros Hx Hxw Hyh Hc Hf. induction n as [|n IH]; intros img y1 Hs Hy1 Hn; [lia|].
  cbn [draw_fill_rect_loop]. destruct (Z.ltb_spec y1 (y + h)) as [Hlt|Hge].
  - destruct (draw_hline_spec fuel img x (x + w - 1) y1 c) as (img1 & -> & Hp1);
      [done|lia|lia|lia|lia|lia|].
    cbn [bind]. rewrite i16_id by lia.
    destruct (IH img1 (y1 + 1)%Z) as (img' & -> & Hp); [by eapply painted_sized|lia|lia|].
    exists img'. split; [done|].
    eapply painted_ext; [|exact (painted_trans _ _ _ _ _ _ Hp1 Hp)].
    intros X Y HX HY. cbn. zbool; lia || done.
  - exists img. split; [done|]. eapply painted_ext; [|apply painted_refl].
    intros X Y HX HY. cbn. zbool; lia || done.
Qed.

(** *** draw_line *)

Lemma touched_refl P cs img : touched Wd Ht P cs img img.
Proof. split; [done|]. intros. by left. Qed.

Lemma touched_trans P cs img img1 img2 :
  touched Wd Ht P cs img img1 -> touched Wd Ht P cs img1 img2 ->
  touched Wd Ht P cs img img2.
Proof.
  intros [L1 T1] [L2 T2]. split; [congruence|].
  intros X Y HX HY. destruct (T2 X Y HX HY) as [E|?]; [|by right].
  rewrite E. by apply T1.
Qed.

Lemma touched_weaken (P Q : Z -> Z -> Prop) cs cs' img img' :
  (forall X Y, P X Y -> Q X Y) -> (forall v, In v cs -> In v cs') ->
  touched Wd Ht P cs img img' -> touched Wd Ht Q cs' img img'.
Proof.
  intros HPQ Hcs [L T]. split; [done|].
  intros X Y HX HY. destruct (T X Y HX HY) as [E|[HP Hin]]; [by left|right]. auto.
Qed.

Lemma touched_sized P cs img img' : sized img -> touched Wd Ht P cs img img' -> sized img'.
Proof. intros Hs [Hl _]. unfold DrawSpec.sized in *. congruence. Qed.

Lemma painted_touched (B : Z -> Z -> bool) (P : Z -> Z -> Prop) c img img' :
  (forall X Y, B X Y = true -> P X Y) ->
  painted Wd Ht B c img img' -> touched Wd Ht P [c] img img'.
Proof.
  intros HBP [L Hp]. split; [done|].
  intros X Y HX HY. rewrite Hp by done. destruct (B X Y) eqn:E; [right|by left].
  split; [by apply HBP|by left].
Qed.

Lemma draw_pixel_spec img x y c :
  sized img -> (0 <= x < Wd)%Z -> (0 <= y < Ht)%Z -> (0 <= c < 256)%Z ->
  (x <= 32767)%Z -> (y <= 32767)%Z ->
  exists img', draw_pixel LW LH img x y c = Done img' /\
    painted Wd Ht (fun X Y => (X =? x)%Z && (Y =? y)%Z) c img img'.
Proof.
  intros Hs Hx Hy Hc Hx' Hy'. unfold draw_pixel. rewrite !i16_id, u8_byte by lia.
  destruct (Z.ltb_spec x 0); [lia|]. destruct (Z.leb_spec Wd x); [lia|].
  destruct (Z.ltb_spec y 0); [lia|]. destruct (Z.leb_spec Ht y); [lia|].
  cbn [orb]. by apply poke_pix.
Qed.

Section Line.
Variables x0 y0 x2 y2 c : Z.
Hypothesis Hx0 : (-5000 <= x0 <= 5000)%Z.
Hypothesis Hy0 : (-5000 <= y0 <= 5000)%Z.
Hypothesis Hx2 : (-5000 <= x2 <= 5000)%Z.
Hypothesis Hy2 : (-5000 <= y2 <= 5000)%Z.
Hypothesis Hc : (0 <= c < 256)%Z.

(** The distances and the step directions, as any values that lead from the
    start to the end. *)
Variables dx DY sx sy : Z.
Hypothesis Hdx : (0 <= dx <= 10000)%Z.
Hypothesis HDY : (0 <= DY <= 10000)%Z.
Hypothesis Hsx : sx = 1%Z \/ sx = (-1)%Z.
Hypothesis Hsy : sy = 1%Z \/ sy = (-1)%Z.
Hypothesis Hex : x2 = (x0 + sx * dx)%Z.
Hypothesis Hey : y2 = (y0 + sy * DY)%Z.

Lemma line_point_x X :
  (0 <= X <= dx)%Z ->
  (-5000 <= x0 + sx * X <= 5000)%Z /\
  (Z.min x0 x2 <= x0 + sx * X <= Z.max x0 x2)%Z /\
  (x0 + sx * X = x2 <-> X = dx)%Z.
Proof. intros HX. destruct Hsx as [E|E]; rewrite E in *; lia. Qed.

Lemma line_point_y Y :
  (0 <= Y <= DY)%Z ->
  (-5000 <= y0 + sy * Y <= 5000)%Z /\
  (Z.min y0 y2 <= y0 + sy * Y <= Z.max y0 y2)%Z /\
  (y0 + sy * Y = y2 <-> Y = DY)%Z.
Proof. intros HY. destruct Hsy as [E|E]; rewrite E in *; lia. Qed.

Lemma draw_line_loop_spec :
  forall fuel img X Y e, sized img ->
    (0 <= X <= dx)%Z -> (0 <= Y <= DY)%Z ->
    (dx - X + (DY - Y) < Z.of_nat fuel)%Z ->
    e = ((Y + 1) * dx - (X + 1) * DY)%Z ->
    (- (3 * DY) <= 2 * e <= 3 * dx)%Z ->
    exists img',
      draw_line_loop LW LH fuel img (x0 + sx * X) (y0 + sy * Y) x2 y2 dx (- DY) sx sy e c
      = Done img' /\
      touched Wd Ht (in_box x0 y0 x2 y2) [c] img img' /\
      (forall X' Y', (0 <= X' < Wd)%Z -> (0 <= Y' < Ht)%Z ->
         pix Wd img X' Y' = c -> pix Wd img' X' Y' = c) /\
      ((0 <= x0 + sx * X < Wd)%Z -> (0 <= y0 + sy * Y < Ht)%Z ->
         pix Wd img' (x0 + sx * X) (y0 + sy * Y) = c) /\
      ((0 <= x2 < Wd)%Z -> (0 <= y2 < Ht)%Z -> pix Wd img' x2 y2 = c).
Proof.
  assert (Hsxr : (-1 <= sx <= 1)%Z) by lia.
  assert (Hsyr : (-1 <= sy <= 1)%Z) by lia.
  induction fuel as [|fuel IH]; intros img X Y e Hs HX HY Hf He Hb; [lia|].
  cbn [draw_line_loop].
  destruct (line_point_x X HX) as (Hxr & Hxb & Ex).
  destruct (line_point_y Y HY) as (Hyr & Hyb & Ey).
  assert (Nx : (x0 + sx * (X + 1) = x0 + sx * X + sx)%Z) by ring.
  assert (Ny : (y0 + sy * (Y + 1) = y0 + sy * Y + sy)%Z) by ring.
  remember (x0 + sx * X)%Z as x eqn:Ox. remember (y0 + sy * Y)%Z as y eqn:Oy.
  assert (Hbox : in_box x0 y0 x2 y2 x y) by (by unfold in_box).
  clear Hxb Hyb.
  assert (Hstep : exists img1,
    (if ((0 <=? x)%Z && (x <? Wd)%Z && (0 <=? y)%Z && (y <? Ht)%Z)
     then draw_pixel LW LH img x y c else Done img) = Done img1 /\
    touched Wd Ht (in_box x0 y0 x2 y2) [c] img img1 /\
    (forall X' Y', (0 <= X' < Wd)%Z -> (0 <= Y' < Ht)%Z ->
       pix Wd img X' Y' = c -> pix Wd img1 X' Y' = c) /\
    ((0 <= x < Wd)%Z -> (0 <= y < Ht)%Z -> pix Wd img1 x y = c)).
  { clear IH Ex Ey Nx Ny Ox Oy Hf He Hb.
    destruct (Z.leb_spec 0 x) as [G1|G1], (Z.ltb_spec x Wd) as [G2|G2],
             (Z.leb_spec 0 y) as [G3|G3], (Z.ltb_spec y Ht) as [G4|G4];
      cbn [andb];
      try (exists img; split; [done|]; split; [apply touched_refl|]; split; [done|lia]).
    destruct (draw_pixel_spec img x y c) as (img1 & E & Hp);
      [done|lia|lia|done|lia|lia|].
    exists img1. split; [done|]. split.
    - eapply painted_touched; [|exact Hp]. intros X' Y' HB. cbn in HB.
      destruct (Z.eqb_spec X' x), (Z.eqb_spec Y' y); try discriminate. by subst.
    - destruct Hp as [_ Hp]. split.
      + intros X' Y' HX' HY' E'. rewrite Hp by done. by destruct (_ && _).
      + intros HxW HyH. rewrite Hp by done. by rewrite !Z.eqb_refl. }
  destruct Hstep as (img1 & -> & Ht1 & Hk1 & Hc1). cbn [bind].
  assert (Hs1 : sized img1) by (by eapply touched_sized).
  clear Hbox Hs.
  destruct (Z.eqb_spec x x2) as [Exx|Nxx]; cbn [andb].
  - destruct (Z.eqb_spec y y2) as [Eyy|Nyy].
    + exists img1. split; [done|]. split; [done|]. split; [done|]. split; [done|].
      rewrite <- Exx, <- Eyy. exact Hc1.
    + (* the end column is reached: only y steps remain *)
      assert (HXd : X = dx) by (by apply Ex).
      assert (HYd : (Y < DY)%Z).
      { destruct (Z.eq_dec Y DY) as [E'|]; [|lia]. exfalso. by apply Nyy, Ey. }
      clear Ex Ey Exx Nyy.
      assert (Hnx : (2 * e < - DY)%Z).
      { assert (Hm : (0 <= (DY - (Y + 1)) * dx)%Z) by (apply Z.mul_nonneg_nonneg; lia).
        subst e X. clear - Hm HYd HY. lia. }
      rewrite (i16_id (2 * e)) by lia.
      destruct (Z.leb_spec (- DY) (2 * e)); [lia|].
      destruct (Z.leb_spec (2 * e) dx); [|lia].
      rewrite (i16_id (e + dx)), (i16_id (y + sy)) by lia.
      destruct (IH img1 X (Y + 1)%Z (e + dx)%Z) as (img' & E & Ht' & Hk' & _ & He');
        [done|lia|lia|lia|lia|lia|].
      rewrite Ny, <- Ox in E.
      exists img'. split; [exact E|]. split; [by eapply touched_trans|].
      split; [auto|]. split; [auto|exact He'].
  - assert (HXd : (X < dx)%Z).
    { destruct (Z.eq_dec X dx) as [E'|]; [|lia]. exfalso. by apply Nxx, Ex. }
    assert (HYd' : (2 * e <= dx -> Y < DY)%Z).
    { intros Hys. destruct (Z.eq_dec Y DY) as [E|]; [|lia]. exfalso. subst e.
      rewrite E in *.
      assert (Hm : (0 <= DY * (dx - X - 1))%Z) by (apply Z.mul_nonneg_nonneg; lia).
      clear - Hm Hys HXd HX. lia. }
    clear Ex Ey Nxx.
    rewrite (i16_id (2 * e)) by lia.
    destruct (Z.leb_spec (- DY) (2 * e)) as [Hxs|Hxs].
    + destruct (Z.leb_spec (2 * e) dx) as [Hys|Hys].
      * (* both steps *)
        specialize (HYd' Hys).
        rewrite (i16_id (e + - DY)) by lia.
        rewrite (i16_id (e + - DY + dx)), (i16_id (x + sx)), (i16_id (y + sy)) by lia.
        destruct (IH img1 (X + 1)%Z (Y + 1)%Z (e + - DY + dx)%Z)
          as (img' & E & Ht' & Hk' & _ & He'); [done|lia|lia|lia|lia|lia|].
        rewrite Nx, Ny in E.
        exists img'. split; [exact E|]. split; [by eapply touched_trans|].
        split; [auto|]. split; [auto|exact He'].
      * clear HYd'.
        rewrite (i16_id (e + - DY)), (i16_id (x + sx)) by lia.
        destruct (IH img1 (X + 1)%Z Y (e + - DY)%Z)
          as (img' & E & Ht' & Hk' & _ & He'); [done|lia|lia|lia|lia|lia|].
        rewrite Nx, <- Oy in E.
        exists img'. split; [exact E|]. split; [by eapply touched_trans|].
        split; [auto|]. split; [auto|exact He'].
    + destruct (Z.leb_spec (2 * e) dx) as [Hys|Hys]; [|lia].
      specialize (HYd' Hys).
      rewrite (i16_id (e + dx)), (i16_id (y + sy)) by lia.
      destruct (IH img1 X (Y + 1)%Z (e + dx)%Z) as (img' & E & Ht' & Hk' & _ & He');
        [done|lia|lia|lia|lia|lia|].
      rewrite Ny, <- Ox in E.
      exists img'. split; [exact E|]. split; [by eapply touched_trans|].
      split; [auto|]. split; [auto|exact He'].
Qed.

End Line.

Lemma draw_line_spec fuel img x0 y0 x2 y2 c :
  (-5000 <= x0 <= 5000)%Z -> (-5000 <= y0 <= 5000)%Z ->
  (-5000 <= x2 <= 5000)%Z -> (-5000 <= y2 <= 5000)%Z -> (0 <= c < 256)%Z ->
  sized img -> (Z.abs (x2 - x0) + Z.abs (y2 - y0) < Z.of_nat fuel)%Z ->
  exists img', draw_line LW LH fuel img x0 y0 x2 y2 c = Done img' /\
    touched Wd Ht (in_box x0 y0 x2 y2) [c] img img' /\
    ((0 <= x0 < Wd)%Z -> (0 <= y0 < Ht)%Z -> pix Wd img' x0 y0 = c) /\
    ((0 <= x2 < Wd)%Z -> (0 <= y2 < Ht)%Z -> pix Wd img' x2 y2 = c).
Proof.
  intros Hx0 Hy0 Hx2 Hy2 Hc Hs Hf. unfold draw_line. rewrite !i16_id, u8_byte by lia.
  set (sx := if (x0 <? x2)%Z then 1%Z else (-1)%Z).
  set (sy := if (y0 <? y2)%Z then 1%Z else (-1)%Z).
  destruct (draw_line_loop_spec x0 y0 x2 y2 c Hx0 Hy0 Hx2 Hy2 Hc
              (Z.abs (x2 - x0)) (Z.abs (y2 - y0)) sx sy) with
    (fuel := fuel) (img := img) (X := 0%Z) (Y := 0%Z)
    (e := (Z.abs (x2 - x0) - Z.abs (y2 - y0))%Z)
    as (img' & E & Ht' & _ & H0 & H2);
    try (unfold sx, sy; destruct (Z.ltb_spec x0 x2), (Z.ltb_spec y0 y2); lia); [done|].
  replace (x0 + sx * 0)%Z with x0 in * by lia.
  replace (y0 + sy * 0)%Z with y0 in * by lia.
  replace (Z.abs (x2 - x0) + - Z.abs (y2 - y0))%Z
    with (Z.abs (x2 - x0) - Z.abs (y2 - y0))%Z by lia.
  exists img'. done.
Qed.

(** *** The min/max markers *)

Ltac i16_norm :=
  repeat match goal with
  | |- context [i16 ?v] => rewrite (i16_id v) by lia
  end.

Lemma bind_touched P cs img (m : outcome (list Z)) (k : list Z -> outcome (list Z)) :
  sized img ->
  (exists img1, m = Done img1 /\ touched Wd Ht P cs img img1) ->
  (forall img1, sized img1 ->
     exists img', k img1 = Done img' /\ touched Wd Ht P cs img1 img') ->
  exists img', bind m k = Done img' /\ touched Wd Ht P cs img img'.
Proof.
  intros Hs (img1 & -> & T1) Hk. cbn [bind].
  destruct (Hk img1) as (img' & E & T2); [by eapply touched_sized|].
  exists img'. split; [done|]. by eapply touched_trans.
Qed.

Lemma draw_hline_touched (P : Z -> Z -> Prop) cs fuel img x1 x2 y c :
  sized img ->
  (-32768 <= x1 <= 32767)%Z -> (-32768 <= x2 < 32767)%Z -> (-32768 <= y <= 32767)%Z ->
  (0 <= c < 256)%Z -> (Z.max 0 (x2 - x1 + 1) < Z.of_nat fuel)%Z ->
  (forall X, (x1 <= X <= x2)%Z -> P X y) -> In c cs ->
  exists img', draw_hline LW LH fuel img x1 x2 y c = Done img' /\
    touched Wd Ht P cs img img'.
Proof.
  intros Hs Hx1 Hx2 Hy Hc Hf HP Hin.
  destruct (draw_hline_spec fuel img x1 x2 y c) as (img' & E & Hp); try done.
  exists img'. split; [done|].
  eapply touched_weaken with (cs := [c]); [intros X Y HXY; exact HXY| |].
  - intros v [<-|[]]. done.
  - eapply painted_touched; [|exact Hp]. intros X Y HB. cbn in HB.
    destruct (Z.eqb_spec Y y), (Z.leb_spec x1 X), (Z.leb_spec X x2); try discriminate.
    subst. apply HP. lia.
Qed.

Lemma draw_line_touched (P : Z -> Z -> Prop) cs fuel img x0 y0 x2 y2 c :
  (-5000 <= x0 <= 5000)%Z -> (-5000 <= y0 <= 5000)%Z ->
  (-5000 <= x2 <= 5000)%Z -> (-5000 <= y2 <= 5000)%Z -> (0 <= c < 256)%Z ->
  sized img -> (Z.abs (x2 - x0) + Z.abs (y2 - y0) < Z.of_nat fuel)%Z ->
  (forall X Y, in_box x0 y0 x2 y2 X Y -> P X Y) -> In c cs ->
  exists img', draw_line LW LH fuel img x0 y0 x2 y2 c = Done img' /\
    touched Wd Ht P cs img img'.
Proof.
  intros Hx0 Hy0 Hx2 Hy2 Hc Hs Hf HP Hin.
  destruct (draw_line_spec fuel img x0 y0 x2 y2 c) as (img' & E & T & _); try done.
  exists img'. split; [done|].
  eapply touched_weaken; [exact HP| |exact T]. intros v [<-|[]]. done.
Qed.

Lemma render_min_marker_touched fuel lep img :
  sized img -> (0 <= lep_min_x lep <= 2000)%Z -> (0 <= lep_min_y lep <= 2000)%Z ->
  20 <= fuel ->
  exists img', render_min_marker LW LH fuel lep img = Done img' /\
    touched Wd Ht (near 6 (2 * lep_min_x lep) (2 * lep_min_y lep)) [255; 0]%Z img img'.
Proof.
  intros Hs Hx Hy Hf. unfold render_min_marker, IMG_BUF_MULT_FACTOR, IMG_MM_MARKER_SIZE.
  change (10 ÷ 2)%Z with 5%Z. cbv zeta. i16_norm.
  repeat (apply bind_touched; [done| |clear dependent img; intros img Hs]);
    first [ apply draw_hline_touched | apply draw_line_touched ];
    try done; try lia; try (cbn; tauto);
    unfold near, in_box; intros; lia.
Qed.

Lemma render_max_marker_touched fuel lep img :
  sized img -> (0 <= lep_max_x lep <= 2000)%Z -> (0 <= lep_max_y lep <= 2000)%Z ->
  20 <= fuel ->
  exists img', render_max_marker LW LH fuel lep img = Done img' /\
    touched Wd Ht (near 6 (2 * lep_max_x lep) (2 * lep_max_y lep)) [255; 0]%Z img img'.
Proof.
  intros Hs Hx Hy Hf. unfold render_max_marker, IMG_BUF_MULT_FACTOR, IMG_MM_MARKER_SIZE.
  change (10 ÷ 2)%Z with 5%Z. cbv zeta. i16_norm.
  repeat (apply bind_touched; [done| |clear dependent img; intros img Hs]);
    first [ apply draw_hline_touched | apply draw_line_touched ];
    try done; try lia; try (cbn; tauto);
    unfold near, in_box; intros; lia.
Qed.

(** *** The properties *)

(** X3. [draw_hline] draws the part of the span [x1..x2] of row [y] that lies
    inside the image and nothing else: for [int16_t] arguments with
    [x2 < 32767] and an image buffer of [IMG_BUF_WIDTH*IMG_BUF_HEIGHT]
    bytes, it returns after at most [x2 - x1 + 2] loop tests, never writes
    outside the buffer, sets the pixels [(X, y)] with [x1 <= X <= x2] to [c]
    and leaves every other pixel as it was; a row outside the image draws
    nothing. *)
Theorem draw_hline_clips_to_image fuel img x1 x2 y c :
  sized img ->
  (-32768 <= x1 <= 32767)%Z -> (-32768 <= x2 < 32767)%Z -> (-32768 <= y <= 32767)%Z ->
  (0 <= c < 256)%Z -> (Z.max 0 (x2 - x1 + 1) < Z.of_nat fuel)%Z ->
  exists img', draw_hline LW LH fuel img x1 x2 y c = Done img' /\
    painted Wd Ht (fun X Y => (Y =? y)%Z && (x1 <=? X)%Z && (X <=? x2)%Z) c img img'.
Proof. apply draw_hline_spec. Qed.

(** X4. [draw_vline] draws the part of the span [y1..y2] of column [x] that
    lies inside the image and nothing else: for [int16_t] arguments with
    [y2 < 32767] it returns, never writes outside the buffer, sets the
    pixels [(x, Y)] with [y1 <= Y <= y2] to [c] and leaves every other pixel
    as it was; a column outside the image draws nothing. *)
Theorem draw_vline_clips_to_image fuel img x y1 y2 c :
  sized img ->
  (-32768 <= x <= 32767)%Z -> (-32768 <= y1 <= 32767)%Z -> (-32768 <= y2 < 32767)%Z ->
  (0 <= c < 256)%Z -> (Z.max 0 (y2 - y1 + 1) < Z.of_nat fuel)%Z ->
  exists img', draw_vline LW LH fuel img x y1 y2 c = Done img' /\
    painted Wd Ht (fun X Y => (X =? x)%Z && (y1 <=? Y)%Z && (Y <=? y2)%Z) c img img'.
Proof. apply draw_vline_spec. Qed.

(** X5. [draw_fill_rect] fills the part of the rectangle with corner
    [(x, y)], width [w] and height [h] that lies inside the image and
    nothing else: it returns, never writes outside the buffer, sets the
    pixels [(X, Y)] with [x <= X <= x + w - 1] and [y <= Y < y + h] to [c]
    and leaves every other pixel as it was; a width or height of 0 or less
    draws nothing. *)
Theorem draw_fill_rect_clips_to_image fuel img x y w h c :
  sized img ->
  (-32768 <= x <= 32767)%Z -> (-32768 <= y <= 32767)%Z ->
  (-32768 <= w <= 32767)%Z -> (-32768 <= h <= 32767)%Z ->
  (-32768 <= x + w - 1 < 32767)%Z -> (y + h <= 32767)%Z -> (0 <= c < 256)%Z ->
  (Z.max 0 w < Z.of_nat fuel)%Z -> (Z.max 0 h < Z.of_nat fuel)%Z ->
  exists img', draw_fill_rect LW LH fuel img x y w h c = Done img' /\
    painted Wd Ht (fun X Y => (x <=? X)%Z && (X <=? x + w - 1)%Z
                              && (y <=? Y)%Z && (Y <? y + h)%Z) c img img'.
Proof.
  intros Hs Hx Hy Hw Hh Hxw Hyh Hc Hfw Hfh. unfold draw_fill_rect.
  rewrite !i16_id, u8_byte by lia.
  apply draw_fill_rect_loop_spec; done || lia.
Qed.

(** X6. [draw_line] terminates and stays inside the rectangle spanned by its
    end points: for end points with coordinates between -5000 and 5000 it
    returns after at most [|x2-x1| + |y2-y1| + 1] passes of its loop, never
    writes outside the buffer, changes only pixels of the image that lie in
    that rectangle, sets those it changes to [c], and sets both end points to
    [c] when they lie inside the image. *)
Theorem draw_line_reaches_end_point fuel img x1 y1 x2 y2 c :
  (-5000 <= x1 <= 5000)%Z -> (-5000 <= y1 <= 5000)%Z ->
  (-5000 <= x2 <= 5000)%Z -> (-5000 <= y2 <= 5000)%Z -> (0 <= c < 256)%Z ->
  sized img -> (Z.abs (x2 - x1) + Z.abs (y2 - y1) < Z.of_nat fuel)%Z ->
  exists img', draw_line LW LH fuel img x1 y1 x2 y2 c = Done img' /\
    touched Wd Ht (in_box x1 y1 x2 y2) [c] img img' /\
    ((0 <= x1 < Wd)%Z -> (0 <= y1 < Ht)%Z -> pix Wd img' x1 y1 = c) /\
    ((0 <= x2 < Wd)%Z -> (0 <= y2 < Ht)%Z -> pix Wd img' x2 y2 = c).
Proof. apply draw_line_spec. Qed.

(** X7. [render_min_max_markers] touches the image only next to the two
    extremes: for minimum and maximum positions with coordinates up to 2000
    it returns, never writes outside the buffer, changes only pixels within
    6 pixels (in both directions) of the doubled minimum position or of the
    doubled maximum position, and every pixel it changes becomes 255 or
    0. *)
Theorem markers_stay_near_extremes fuel lep img :
  sized img ->
  (0 <= lep_min_x lep <= 2000)%Z -> (0 <= lep_min_y lep <= 2000)%Z ->
  (0 <= lep_max_x lep <= 2000)%Z -> (0 <= lep_max_y lep <= 2000)%Z ->
  20 <= fuel ->
  exists img', render_min_max_markers LW LH fuel lep img = Done img' /\
    touched Wd Ht (fun X Y => near 6 (2 * lep_min_x lep) (2 * lep_min_y lep) X Y \/
                              near 6 (2 * lep_max_x lep) (2 * lep_max_y lep) X Y)
            [255; 0]%Z img img'.
Proof.
  intros Hs Hnx Hny Hxx Hxy Hf. unfold render_min_max_markers.
  apply bind_touched; [done| |].
  - destruct (render_min_marker_touched fuel lep img) as (img1 & E & T); try done.
    exists img1. split; [done|]. eapply touched_weaken; [| |exact T]; [|done].
    intros X Y HXY. by left.
  - intros img1 Hs1.
    destruct (render_max_marker_touched fuel lep img1) as (img' & E & T); try done.
    exists img'. split; [done|]. eapply touched_weaken; [| |exact T]; [|done].
    intros X Y HXY. by right.
Qed.

End Image.
(** *** The properties on a 4 by 2 and a 6 by 6 image *)

Lemma draw_hline_witness :
  exists img', draw_hline 2 1 6 (replicate 8 7%Z) (-1) 2 1 255 = Done img' /\
    painted (IMG_BUF_WIDTH 2) (IMG_BUF_HEIGHT 1)
            (fun X Y => (Y =? 1)%Z && (-1 <=? X)%Z && (X <=? 2)%Z) 255 (replicate 8 7%Z) img'.
Proof.
  apply (draw_hline_clips_to_image 2 1 6 (replicate 8 7%Z) (-1) 2 1 255);
    [reflexivity|lia..].
Defined.

Lemma draw_vline_witness :
  exists img', draw_vline 2 1 6 (replicate 8 7%Z) 3 (-2) 1 255 = Done img' /\
    painted (IMG_BUF_WIDTH 2) (IMG_BUF_HEIGHT 1)
            (fun X Y => (X =? 3)%Z && (-2 <=? Y)%Z && (Y <=? 1)%Z) 255 (replicate 8 7%Z) img'.
Proof.
  apply (draw_vline_clips_to_image 2 1 6 (replicate 8 7%Z) 3 (-2) 1 255);
    [reflexivity|lia..].
Defined.

Lemma draw_fill_rect_witness :
  exists img', draw_fill_rect 2 1 6 (replicate 8 7%Z) 2 (-1) 4 2 120 = Done img' /\
    painted (IMG_BUF_WIDTH 2) (IMG_BUF_HEIGHT 1)
            (fun X Y => (2 <=? X)%Z && (X <=? 2 + 4 - 1)%Z && (-1 <=? Y)%Z && (Y <? -1 + 2)%Z)
            120 (replicate 8 7%Z) img'.
Proof.
  apply (draw_fill_rect_clips_to_image 2 1 6 (replicate 8 7%Z) 2 (-1) 4 2 120);
    [reflexivity|lia..].
Defined.

Lemma draw_line_witness :
  exists img', draw_line 2 1 5 (replicate 8 7%Z) 0 0 3 1 255 = Done img' /\
    touched (IMG_BUF_WIDTH 2) (IMG_BUF_HEIGHT 1) (in_box 0 0 3 1) [255%Z]
            (replicate 8 7%Z) img' /\
    ((0 <= 0 < IMG_BUF_WIDTH 2)%Z -> (0 <= 0 < IMG_BUF_HEIGHT 1)%Z ->
       pix (IMG_BUF_WIDTH 2) img' 0 0 = 255%Z) /\
    ((0 <= 3 < IMG_BUF_WIDTH 2)%Z -> (0 <= 1 < IMG_BUF_HEIGHT 1)%Z ->
       pix (IMG_BUF_WIDTH 2) img' 3 1 = 255%Z).
Proof.
  apply (draw_line_reaches_end_point 2 1 5 (replicate 8 7%Z) 0 0 3 1 255);
    [lia|lia|lia|lia|lia|reflexivity|lia].
Defined.

Lemma markers_witness :
  let lep := {| telem_valid := true; lep_min_val := 3; lep_min_x := 0; lep_min_y := 0;
                lep_max_val := 9; lep_max_x := 2; lep_max_y := 2;
                lep_bufferP := replicate 9 5%Z; lep_telemP := [] |} in
  exists img', render_min_max_markers 3 3 20 lep (replicate 36 7%Z) = Done img' /\
    touched (IMG_BUF_WIDTH 3) (IMG_BUF_HEIGHT 3)
            (fun X Y => near 6 (2 * lep_min_x lep) (2 * lep_min_y lep) X Y \/
                        near 6 (2 * lep_max_x lep) (2 * lep_max_y lep) X Y)
            [255; 0]%Z (replicate 36 7%Z) img'.
Proof.
  intros lep.
  apply (markers_stay_near_extremes 3 3 20 lep (replicate 36 7%Z));
    [reflexivity|cbn; lia..].
Defined.

End DrawProofs.

(** ** Persistent parameters *)
Module PsProofs.
Import Ps PsInit.

(** X8. [ps_set_parm] followed by [ps_get_parm]: for one of the three
    parameter indices the value set is the value read back, the other two
    parameters read as before, and exactly one NVS write, of that value under
    the key of the index, is added; for any other index the set changes
    nothing and the get returns 0. *)
Theorem ps_set_then_get (q : ps_vars) (index val : Z) :
  ((0 <= index < 3)%Z ->
     ps_get_parm (ps_set_parm q index val) index = val /\
     (forall j, j <> index -> ps_get_parm (ps_set_parm q index val) j = ps_get_parm q j) /\
     nvs_writes (ps_set_parm q index val) = nvs_writes q ++ [(key_of index, val)]) /\
  (~ (0 <= index < 3)%Z ->
     ps_set_parm q index val = q /\ ps_get_parm q index = 0%Z).
Proof.
  unfold ps_get_parm, ps_set_parm, key_of, PS_PARM_PALETTE_MARKER, PS_PARM_EMISSIVITY,
    PS_PARM_UNITS.
  split; intros Hi.
  - assert (Hc : (index = 0 \/ index = 1 \/ index = 2)%Z) by lia.
    destruct Hc as [-> | [-> | ->]]; simpl; (split; [reflexivity|]);
      (split; [|reflexivity]); intros j Hj;
      destruct (Z.eqb_spec j 0), (Z.eqb_spec j 1), (Z.eqb_spec j 2);
      try lia; reflexivity.
  - destruct (Z.eqb_spec index 0); [lia|]. destruct (Z.eqb_spec index 1); [lia|].
    destruct (Z.eqb_spec index 2); [lia|]. done.
Qed.

Section Init.
Variables OK NO_FREE_PAGES NEW_VERSION NOT_FOUND : Z.
Local Abbreviation init := (ps_init OK NO_FREE_PAGES NEW_VERSION NOT_FOUND).
Local Abbreviation load := (ps_load NOT_FOUND).

Lemma ps_load_value ans key def w :
  (load ans key def w).1 = (if (ans.1 =? NOT_FOUND)%Z then def else ans.2) /\
  (load ans key def w).2
  = w ++ (if (ans.1 =? NOT_FOUND)%Z then [(key, def)] else []).
Proof.
  unfold ps_load. destruct ans as [err val]. cbn [fst snd].
  destruct (err =? NOT_FOUND)%Z; cbn [fst snd]; by rewrite ?app_nil_r.
Qed.

(** X9. [ps_init] on any answers of the NVS library.  It erases the flash
    only when the first [nvs_flash_init] reports no free pages or a new
    version, and then fails unless both the erase and the second
    initialisation succeed; it fails when [nvs_open] fails; in every other
    case it succeeds, read errors included.  When it succeeds, an entry
    reported as not found is cached with its default (0, 97, 0) and written
    with it, in the order palette/marker, emissivity, units; any other entry
    is cached as the read left it and nothing is written for it. *)
Theorem ps_init_outcome (a : nvs_answers) :
  let r := init a in
  let erase := ((r_flash_init a =? NO_FREE_PAGES) || (r_flash_init a =? NEW_VERSION))%Z in
  let missing (ans : Z * Z) := (ans.1 =? NOT_FOUND)%Z in
  (In nvs_flash_erase r.2 <-> erase = true) /\
  (r.1.1 = (if erase then (r_flash_erase a =? OK)%Z && (r_flash_reinit a =? OK)%Z
            else true) && (r_open a =? OK)%Z) /\
  (r.1.1 = true ->
     val_palette_marker r.1.2
     = (if missing (r_get_palette_marker a) then PS_PARAM_PALETTE_MARKER_DEF
        else (r_get_palette_marker a).2) /\
     val_emissivity r.1.2
     = (if missing (r_get_emissivity a) then PS_PARAM_EMISSIVITY_DEF
        else (r_get_emissivity a).2) /\
     val_units r.1.2
     = (if missing (r_get_units a) then PS_PARAM_UNITS_DEF else (r_get_units a).2) /\
     nvs_writes r.1.2
     = (if missing (r_get_palette_marker a)
        then [(palette_marker_info_key, PS_PARAM_PALETTE_MARKER_DEF)] else [])
       ++ (if missing (r_get_emissivity a)
           then [(emissivity_info_key, PS_PARAM_EMISSIVITY_DEF)] else [])
       ++ (if missing (r_get_units a)
           then [(units_info_key, PS_PARAM_UNITS_DEF)] else [])).
Proof.
  intros r erase missing. unfold r, erase, missing, ps_init.
  destruct a as [fi fe fr fo [e1 v1] [e2 v2] [e3 v3]].
  cbn [r_flash_init r_flash_erase r_flash_reinit r_open r_get_palette_marker
       r_get_emissivity r_get_units fst snd].
  unfold ps_load.
  destruct ((fi =? NO_FREE_PAGES)%Z || (fi =? NEW_VERSION)%Z);
    destruct (fe =? OK)%Z, (fr =? OK)%Z, (fo =? OK)%Z,
      (e1 =? NOT_FOUND)%Z, (e2 =? NOT_FOUND)%Z, (e3 =? NOT_FOUND)%Z;
    cbn [negb andb app fst snd val_palette_marker val_emissivity val_units nvs_writes];
    (split; [first [ split; [intros _; reflexivity|intros _; cbn [In]; auto 6]
                   | split; [cbn [In]; intros Hin; exfalso; intuition discriminate
                            |intros Hf; discriminate Hf] ]|]);
    (split; [reflexivity|]); intros Hr; try discriminate Hr; done.
Qed.

End Init.
End PsProofs.

(** ** The parameter session: invariants *)
Module SessionProofs.
Import Render Ps Vid SessionSpec.

(** *** The emissivity table *)

Lemma emissivity_index_range e : (0 <= _vid_get_emissivity_index e <= 22)%Z.
Proof.
  unfold _vid_get_emissivity_index, parm_e_value. cbn [emissivity_index_from].
  unfold NUM_E_PARM_VALS.
  repeat match goal with |- context [if ?c then _ else _] => destruct c end; cbn; lia.
Qed.

Lemma parm_e_value_at_in v : (0 <= v <= 22)%Z -> In (parm_e_value_at v) parm_e_value.
Proof.
  intros Hv. unfold parm_e_value_at. destruct (Z.ltb_spec v 0); [lia|].
  apply nth_In. unfold parm_e_value. cbn [length]. lia.
Qed.

Lemma emissivity_index_of_entry i :
  (0 <= i <= 22)%Z -> _vid_get_emissivity_index (parm_e_value_at i) = i.
Proof.
  intros Hi.
  assert (Hc : In i [0; 1; 2; 3; 4; 5; 6; 7; 8; 9; 10; 11; 12; 13; 14; 15; 16; 17; 18;
                     19; 20; 21; 22]%Z) by (cbn; lia).
  cbn in Hc. repeat (destruct Hc as [<-|Hc]; [reflexivity|]). destruct Hc.
Qed.

Lemma emissivity_index_sound e :
  In e parm_e_value -> parm_e_value_at (_vid_get_emissivity_index e) = e.
Proof.
  intros Hin. cbn in Hin.
  repeat (destruct Hin as [<-|Hin]; [reflexivity|]). destruct Hin.
Qed.

Lemma emissivity_index_fallback e :
  ~ In e parm_e_value -> _vid_get_emissivity_index e = (NUM_E_PARM_VALS - 1)%Z.
Proof.
  intros Hnin. unfold _vid_get_emissivity_index, parm_e_value in *.
  cbn [emissivity_index_from].
  repeat match goal with
         | |- context [(?a =? ?b)%Z] =>
             destruct (Z.eqb_spec a b); [exfalso; apply Hnin; cbn; lia|]
         end.
  reflexivity.
Qed.

(** X10. [_vid_get_emissivity_index] inverts the emissivity table: the index
    of the [i]-th entry is [i]; an emissivity that is in the table is found
    at the index returned; any other emissivity yields the last index (the
    entry 100); and the index returned is always inside the table. *)
Theorem emissivity_index_inverts_table :
  (forall i, (0 <= i < NUM_E_PARM_VALS)%Z ->
     _vid_get_emissivity_index (parm_e_value_at i) = i) /\
  (forall e, In e parm_e_value -> parm_e_value_at (_vid_get_emissivity_index e) = e) /\
  (forall e, ~ In e parm_e_value ->
     _vid_get_emissivity_index e = (NUM_E_PARM_VALS - 1)%Z /\
     parm_e_value_at (_vid_get_emissivity_index e) = 100%Z) /\
  (forall e, (0 <= _vid_get_emissivity_index e < NUM_E_PARM_VALS)%Z).
Proof.
  split; [intros i Hi; apply emissivity_index_of_entry; unfold NUM_E_PARM_VALS in Hi; lia|].
  split; [exact emissivity_index_sound|]. split.
  - intros e He. rewrite (emissivity_index_fallback e He). split; reflexivity.
  - intros e. pose proof (emissivity_index_range e). unfold NUM_E_PARM_VALS. lia.
Qed.

(** *** One pass of the parameter half *)

Ltac eval_notifications :=
  repeat match goal with
         | |- context [Notification ?a ?b] =>
             let v := eval vm_compute in (Notification a b) in
             change (Notification a b) with v
         end; cbv iota.

Ltac split_ifs :=
  repeat match goal with |- context [if ?c then _ else _] => destruct c end.

Ltac zcases :=
  repeat match goal with
  | |- context [(?a <=? ?b)%Z] => destruct (Z.leb_spec a b)
  | |- context [(?a <? ?b)%Z] => destruct (Z.ltb_spec a b)
  | |- context [(?a =? ?b)%Z] => destruct (Z.eqb_spec a b)
  end.

Lemma valid_app w0 ws w :
  nvs_write_valid w -> Forall nvs_write_valid ws ->
  exists ws', (w0 ++ ws) ++ [w] = w0 ++ ws' /\ Forall nvs_write_valid ws'.
Proof.
  intros Hw Hws. exists (ws ++ [w]). split; [by rewrite app_assoc|].
  apply Forall_app. split; [done|]. by constructor.
Qed.

Lemma range_inv_init w0 q b :
  stored_valid q -> nvs_writes q = w0 -> range_inv w0 (vid_task_init q b).
Proof.
  intros [Hp Hu] Hw. unfold range_inv, stored_valid, vid_task_init, group_size,
    NUM_PARMS, NUM_M_PARM_VALS, NUM_U_PARM_VALS in *. cbn.
  repeat split; try lia. exists []. rewrite app_nil_r. split; [done|constructor].
Qed.

Ltac zeval :=
  repeat match goal with
  | |- context [(?a =? ?b)%Z] =>
      let v := eval vm_compute in (a =? b)%Z in
      lazymatch v with true => idtac | false => idtac end;
      change (a =? b)%Z with v
  | |- context [(?a <? ?b)%Z] =>
      let v := eval vm_compute in (a <? b)%Z in
      lazymatch v with true => idtac | false => idtac end;
      change (a <? b)%Z with v
  end; cbv iota.

Ltac session_cbn :=
  do 3 (zeval; cbn -[_vid_get_emissivity_index parm_e_value_at Z.quot Z.land]).

Ltac unfold_parm_step :=
  unfold parm_step, _vid_handle_notifications, _vid_eval_parm_update, parm_store_change;
  cbn [notify_parm_val_change notify_parm_sel_change set_notify parm ps
       cur_parm_index cur_parm_max_index cur_parm_value prev_parm_value
       parm_entry_timeout prev_time notify_image_1 notify_image_2];
  unfold NUM_PARMS, NUM_M_PARM_VALS, NUM_U_PARM_VALS, NUM_E_PARM_VALS,
    PARM_INDEX_EMISSIVITY, PARM_INDEX_UNITS, PARM_INDEX_MARKER,
    PS_PARM_PALETTE_MARKER, PS_PARM_EMISSIVITY, PS_PARM_UNITS.

Lemma range_inv_step w0 nv now s : range_inv w0 s -> range_inv w0 (parm_step nv now s).
Proof.
  destruct s as [n1 n2 fv fs g [idx vmax cur prev tmo ptime] q b cl].
  destruct q as [vp ve vu wr].
  unfold range_inv, stored_valid, group_size.
  cbn [parm ps cur_parm_index cur_parm_max_index cur_parm_value val_palette_marker
       val_units nvs_writes].
  intros (Hidx & Hmax & Hcur & (Hp & Hu) & ws & Hw & Hws). subst wr.
  pose proof (emissivity_index_range ve) as Hei.
  pose proof (emissivity_index_range (parm_e_value_at cur)) as Hei'.
  unfold_parm_step. unfold NUM_PARMS, NUM_M_PARM_VALS, NUM_U_PARM_VALS, NUM_E_PARM_VALS,
    PARM_INDEX_EMISSIVITY, PARM_INDEX_UNITS in *.
  assert (Hi : (idx = 0 \/ idx = 1 \/ idx = 2)%Z) by lia.
  generalize (Notification nv VID_NOTIFY_LEP_FRAME_MASK_1)
             (Notification nv VID_NOTIFY_LEP_FRAME_MASK_2)
             (Notification nv VID_NOTIFY_PARM_CHANGE_MASK)
             (Notification nv VID_NOTIFY_PARM_SELECT_MASK).
  intros b1 b2 bv bs.
  assert (Hfv : (if bv then true else fv) = true \/ (if bv then true else fv) = false)
    by (destruct bv, fv; auto).
  assert (Hfs : (if bs then true else fs) = true \/ (if bs then true else fs) = false)
    by (destruct bs, fs; auto).
  assert (Hvp : nvs_write_valid (palette_marker_info_key, cur) \/ ~ (0 <= cur < 4)%Z).
  { destruct (Z.le_gt_cases 0 cur), (Z.lt_ge_cases cur 4); try (right; lia).
    left. left. cbn. unfold NUM_M_PARM_VALS. split; [done|lia]. }
  assert (Hve : nvs_write_valid (emissivity_info_key, parm_e_value_at cur)
                \/ ~ (0 <= cur <= 22)%Z).
  { destruct (Z.le_gt_cases 0 cur), (Z.le_gt_cases cur 22); try (right; lia).
    left. right. left. cbn. split; [done|]. apply parm_e_value_at_in. lia. }
  assert (Hvu : nvs_write_valid (units_info_key, cur) \/ ~ (0 <= cur < 2)%Z).
  { destruct (Z.le_gt_cases 0 cur), (Z.lt_ge_cases cur 2); try (right; lia).
    left. right. right. cbn. unfold NUM_U_PARM_VALS. split; [done|lia]. }
  destruct Hfv as [-> | ->]; cbv iota.
  - (* a value change *)
    destruct (Z.ltb_spec vmax (cur + 1));
      destruct Hi as [-> | [-> | ->]]; subst vmax; simpl in Hcur; session_cbn; repeat split; try lia; eauto.
  - destruct Hfs as [-> | ->]; cbv iota.
    + (* a selection *)
      destruct (Z.eqb_spec cur prev);
        destruct Hi as [-> | [-> | ->]]; subst vmax; simpl in Hcur; session_cbn; repeat split; try lia;
        eauto; apply valid_app; try done;
        first [destruct Hvp as [?|?]; [done|lia] | destruct Hve as [?|?]; [done|lia]
              | destruct Hvu as [?|?]; [done|lia]].
    + (* the timer *)
      destruct (negb (tmo =? 0)%Z); cbv iota;
        [|destruct Hi as [-> | [-> | ->]]; subst vmax; simpl in Hcur; session_cbn; repeat split;
          try lia; eauto].
      destruct (tmo <=? now ÷ 1000 - ptime)%Z; cbv iota;
        [|destruct Hi as [-> | [-> | ->]]; subst vmax; simpl in Hcur; session_cbn; repeat split;
          try lia; eauto].
      destruct (Z.eqb_spec cur prev);
        destruct Hi as [-> | [-> | ->]]; subst vmax; simpl in Hcur; session_cbn; repeat split; try lia;
        eauto; apply valid_app; try done;
        first [destruct Hvp as [?|?]; [done|lia] | destruct Hve as [?|?]; [done|lia]
              | destruct Hvu as [?|?]; [done|lia]].
Qed.

Lemma gui_inv_init q b : gui_inv (vid_task_init q b).
Proof.
  unfold gui_inv, vid_task_init, stored_index, user_flags, palette_in_force,
    units_in_force, NUM_PARMS. destruct q as [vp ve vu wr].
  cbn -[Z.land]. repeat split; lia.
Qed.

Lemma gui_inv_step nv now s : gui_inv s -> gui_inv (parm_step nv now s).
Proof.
  destruct s as [n1 n2 fv fs g [idx vmax cur prev tmo ptime] q b cl].
  destruct q as [vp ve vu wr]. destruct g as [g1 g2 g3 g4 g5 g6 g7 g8].
  unfold gui_inv, stored_index, user_flags, palette_in_force, units_in_force,
    gui_set_marker_palette, gui_set_temp_unit_C.
  cbn [parm ps gui_state cur_parm_index cur_parm_value prev_parm_value
       val_palette_marker val_units val_emissivity
       black_hot_palette min_max_enable spotmeter_enable temp_unit_C].
  intros (Hidx & Hprev & Hflags).
  unfold_parm_step. unfold gui_set_marker_palette, gui_set_temp_unit_C.
  unfold NUM_PARMS, PARM_INDEX_EMISSIVITY, PARM_INDEX_UNITS, PARM_INDEX_MARKER,
    M_PARM_PALETTE_MASK, M_PARM_MARKER_MASK in *.
  assert (Hi : (idx = 0 \/ idx = 1 \/ idx = 2)%Z) by lia.
  generalize (Notification nv VID_NOTIFY_LEP_FRAME_MASK_1)
             (Notification nv VID_NOTIFY_LEP_FRAME_MASK_2)
             (Notification nv VID_NOTIFY_PARM_CHANGE_MASK)
             (Notification nv VID_NOTIFY_PARM_SELECT_MASK).
  intros b1 b2 bv bs.
  assert (Hfv : (if bv then true else fv) = true \/ (if bv then true else fv) = false)
    by (destruct bv, fv; auto).
  assert (Hfs : (if bs then true else fs) = true \/ (if bs then true else fs) = false)
    by (destruct bs, fs; auto).
  destruct Hfv as [-> | ->]; cbv iota.
  - destruct (Z.ltb_spec vmax (cur + 1));
      destruct Hi as [-> | [-> | ->]]; simpl in Hprev, Hflags; session_cbn;
      injection Hflags as -> -> -> ->; repeat split; try lia; try done.
  - destruct Hfs as [-> | ->]; cbv iota.
    + destruct (Z.eqb_spec cur prev);
        destruct Hi as [-> | [-> | ->]]; simpl in Hprev, Hflags; session_cbn;
        injection Hflags as -> -> -> ->; repeat split; try lia; try done; congruence.
    + destruct (negb (tmo =? 0)%Z); cbv iota;
        [|destruct Hi as [-> | [-> | ->]]; simpl in Hprev, Hflags; session_cbn;
          injection Hflags as -> -> -> ->; repeat split; try lia; done].
      destruct (tmo <=? now ÷ 1000 - ptime)%Z; cbv iota;
        [|destruct Hi as [-> | [-> | ->]]; simpl in Hprev, Hflags; session_cbn;
          injection Hflags as -> -> -> ->; repeat split; try lia; done].
      destruct (Z.eqb_spec cur prev);
        destruct Hi as [-> | [-> | ->]]; simpl in Hprev, Hflags; session_cbn;
        injection Hflags as -> -> -> ->; repeat split; try lia; try done; congruence.
Qed.

Lemma parm_passes_inv (P : vid_vars -> Prop) :
  (forall nv now s, P s -> P (parm_step nv now s)) ->
  forall evs s, P s -> P (parm_passes evs s).
Proof.
  intros Hstep. induction evs as [|[nv now] evs IH]; intros s Hs; [done|].
  cbn [parm_passes fold_left]. apply IH. cbn [fst snd]. by apply Hstep.
Qed.

(** X11. From boot with stored palette/marker and unit values that are value
    indices, and whatever notifications arrive at whatever times: the active
    group index is 0, 1 or 2, the maximum is the last index of that group's
    table, the current value index lies in the table, and the stored
    palette/marker and unit values are still value indices.  Hence
    [parm_e_value[cur_parm_value]] is never read outside the table. *)
Theorem parameter_value_stays_in_its_table q b evs :
  stored_valid q ->
  let s := parm_passes evs (vid_task_init q b) in
  (0 <= cur_parm_index (parm s) < NUM_PARMS)%Z /\
  cur_parm_max_index (parm s) = (group_size (cur_parm_index (parm s)) - 1)%Z /\
  (0 <= cur_parm_value (parm s) <= cur_parm_max_index (parm s))%Z /\
  stored_valid (ps s).
Proof.
  intros Hq s.
  assert (Hinv : range_inv (nvs_writes q) s).
  { apply parm_passes_inv; [apply range_inv_step|by apply range_inv_init]. }
  destruct Hinv as (? & ? & ? & ? & _). done.
Qed.

(** X12. From boot with stored palette/marker and unit values that are value
    indices, every entry the session writes to persistent storage is one its
    group can hold: a palette/marker value 0..3, an emissivity of the table,
    or a unit value 0..1; earlier entries are left as they were. *)
Theorem session_writes_valid_entries q b evs :
  stored_valid q ->
  exists ws,
    nvs_writes (ps (parm_passes evs (vid_task_init q b))) = nvs_writes q ++ ws /\
    Forall nvs_write_valid ws.
Proof.
  intros Hq.
  assert (Hinv : range_inv (nvs_writes q) (parm_passes evs (vid_task_init q b))).
  { apply parm_passes_inv; [apply range_inv_step|by apply range_inv_init]. }
  destruct Hinv as (_ & _ & _ & _ & Hw). exact Hw.
Qed.

(** X13. Whatever notifications arrive after boot, whenever the value of the
    active group is the one the group was entered with (nothing is pending),
    the palette, marker, spotmeter and unit flags of the GUI state are those
    the boot set-up derives from the parameters stored at that moment. *)
Theorem gui_flags_match_stored_parameters q b b' evs :
  let s := parm_passes evs (vid_task_init q b) in
  cur_parm_value (parm s) = prev_parm_value (parm s) ->
  user_flags (gui_state s) = user_flags (gui_state (vid_task_init (ps s) b')).
Proof.
  intros s Hrest.
  assert (Hinv : gui_inv s).
  { apply parm_passes_inv; [apply gui_inv_step|apply gui_inv_init]. }
  destruct Hinv as (Hidx & Hprev & Hflags). rewrite Hflags.
  unfold palette_in_force, units_in_force, stored_index, vid_task_init, user_flags,
    NUM_PARMS, PARM_INDEX_EMISSIVITY, PARM_INDEX_UNITS, PARM_INDEX_MARKER,
    ps_get_parm, PS_PARM_PALETTE_MARKER, PS_PARM_UNITS, PS_PARM_EMISSIVITY in *.
  cbn [gui_state black_hot_palette min_max_enable spotmeter_enable temp_unit_C].
  rewrite Hrest.
  assert (Hi : (cur_parm_index (parm s) = 0 \/ cur_parm_index (parm s) = 1
                \/ cur_parm_index (parm s) = 2)%Z) by lia.
  destruct Hi as [E | [E | E]]; rewrite E in *; simpl in Hprev |- *;
    rewrite ?Hprev; reflexivity.
Qed.

(** *** Short-presses *)

Lemma short_press_step t s :
  let s' := parm_step VID_NOTIFY_PARM_CHANGE_MASK t s in
  cur_parm_value (parm s')
  = (if (cur_parm_max_index (parm s) <? cur_parm_value (parm s) + 1)%Z then 0
     else cur_parm_value (parm s) + 1)%Z /\
  cur_parm_index (parm s') = cur_parm_index (parm s) /\
  cur_parm_max_index (parm s') = cur_parm_max_index (parm s) /\
  prev_parm_value (parm s') = prev_parm_value (parm s) /\
  ps s' = ps s.
Proof.
  destruct s as [n1 n2 fv fs g [idx vmax cur prev tmo ptime] q b cl].
  unfold parm_step, _vid_handle_notifications, _vid_eval_parm_update.
  cbn [notify_parm_val_change notify_parm_sel_change set_notify parm ps
       cur_parm_index cur_parm_max_index cur_parm_value prev_parm_value
       parm_entry_timeout prev_time notify_image_1 notify_image_2].
  change (Notification VID_NOTIFY_PARM_CHANGE_MASK VID_NOTIFY_PARM_CHANGE_MASK) with true.
  cbv iota.
  destruct (vmax <? cur + 1)%Z, (idx =? PARM_INDEX_EMISSIVITY)%Z,
    (idx =? PARM_INDEX_UNITS)%Z; cbn; done.
Qed.

(** X14. Short-presses cycle through the values of the active group: from a
    value index inside the table, [n] short-presses (at any times) leave the
    index [(cur + n) mod (max + 1)], and change neither the active group, the
    value the group was entered with, nor anything in persistent storage. *)
Theorem short_presses_cycle_through_group (times : list Z) (s : vid_vars) :
  (0 <= cur_parm_value (parm s) <= cur_parm_max_index (parm s))%Z ->
  let s' := short_presses times s in
  cur_parm_value (parm s')
  = ((cur_parm_value (parm s) + Z.of_nat (length times))
       mod (cur_parm_max_index (parm s) + 1))%Z /\
  cur_parm_index (parm s') = cur_parm_index (parm s) /\
  prev_parm_value (parm s') = prev_parm_value (parm s) /\
  ps s' = ps s.
Proof.
  revert s. induction times as [|t times IH]; intros s Hcur; cbn [short_presses fold_left].
  - cbn [length]. rewrite Z.add_0_r, Z.mod_small by lia. done.
  - fold (short_presses times (parm_step VID_NOTIFY_PARM_CHANGE_MASK t s)).
    destruct (short_press_step t s) as (Ev & Ei & Em & Ep & Eq).
    set (s1 := parm_step VID_NOTIFY_PARM_CHANGE_MASK t s) in *.
    assert (Hv1 : cur_parm_value (parm s1)
                  = ((cur_parm_value (parm s) + 1) mod (cur_parm_max_index (parm s) + 1))%Z).
    { rewrite Ev. destruct (Z.ltb_spec (cur_parm_max_index (parm s))
                                       (cur_parm_value (parm s) + 1)).
      - replace (cur_parm_value (parm s) + 1)%Z with (cur_parm_max_index (parm s) + 1)%Z
          by lia.
        by rewrite Z.mod_same by lia.
      - by rewrite Z.mod_small by lia. }
    destruct (IH s1) as (Ev' & Ei' & Ep' & Eq').
    { rewrite Hv1, Em.
      pose proof (Z.mod_pos_bound (cur_parm_value (parm s) + 1)
                                  (cur_parm_max_index (parm s) + 1)). lia. }
    rewrite Ev', Ei', Ep', Eq', Em, Hv1. repeat split; try done.
    rewrite Zplus_mod_idemp_l. f_equal. cbn [length]. lia.
Qed.

(** *** Notifications that arrive together *)

(** X15. A value-change and a selection notification that arrive together are
    both honoured, the value change first: with no button event pending
    before, the pass that receives both followed by a pass that receives
    nothing leaves the state of a pass with the value change followed by a
    pass with the selection. *)
Theorem joint_notifications_are_both_honoured (s : vid_vars) (t1 t2 : Z) :
  notify_parm_val_change s = false -> notify_parm_sel_change s = false ->
  parm_step 0 t2
    (parm_step (Z.lor VID_NOTIFY_PARM_CHANGE_MASK VID_NOTIFY_PARM_SELECT_MASK) t1 s)
  = parm_step VID_NOTIFY_PARM_SELECT_MASK t2 (parm_step VID_NOTIFY_PARM_CHANGE_MASK t1 s).
Proof.
  destruct s as [n1 n2 fv fs g [idx vmax cur prev tmo ptime] q b cl].
  cbn [notify_parm_val_change notify_parm_sel_change]. intros -> ->.
  unfold parm_step at 2 4. unfold _vid_handle_notifications, _vid_eval_parm_update.
  cbn [notify_parm_val_change notify_parm_sel_change set_notify parm ps
       cur_parm_index cur_parm_max_index cur_parm_value prev_parm_value
       parm_entry_timeout prev_time notify_image_1 notify_image_2].
  eval_notifications.
  destruct (vmax <? cur + 1)%Z, (idx =? PARM_INDEX_EMISSIVITY)%Z,
    (idx =? PARM_INDEX_UNITS)%Z;
    cbn [set_parm set_gui_state call set_notify notify_image_1 notify_image_2
         notify_parm_val_change notify_parm_sel_change gui_state parm ps bufs calls];
    unfold parm_step, _vid_handle_notifications, _vid_eval_parm_update;
    cbn [notify_parm_val_change notify_parm_sel_change set_notify parm ps
         cur_parm_index cur_parm_max_index cur_parm_value prev_parm_value
         parm_entry_timeout prev_time notify_image_1 notify_image_2];
    eval_notifications; reflexivity.
Qed.

(** *** The whole pass of the video task *)

Lemma same_session_refl s : same_session s s.
Proof. by unfold same_session. Qed.

Lemma same_session_trans s1 s2 s3 :
  same_session s1 s2 -> same_session s2 s3 -> same_session s1 s3.
Proof. unfold same_session. intros (?&?&?&?&?) (?&?&?&?&?). repeat split; congruence. Qed.

Lemma parm_step_same_session nv now s1 s2 :
  same_session s1 s2 -> same_session (parm_step nv now s1) (parm_step nv now s2).
Proof.
  destruct s1 as [n1 n2 fv fs g [idx vmax cur prev tmo ptime] q b cl].
  destruct s2 as [n1' n2' fv' fs' g' p' q' b' cl'].
  destruct g as [g1 g2 g3 g4 g5 g6 g7 g8]. destruct g' as [h1 h2 h3 h4 h5 h6 h7 h8].
  unfold same_session, user_flags.
  cbn [parm ps gui_state notify_parm_val_change notify_parm_sel_change
       black_hot_palette min_max_enable spotmeter_enable temp_unit_C].
  intros (<- & <- & Hg & <- & <-). injection Hg as <- <- <- <-.
  unfold parm_step, _vid_handle_notifications, _vid_eval_parm_update, parm_store_change,
    gui_set_marker_palette, gui_set_temp_unit_C.
  cbn [notify_parm_val_change notify_parm_sel_change set_notify parm ps
       cur_parm_index cur_parm_max_index cur_parm_value prev_parm_value
       parm_entry_timeout prev_time notify_image_1 notify_image_2].
  generalize (Notification nv VID_NOTIFY_LEP_FRAME_MASK_1)
             (Notification nv VID_NOTIFY_LEP_FRAME_MASK_2)
             (Notification nv VID_NOTIFY_PARM_CHANGE_MASK)
             (Notification nv VID_NOTIFY_PARM_SELECT_MASK).
  intros b1 b2 bv bs.
  destruct (if bv then true else fv); cbv iota.
  - destruct (vmax <? cur + 1)%Z, (idx =? PARM_INDEX_EMISSIVITY)%Z,
      (idx =? PARM_INDEX_UNITS)%Z; cbn; done.
  - destruct (if bs then true else fs); cbv iota.
    + destruct (cur =? prev)%Z, (idx =? PARM_INDEX_EMISSIVITY)%Z,
        (idx =? PARM_INDEX_UNITS)%Z, (idx + 1 =? NUM_PARMS)%Z; cbv iota;
        repeat match goal with
               | |- context [if ?c then _ else _] => destruct c
               end; cbn; done.
    + destruct (negb (tmo =? 0)%Z); cbv iota; [|cbn; done].
      destruct (tmo <=? now ÷ 1000 - ptime)%Z; cbv iota; [|cbn; done].
      destruct (cur =? prev)%Z, (idx =? PARM_INDEX_EMISSIVITY)%Z,
        (idx =? PARM_INDEX_UNITS)%Z; cbn; done.
Qed.

Section WholePass.
Variables W H : nat.
Variable lepton_get_tel_status : list Z -> Z.
Variable LEP_STATUS_AGC_STATE : Z.
Variable lepton_is_radiometric : bool.
Variable LEP_TEL_TLIN_RES : nat.
Variable render_min_max_markers : lep_buffer_t -> list Z -> list Z.
Variable render_spotmeter : lep_buffer_t -> list Z -> gui_state_t -> list Z.
Variable render_parm_string : Z -> Z -> list Z -> list Z.

Local Abbreviation task_pass :=
  (vid_task_pass W H lepton_get_tel_status LEP_STATUS_AGC_STATE lepton_is_radiometric
                 LEP_TEL_TLIN_RES render_min_max_markers render_spotmeter
                 render_parm_string).
Local Abbreviation display := (_vid_display_image W H).
Local Abbreviation render :=
  (_vid_render_image W H lepton_get_tel_status LEP_STATUS_AGC_STATE lepton_is_radiometric
                     LEP_TEL_TLIN_RES render_min_max_markers render_spotmeter
                     render_parm_string).

Lemma display_same_session i s : same_session (display i s) s.
Proof. destruct s. unfold _vid_display_image, same_session. cbn. done. Qed.

Lemma render_same_session i s : same_session (render i s) s.
Proof.
  destruct s as [n1 n2 fv fs g p q b cl]. unfold _vid_render_image, same_session.
  cbn [call bufs gui_state parm set_bufs set_gui_state ps notify_parm_val_change
       notify_parm_sel_change].
  destruct (render_lep_data W H _ _ _) as [lepP rendP].
  cbn. done.
Qed.

Lemma frame_half_same_session i j s :
  same_session (render i (display j (call video_wait_frame s))) s.
Proof.
  eapply same_session_trans; [apply render_same_session|].
  eapply same_session_trans; [apply display_same_session|].
  destruct s. unfold same_session. cbn. done.
Qed.

Lemma task_pass_same_session nv now s :
  same_session (task_pass nv now s) (parm_step nv now s).
Proof.
  unfold vid_task_pass. cbv zeta.
  set (s0 := parm_step nv now s).
  assert (Hn : forall a c s', same_session s' s0 ->
            same_session (set_notify a c (notify_parm_val_change s')
                                     (notify_parm_sel_change s') s') s0).
  { intros a c s' Hs'. destruct s'. unfold same_session in *. cbn in *. done. }
  assert (H1 : same_session
    (if notify_image_1 s0
     then render 0 (display 1 (call video_wait_frame
            (set_notify false (notify_image_2 s0) (notify_parm_val_change s0)
                        (notify_parm_sel_change s0) s0)))
     else s0) s0).
  { destruct (notify_image_1 s0); [|apply same_session_refl].
    eapply same_session_trans; [apply frame_half_same_session|].
    apply Hn, same_session_refl. }
  match goal with |- same_session (call _ ?x) _ => set (s2 := x) end.
  assert (H2 : same_session s2 s0).
  { unfold s2. match goal with |- context [notify_image_2 ?x] => set (s1 := x) in * end.
    destruct (notify_image_2 s1); [|exact H1].
    eapply same_session_trans; [apply frame_half_same_session|].
    by apply Hn. }
  eapply same_session_trans; [|exact H2].
  destruct s2. unfold same_session. cbn. done.
Qed.

Lemma task_passes_same_session (evs : list (Z * Z)) (s1 s2 : vid_vars) :
  same_session s1 s2 ->
  same_session (fold_left (fun s e => task_pass e.1 e.2 s) evs s1) (parm_passes evs s2).
Proof.
  revert s1 s2. induction evs as [|[nv now] evs IH]; intros s1 s2 Hs; [done|].
  cbn [fold_left parm_passes fst snd]. apply IH.
  eapply same_session_trans; [apply task_pass_same_session|].
  by apply parm_step_same_session.
Qed.

(** X16. The display and render half of a pass leaves the parameter session
    alone: whole passes of the video task (with any telemetry decoding and
    overlay renderers) and their parameter halves alone, run from the same
    state on the same notifications and clock readings, end with the same
    selection variables, stored parameters (NVS writes included), palette,
    marker and unit flags, and pending button events.  So what holds of the
    session after parameter halves holds after whole passes. *)
Theorem rendering_leaves_session_alone (evs : list (Z * Z)) (s : vid_vars) :
  let s' := fold_left (fun s e => task_pass e.1 e.2 s) evs s in
  let p' := parm_passes evs s in
  parm s' = parm p' /\ ps s' = ps p' /\
  user_flags (gui_state s') = user_flags (gui_state p') /\
  notify_parm_val_change s' = notify_parm_val_change p' /\
  notify_parm_sel_change s' = notify_parm_sel_change p'.
Proof. apply task_passes_same_session, same_session_refl. Qed.

End WholePass.

(** *** The properties after boot with the default parameters *)

Lemma parameter_value_witness :
  let s := parm_passes [(16, 0); (32, 1000000); (16, 2000000); (0, 20000000)]%Z
                       (vid_task_init VidSpec.ps_defaults VidSpec.bufs_blank) in
  (0 <= cur_parm_index (parm s) < NUM_PARMS)%Z /\
  cur_parm_max_index (parm s) = (group_size (cur_parm_index (parm s)) - 1)%Z /\
  (0 <= cur_parm_value (parm s) <= cur_parm_max_index (parm s))%Z /\
  stored_valid (ps s).
Proof.
  apply (parameter_value_stays_in_its_table VidSpec.ps_defaults VidSpec.bufs_blank
           [(16, 0); (32, 1000000); (16, 2000000); (0, 20000000)]%Z).
  vm_compute. repeat split; discriminate || reflexivity.
Defined.

Lemma session_writes_witness :
  exists ws,
    nvs_writes (ps (parm_passes [(16, 0); (32, 1000000); (16, 2000000); (0, 20000000)]%Z
                                (vid_task_init VidSpec.ps_defaults VidSpec.bufs_blank)))
    = nvs_writes VidSpec.ps_defaults ++ ws /\
    Forall nvs_write_valid ws.
Proof.
  apply (session_writes_valid_entries VidSpec.ps_defaults VidSpec.bufs_blank
           [(16, 0); (32, 1000000); (16, 2000000); (0, 20000000)]%Z).
  vm_compute. repeat split; discriminate || reflexivity.
Defined.

Lemma gui_flags_witness :
  let s := parm_passes [(16, 0); (0, 20000000)]%Z
                       (vid_task_init VidSpec.ps_defaults VidSpec.bufs_blank) in
  user_flags (gui_state s)
  = user_flags (gui_state (vid_task_init (ps s) VidSpec.bufs_blank)).
Proof.
  apply (gui_flags_match_stored_parameters VidSpec.ps_defaults VidSpec.bufs_blank
           VidSpec.bufs_blank [(16, 0); (0, 20000000)]%Z).
  reflexivity.
Defined.

Lemma short_presses_witness :
  let s := vid_task_init VidSpec.ps_defaults VidSpec.bufs_blank in
  let s' := short_presses [0; 10; 20; 30; 40]%Z s in
  cur_parm_value (parm s')
  = ((cur_parm_value (parm s) + Z.of_nat (length [0; 10; 20; 30; 40]%Z))
       mod (cur_parm_max_index (parm s) + 1))%Z /\
  cur_parm_index (parm s') = cur_parm_index (parm s) /\
  prev_parm_value (parm s') = prev_parm_value (parm s) /\
  ps s' = ps s.
Proof.
  apply (short_presses_cycle_through_group [0; 10; 20; 30; 40]%Z
           (vid_task_init VidSpec.ps_defaults VidSpec.bufs_blank)).
  vm_compute. repeat split; discriminate || reflexivity.
Defined.

Lemma joint_notifications_witness :
  let s := vid_task_init VidSpec.ps_defaults VidSpec.bufs_blank in
  parm_step 0 1000
    (parm_step (Z.lor VID_NOTIFY_PARM_CHANGE_MASK VID_NOTIFY_PARM_SELECT_MASK) 0 s)
  = parm_step VID_NOTIFY_PARM_SELECT_MASK 1000 (parm_step VID_NOTIFY_PARM_CHANGE_MASK 0 s).
Proof.
  apply (joint_notifications_are_both_honoured
           (vid_task_init VidSpec.ps_defaults VidSpec.bufs_blank) 0 1000); reflexivity.
Defined.

End SessionProofs.

(** ** The acquisition task: runs *)
Module LepRunProofs.
Import Lep LepSpec LepRunSpec.

Section Runs.
Variables LIMIT RETRY : Z.
Local Abbreviation pass := (lep_task_pass LIMIT RETRY).
Local Abbreviation run := (lep_task_run LIMIT RETRY).

Lemma run_cons ok oks s :
  run (ok :: oks) s = ((run oks (pass ok s).1).1, (pass ok s).2 ++ (run oks (pass ok s).1).2).
Proof.
  cbn [lep_task_run]. destruct (lep_task_pass LIMIT RETRY ok s) as [s1 c1]. cbn [fst snd].
  by destruct (lep_task_run LIMIT RETRY oks s1).
Qed.

Lemma run_invariant (P : lep_vars -> Prop) :
  (forall ok s, P s -> P (pass ok s).1) ->
  forall oks s, P s -> P (run oks s).1.
Proof.
  intros Hstep. induction oks as [|ok oks IH]; intros s Hs; [done|].
  rewrite run_cons. cbn [fst]. apply IH. by apply Hstep.
Qed.

Ltac lep_cases s :=
  destruct s as [st buf v f r];
  unfold lep_task_pass, lep_state_init, lep_state_run, lep_state_re_init, lep_state_error;
  cbn [task_state vid_buf_index vsync_count sync_fail_count reset_fail_count];
  unfold STATE_INIT, STATE_RUN, STATE_RE_INIT, STATE_ERROR in *.

Lemma lep_bounded_pass ok s :
  (0 <= LIMIT)%Z -> (1 <= RETRY)%Z ->
  lep_bounded LIMIT RETRY s -> lep_bounded LIMIT RETRY (pass ok s).1.
Proof.
  intros HL HR. unfold lep_bounded. lep_cases s.
  intros (Hst & Hbuf & Hv & Hf & Hr).
  assert (Hs : (st = 0 \/ st = 1 \/ st = 2 \/ st = 3)%Z) by lia.
  destruct Hs as [-> | [-> | [-> | ->]]]; simpl in Hr; simpl.
  - destruct ok; simpl; intuition lia.
  - destruct ok.
    + destruct (Z.eqb_spec buf 0); simpl; intuition lia.
    + destruct (Z.eqb_spec (v + 1) 36); simpl; [|intuition lia].
      destruct (Z.eqb_spec f LIMIT); simpl; [|intuition lia].
      destruct (Z.eqb_spec r 0); simpl; intuition lia.
  - destruct ok; simpl; intuition lia.
  - destruct (Z.eqb_spec (r - 1) 0); simpl; intuition lia.
Qed.

(** X17. With a failure limit of at least 0 and a retry time of at least
    1, in every state the task reaches from its start, whatever the device
    answers: the state is one of the four, the buffer index is 0 or 1, the
    miss counter is below 36, the failure counter is at most the limit, and
    the reset counter is 0 or 1, or in the Error state between 1 and the retry
    time.  So no counter overflows and [vid_lep_buffer[vid_buf_index]] is
    always one of the two buffers. *)
Theorem acquisition_counters_stay_bounded (oks : list bool) :
  (0 <= LIMIT)%Z -> (1 <= RETRY)%Z ->
  lep_bounded LIMIT RETRY (run oks lep_task_start).1.
Proof.
  intros HL HR. apply run_invariant.
  - intros ok s. by apply lep_bounded_pass.
  - unfold lep_bounded, lep_task_start, STATE_INIT. simpl. intuition lia.
Qed.

(** *** The Error state *)

Lemma error_pass ok s :
  task_state s = STATE_ERROR ->
  pass ok s
  = ({| task_state := if (reset_fail_count s - 1 =? 0)%Z then STATE_RE_INIT else STATE_ERROR;
        vid_buf_index := vid_buf_index s; vsync_count := vsync_count s;
        sync_fail_count := sync_fail_count s;
        reset_fail_count := reset_fail_count s - 1 |}, [vTaskDelay 1000]).
Proof.
  lep_cases s. cbn [task_state]. intros ->. reflexivity.
Qed.

Lemma error_countdown : forall (oks : list bool) s,
  task_state s = STATE_ERROR ->
  (Z.of_nat (length oks) < reset_fail_count s)%Z ->
  run oks s
  = ({| task_state := STATE_ERROR; vid_buf_index := vid_buf_index s;
        vsync_count := vsync_count s; sync_fail_count := sync_fail_count s;
        reset_fail_count := reset_fail_count s - Z.of_nat (length oks) |},
     replicate (length oks) (vTaskDelay 1000)).
Proof.
  induction oks as [|ok oks IH]; intros s Hst Hr.
  - cbn. rewrite Z.sub_0_r. destruct s; cbn in *; by subst.
  - rewrite run_cons, (error_pass ok s Hst). cbn [fst snd length] in *.
    destruct (Z.eqb_spec (reset_fail_count s - 1) 0); [lia|].
    rewrite IH by (cbn [task_state reset_fail_count]; done || lia). cbn [fst snd replicate task_state vid_buf_index
      vsync_count sync_fail_count reset_fail_count app].
    f_equal. f_equal. lia.
Qed.

(** X18. The Error state is a timed back-off: entered with the reset counter
    at [R >= 1], the task stays in it for [R] passes, each a one-second
    delay and nothing else, whatever the device would answer; the [R]-th pass
    moves to ReInit with the counter at 0, and no pass before it does. *)
Theorem error_backoff_lasts_reset_count (s : lep_vars) (oks : list bool) (ok : bool) :
  task_state s = STATE_ERROR ->
  (Z.of_nat (length oks) + 1 = reset_fail_count s)%Z ->
  task_state (run oks s).1 = STATE_ERROR /\
  run (oks ++ [ok]) s
  = ({| task_state := STATE_RE_INIT; vid_buf_index := vid_buf_index s;
        vsync_count := vsync_count s; sync_fail_count := sync_fail_count s;
        reset_fail_count := 0 |},
     replicate (length oks + 1) (vTaskDelay 1000)).
Proof.
  intros Hst Hr. rewrite LepProofs.lep_task_run_app. cbv zeta.
  rewrite (error_countdown oks s Hst) by lia. cbn [fst snd]. split; [done|].
  rewrite run_cons. rewrite error_pass by done.
  cbn [fst snd task_state vid_buf_index vsync_count sync_fail_count reset_fail_count
       lep_task_run].
  replace (reset_fail_count s - Z.of_nat (length oks) - 1)%Z with 0%Z by lia.
  cbn [Z.eqb]. rewrite app_nil_r, replicate_add. reflexivity.
Qed.

(** *** Fault clears *)

Lemma fault_clears_app cs1 cs2 :
  fault_clears (cs1 ++ cs2) = fault_clears cs1 + fault_clears cs2.
Proof.
  induction cs1 as [|c cs1 IH]; [done|]. destruct c; cbn; rewrite ?IH; lia.
Qed.

Lemma pass_clear_needs_limit ok s :
  (0 <= vsync_count s)%Z -> (0 <= sync_fail_count s)%Z ->
  let r := pass ok s in
  (0 <= vsync_count r.1)%Z /\ (0 <= sync_fail_count r.1)%Z /\
  (36 * sync_fail_count r.1 + vsync_count r.1
   <= 36 * sync_fail_count s + vsync_count s + 1)%Z /\
  (fault_clears r.2 <> 0 -> (LIMIT <= sync_fail_count s)%Z).
Proof.
  lep_cases s. intros Hv Hf.
  destruct (Z.eqb_spec st 0); [destruct ok; cbn; repeat split; try lia; done|].
  destruct (Z.eqb_spec st 1).
  - destruct ok.
    + destruct (Z.eqb_spec buf 0), (Z.leb_spec LIMIT f); cbn; repeat split; try lia; done.
    + destruct (Z.eqb_spec (v + 1) 36); cbn; [|repeat split; try lia; done].
      destruct (Z.eqb_spec f LIMIT); cbn; [|repeat split; try lia; done].
      destruct (Z.eqb_spec r 0); cbn; repeat split; try lia; done.
  - destruct (Z.eqb_spec st 2); [destruct ok; cbn; repeat split; try lia; done|].
    destruct (Z.eqb_spec st 3); cbn; repeat split; try lia; done.
Qed.

Lemma no_clear_within : forall (oks : list bool) s (k : Z),
  (0 <= vsync_count s)%Z -> (0 <= sync_fail_count s)%Z ->
  (36 * sync_fail_count s + vsync_count s <= k)%Z ->
  (k + Z.of_nat (length oks) <= 36 * LIMIT)%Z ->
  fault_clears (run oks s).2 = 0.
Proof.
  induction oks as [|ok oks IH]; intros s k Hv Hf Hm Hk; [done|].
  rewrite run_cons. cbn [snd]. rewrite fault_clears_app.
  destruct (pass_clear_needs_limit ok s Hv Hf) as (Hv' & Hf' & Hm' & Hc).
  cbn [length] in Hk.
  assert (Hz : fault_clears (pass ok s).2 = 0).
  { destruct (Nat.eq_dec (fault_clears (pass ok s).2) 0) as [E|E]; [done|].
    specialize (Hc E). lia. }
  rewrite Hz. by rewrite (IH _ (k + 1)%Z) by lia.
Qed.

(** X19. Once the miss and failure counters are zero (as the pass that reports
    a synchronization fault leaves them), the task issues no fault clear
    during the next [36 * LIMIT] passes, whatever the device answers: a good
    frame clears the fault indication only if it arrives when the failure
    counter has climbed back to the limit. *)
Theorem no_fault_clear_before_limit_is_reached_again (s : lep_vars) (oks : list bool) :
  vsync_count s = 0%Z -> sync_fail_count s = 0%Z ->
  (Z.of_nat (length oks) <= 36 * LIMIT)%Z ->
  fault_clears (run oks s).2 = 0.
Proof.
  intros Hv Hf Hl. apply (no_clear_within oks s 0); lia.
Qed.

(** *** Frame slots *)

Lemma frame_masks_app cs1 cs2 : frame_masks (cs1 ++ cs2) = frame_masks cs1 ++ frame_masks cs2.
Proof.
  induction cs1 as [|c cs1 IH]; [done|]. destruct c; cbn; by rewrite ?IH.
Qed.

Lemma pass_frame ok s :
  vid_buf_index s = 0%Z \/ vid_buf_index s = 1%Z ->
  let r := pass ok s in
  (frame_masks r.2 = [] /\ vid_buf_index r.1 = vid_buf_index s) \/
  (frame_masks r.2 = [mask_of_slot (vid_buf_index s)] /\
   vid_buf_index r.1 = other_slot (vid_buf_index s)).
Proof.
  lep_cases s. unfold mask_of_slot, other_slot. intros Hb.
  destruct (Z.eqb_spec st 0); [destruct ok; cbn; auto|].
  destruct (Z.eqb_spec st 1).
  - destruct ok.
    + right. destruct (Z.eqb_spec buf 0), (Z.leb_spec LIMIT f); cbn; auto.
    + left. destruct (Z.eqb_spec (v + 1) 36); cbn; [|auto].
      destruct (Z.eqb_spec f LIMIT); cbn; [|auto].
      destruct (Z.eqb_spec r 0); cbn; auto.
  - destruct (Z.eqb_spec st 2); [destruct ok; cbn; auto|].
    destruct (Z.eqb_spec st 3); cbn; auto.
Qed.

Lemma frames_alternate_from : forall (oks : list bool) s,
  vid_buf_index s = 0%Z \/ vid_buf_index s = 1%Z ->
  frame_masks (run oks s).2
  = alternating (length (frame_masks (run oks s).2)) (vid_buf_index s).
Proof.
  induction oks as [|ok oks IH]; intros s Hb; [done|].
  rewrite run_cons. cbn [snd]. rewrite frame_masks_app.
  destruct (pass_frame ok s Hb) as [[E Eb]|[E Eb]]; rewrite E.
  - cbn [app]. rewrite <- Eb. apply IH. by rewrite Eb.
  - cbn [app length alternating]. f_equal. rewrite <- Eb. apply IH.
    rewrite Eb. unfold other_slot. destruct Hb as [-> | ->]; cbn; auto.
Qed.

(** X20. Frames go to the two shared buffers in strict alternation: whatever
    the device answers from the start of the task on, the frame
    notifications sent to the video task are those of slot 0, slot 1, slot
    0, ... in this order, failures and resets in between notwithstanding. *)
Theorem frames_alternate_between_slots (oks : list bool) :
  let ms := frame_masks (run oks lep_task_start).2 in
  ms = alternating (length ms) 0.
Proof.
  intros ms. unfold ms. apply (frames_alternate_from oks lep_task_start). by left.
Qed.

End Runs.
(** *** The properties with a limit of 10 and a retry time of 60 *)

Lemma acquisition_counters_witness :
  lep_bounded 10 60 (lep_task_run 10 60 [true; false; true] lep_task_start).1.
Proof.
  apply (acquisition_counters_stay_bounded 10 60 [true; false; true]); lia.
Defined.

Lemma error_backoff_witness :
  let s := {| task_state := STATE_ERROR; vid_buf_index := 0; vsync_count := 0;
              sync_fail_count := 0; reset_fail_count := 3 |} in
  task_state (lep_task_run 10 60 [true; false] s).1 = STATE_ERROR /\
  lep_task_run 10 60 ([true; false] ++ [true]) s
  = ({| task_state := STATE_RE_INIT; vid_buf_index := vid_buf_index s;
        vsync_count := vsync_count s; sync_fail_count := sync_fail_count s;
        reset_fail_count := 0 |},
     replicate (length [true; false] + 1) (vTaskDelay 1000)).
Proof.
  intros s. apply (error_backoff_lasts_reset_count 10 60 s [true; false] true);
    reflexivity.
Defined.

Lemma no_fault_clear_witness :
  fault_clears
    (lep_task_run 10 60 [true; true; false]
       {| task_state := STATE_RUN; vid_buf_index := 0; vsync_count := 0;
          sync_fail_count := 0; reset_fail_count := 1 |}).2 = 0.
Proof.
  apply (no_fault_clear_before_limit_is_reached_again 10 60
           {| task_state := STATE_RUN; vid_buf_index := 0; vsync_count := 0;
              sync_fail_count := 0; reset_fail_count := 1 |} [true; true; false]);
    [reflexivity|reflexivity|cbn; lia].
Defined.

End LepRunProofs.

(** ** The control task: runs *)
Module CtrlRunProofs.
Import Ctrl CtrlSpec CtrlRunSpec Boot.

Ltac unfold_pass :=
  unfold ctrl_task_pass, ctrl_handle_notifications, ctrl_eval_led_sm, ctrl_eval_sm,
    ctrl_debounce_button;
  cbn [ctrl_state ctrl_pre_activity_state ctrl_led_state ctrl_led_timer
       ctrl_fault_led_count ctrl_fault_type prev_btn btn_down btn_timer notification
       led_pins vid_notified set_notification set_fault].

(** *** One press of the button *)

Section Press.
(** The variables a pass in the Run state leaves alone. *)
Variables pre ltm cnt ft : Z.
Variable pins : Z * Z.

Local Abbreviation run_state pb bd bt vn :=
  {| ctrl_state := CTRL_ST_RUN; ctrl_pre_activity_state := pre;
     ctrl_led_state := CTRL_LED_ST_SOLID; ctrl_led_timer := ltm;
     ctrl_fault_led_count := cnt; ctrl_fault_type := ft;
     prev_btn := pb; btn_down := bd; btn_timer := bt;
     notification := 0; led_pins := pins; vid_notified := vn |}.

Lemma pass_first_low bt vn :
  ctrl_task_pass 0 (run_state false false bt vn) = run_state true false bt vn.
Proof. reflexivity. Qed.

Lemma pass_second_low bt vn :
  ctrl_task_pass 0 (run_state true false bt vn) = run_state true true 59 vn.
Proof. reflexivity. Qed.

Lemma pass_held level bt vn :
  ctrl_task_pass level (run_state true true bt vn)
  = run_state (level =? 0)%Z true (if (bt =? 0)%Z then 0%Z else (bt - 1)%Z)
              (vn ++ if (bt =? 1)%Z then [VID_NOTIFY_PARM_SELECT_MASK] else []).
Proof.
  unfold_pass. simpl. destruct (Z.eqb_spec level 0); simpl.
  - destruct (Z.eqb_spec bt 0) as [->|Hb]; simpl; [by rewrite app_nil_r|].
    destruct (Z.eqb_spec (bt - 1) 0), (Z.eqb_spec bt 1); try lia; simpl;
      rewrite ?app_nil_r; repeat f_equal; lia.
  - destruct (Z.eqb_spec bt 0) as [->|Hb]; simpl; [by rewrite app_nil_r|].
    destruct (Z.eqb_spec (bt - 1) 0), (Z.eqb_spec bt 1); try lia; simpl;
      rewrite ?app_nil_r; repeat f_equal; lia.
Qed.

Lemma pass_release level bt vn :
  level <> 0%Z ->
  ctrl_task_pass level (run_state false true bt vn)
  = run_state false false bt
              (vn ++ if (bt =? 0)%Z then [] else [VID_NOTIFY_PARM_CHANGE_MASK]).
Proof.
  intros Hl. unfold_pass. simpl. destruct (Z.eqb_spec level 0); [lia|]. simpl.
  destruct (Z.eqb_spec bt 0); simpl; by rewrite ?app_nil_r.
Qed.

Lemma pass_high_at_rest level pb bt vn :
  level <> 0%Z ->
  ctrl_task_pass level (run_state pb false bt vn) = run_state false false bt vn.
Proof.
  intros Hl. unfold_pass. simpl. destruct (Z.eqb_spec level 0); [lia|].
  destruct pb; reflexivity.
Qed.

Lemma ctrl_passes_cons level levels c :
  ctrl_passes (level :: levels) c = ctrl_passes levels (ctrl_task_pass level c).
Proof. reflexivity. Qed.

Lemma ctrl_passes_app l1 l2 c :
  ctrl_passes (l1 ++ l2) c = ctrl_passes l2 (ctrl_passes l1 c).
Proof. unfold ctrl_passes, ctrl_run. by rewrite map_app, fold_left_app. Qed.

Lemma passes_held n : forall bt vn,
  (0 <= bt)%Z ->
  ctrl_passes (replicate n 0%Z) (run_state true true bt vn)
  = run_state true true (Z.max 0 (bt - Z.of_nat n))
              (vn ++ if ((1 <=? bt) && (bt <=? Z.of_nat n))%Z
                     then [VID_NOTIFY_PARM_SELECT_MASK] else []).
Proof.
  induction n as [|n IH]; intros bt vn Hbt.
  - cbn [replicate]. unfold ctrl_passes, ctrl_run. cbn [map fold_left].
    replace (Z.max 0 (bt - Z.of_nat 0)) with bt by lia.
    destruct (Z.leb_spec 1 bt), (Z.leb_spec bt (Z.of_nat 0)); cbn [andb];
      try lia; by rewrite app_nil_r.
  - cbn [replicate]. rewrite ctrl_passes_cons, pass_held.
    change (0 =? 0)%Z with true. rewrite IH by (destruct (Z.eqb_spec bt 0); lia).
    f_equal.
    + destruct (Z.eqb_spec bt 0); lia.
    + rewrite <- app_assoc. f_equal.
      destruct (Z.eqb_spec bt 0), (Z.eqb_spec bt 1), (Z.leb_spec 1 bt),
        (Z.leb_spec bt (Z.of_nat (S n))); try lia; cbn [andb app];
        repeat match goal with
               | |- context [(?a <=? ?b)%Z] => destruct (Z.leb_spec a b); try lia
               end; reflexivity.
Qed.

Lemma press_from_rest (k : nat) (h1 h2 : Z) bt vn :
  h1 <> 0%Z -> h2 <> 0%Z ->
  ctrl_passes (replicate k 0%Z ++ [h1; h2]) (run_state false false bt vn)
  = run_state false false
      (if k <? 2 then bt else Z.max 0 (60 - Z.of_nat k)) (vn ++ press_result k).
Proof.
  intros Hh1 Hh2. unfold press_result. destruct k as [|[|k]].
  - cbn [replicate app Nat.ltb Nat.leb]. rewrite !ctrl_passes_cons.
    rewrite !pass_high_at_rest by done. by rewrite app_nil_r.
  - cbn [replicate app Nat.ltb Nat.leb]. rewrite !ctrl_passes_cons.
    rewrite pass_first_low, !pass_high_at_rest by done. by rewrite app_nil_r.
  - change (S (S k) <? 2) with false. cbv iota.
    cbn [replicate app]. rewrite !ctrl_passes_cons, pass_first_low, pass_second_low.
    rewrite ctrl_passes_app, passes_held by lia.
    rewrite !ctrl_passes_cons, pass_held. rewrite (proj2 (Z.eqb_neq h1 0) Hh1).
    rewrite pass_release by done. unfold ctrl_passes, ctrl_run. cbn [map fold_left].
    f_equal.
    + destruct (Z.eqb_spec (Z.max 0 (59 - Z.of_nat k)) 0); lia.
    + rewrite <- !app_assoc. f_equal.
      change (1 <=? 59)%Z with true. cbn [andb].
      destruct (Nat.ltb_spec (S (S k)) 60).
      * destruct (Z.leb_spec 59 (Z.of_nat k)); [lia|].
        destruct (Z.eqb_spec (Z.max 0 (59 - Z.of_nat k)) 1); [lia|].
        destruct (Z.eqb_spec (Z.max 0 (59 - Z.of_nat k)) 0); [lia|].
        destruct (Z.eqb_spec (Z.max 0 (59 - Z.of_nat k) - 1) 0); [lia|]. reflexivity.
      * destruct (Z.leb_spec 59 (Z.of_nat k)).
        -- destruct (Z.eqb_spec (Z.max 0 (59 - Z.of_nat k)) 1); [lia|].
           destruct (Z.eqb_spec (Z.max 0 (59 - Z.of_nat k)) 0); [|lia].
           change (0 =? 0)%Z with true. reflexivity.
        -- destruct (Z.eqb_spec (Z.max 0 (59 - Z.of_nat k)) 1); [|lia].
           destruct (Z.eqb_spec (Z.max 0 (59 - Z.of_nat k)) 0); [lia|].
           destruct (Z.eqb_spec (Z.max 0 (59 - Z.of_nat k) - 1) 0); [|lia]. reflexivity.
Qed.

End Press.

(** X21. A press of the button yields one notification at most, decided by
    its length: in the Run state with nothing pending and the button at rest,
    [k] samples with the button down followed by two samples with it up send
    the video task nothing when [k < 2] (a glitch), one value-change
    notification when [2 <= k < 60], and one selection notification when
    [k >= 60]; the task is then at rest again. *)
Theorem press_yields_one_notification (c : ctrl_vars) (k : nat) (h1 h2 : Z) :
  running_idle c -> h1 <> 0%Z -> h2 <> 0%Z ->
  let c' := ctrl_passes (replicate k 0%Z ++ [h1; h2]) c in
  vid_notified c' = vid_notified c ++ press_result k /\ running_idle c'.
Proof.
  destruct c as [st pre lst ltm cnt ft pb bd bt nf pins vn]. unfold running_idle.
  cbn [ctrl_state ctrl_led_state notification prev_btn btn_down vid_notified].
  intros (-> & -> & -> & -> & ->) Hh1 Hh2. cbv zeta.
  rewrite press_from_rest by done.
  cbn [ctrl_state ctrl_led_state notification prev_btn btn_down vid_notified]. done.
Qed.

(** *** The Fault state *)

Lemma Notification_clear_bit n : Notification n CTRL_NOTIFY_FAULT_CLEAR = Z.testbit n 2.
Proof.
  unfold Notification, CTRL_NOTIFY_FAULT_CLEAR.
  assert (E : Z.land n 4 = if Z.testbit n 2 then 4%Z else 0%Z).
  { apply Z.bits_inj'. intros i Hi. rewrite Z.land_spec.
    change 4%Z with (2 ^ 2)%Z. rewrite Z.pow2_bits_eqb by lia.
    destruct (Z.eqb_spec 2 i) as [<-|Hne].
    - destruct (Z.testbit n 2); [|by rewrite andb_false_l, Z.bits_0].
      rewrite andb_true_l. change 4%Z with (2 ^ 2)%Z. by rewrite Z.pow2_bits_true.
    - rewrite andb_false_r. destruct (Z.testbit n 2); [|by rewrite Z.bits_0].
      rewrite Z.pow2_bits_false; [done|lia]. }
  rewrite E. by destruct (Z.testbit n 2).
Qed.

Lemma no_clear_after_lor n b :
  b = CTRL_NOTIFY_STARTUP_DONE \/ b = CTRL_NOTIFY_FAULT ->
  Notification (Z.lor n b) CTRL_NOTIFY_FAULT_CLEAR = Notification n CTRL_NOTIFY_FAULT_CLEAR.
Proof.
  intros Hb. rewrite !Notification_clear_bit, Z.lor_spec.
  destruct Hb as [-> | ->]; cbn; apply orb_false_r.
Qed.

Lemma notification_ctrl_set_state st c :
  notification (ctrl_set_state st c) = notification c.
Proof.
  unfold ctrl_set_state.
  repeat match goal with |- context [if ?b then _ else _] => destruct b end;
    rewrite ?CtrlProofs.notification_ctrl_set_led_state; reflexivity.
Qed.

Lemma notification_ctrl_eval_sm level c :
  notification (ctrl_eval_sm level c) = notification c.
Proof.
  unfold ctrl_eval_sm. destruct (CtrlProofs.led_view_debounce level c) as [_ Hn].
  destruct (ctrl_debounce_button level c) as [[c' sp] lp]. cbn [fst snd] in Hn.
  repeat match goal with |- context [if ?b then _ else _] => destruct b end;
    rewrite ?notification_ctrl_set_state; exact Hn.
Qed.

Lemma fault_pass_without_clear level c :
  ctrl_state c = CTRL_ST_FAULT ->
  Notification (notification c) CTRL_NOTIFY_FAULT_CLEAR = false ->
  ctrl_state (ctrl_task_pass level c) = CTRL_ST_FAULT /\
  notification (ctrl_task_pass level c) = 0%Z.
Proof.
  intros Hst Hn. unfold ctrl_task_pass.
  set (c1 := ctrl_handle_notifications c).
  assert (H1 : ctrl_state c1 = CTRL_ST_FAULT /\ notification c1 = 0%Z).
  { unfold c1, ctrl_handle_notifications. rewrite Hn.
    cbn [ctrl_state set_notification set_fault]. rewrite Hst.
    change (negb (CTRL_ST_FAULT =? CTRL_ST_FAULT)%Z) with false.
    destruct (Notification (notification c) CTRL_NOTIFY_STARTUP_DONE),
      (Notification (notification c) CTRL_NOTIFY_FAULT);
      rewrite ?CtrlProofs.state_ctrl_set_state, ?notification_ctrl_set_state; auto. }
  destruct H1 as [Hs1 Hn1]. split.
  - rewrite CtrlProofs.state_ctrl_eval_sm; rewrite CtrlProofs.state_ctrl_eval_led_sm; auto.
  - by rewrite notification_ctrl_eval_sm, CtrlProofs.notification_ctrl_eval_led_sm.
Qed.

Lemma fault_kept_step e c :
  no_fault_clear e ->
  ctrl_state c = CTRL_ST_FAULT ->
  Notification (notification c) CTRL_NOTIFY_FAULT_CLEAR = false ->
  ctrl_state (ctrl_step e c) = CTRL_ST_FAULT /\
  Notification (notification (ctrl_step e c)) CTRL_NOTIFY_FAULT_CLEAR = false.
Proof.
  intros He Hst Hn. destruct e as [f| |level]; cbn [ctrl_step no_fault_clear] in *.
  - unfold ctrl_set_fault_type. rewrite (proj2 (Z.eqb_neq _ _) He).
    unfold xTaskNotify_ctrl, set_notification.
    cbn [ctrl_state notification set_fault]. split; [done|].
    rewrite no_clear_after_lor; auto.
  - unfold xTaskNotify_ctrl, set_notification.
    cbn [ctrl_state notification set_fault]. split; [done|].
    rewrite no_clear_after_lor; auto.
  - destruct (fault_pass_without_clear level c Hst Hn) as [Hs' Hn']. split; [done|].
    by rewrite Hn'.
Qed.

(** X22. The Fault state is left by a fault clear only: from the Fault state
    with no clear pending, any sequence of passes (whatever the button
    does), start-up notifications and further fault reports leaves the task
    in the Fault state. *)
Theorem fault_state_persists_until_cleared (evs : list ctrl_event) (c : ctrl_vars) :
  ctrl_state c = CTRL_ST_FAULT ->
  Notification (notification c) CTRL_NOTIFY_FAULT_CLEAR = false ->
  Forall no_fault_clear evs ->
  ctrl_state (ctrl_run evs c) = CTRL_ST_FAULT.
Proof.
  revert c. induction evs as [|e evs IH]; intros c Hst Hn Hall; [done|].
  inversion Hall as [|? ? He Hall']; subst.
  destruct (fault_kept_step e c He Hst Hn) as [Hs' Hn'].
  unfold ctrl_run. cbn [fold_left]. by apply IH.
Qed.

Lemma fault_and_saved_kept_step e c :
  no_fault_clear e ->
  ctrl_state c = CTRL_ST_FAULT -> ctrl_pre_activity_state c = CTRL_ST_FAULT ->
  Notification (notification c) CTRL_NOTIFY_FAULT_CLEAR = false ->
  ctrl_state (ctrl_step e c) = CTRL_ST_FAULT /\
  ctrl_pre_activity_state (ctrl_step e c) = CTRL_ST_FAULT /\
  Notification (notification (ctrl_step e c)) CTRL_NOTIFY_FAULT_CLEAR = false.
Proof.
  intros He Hst Hpre Hn. destruct (fault_kept_step e c He Hst Hn) as [Hs' Hn'].
  split; [done|]. split; [|done].
  destruct e as [f| |level]; cbn [ctrl_step no_fault_clear] in *.
  - unfold ctrl_set_fault_type. rewrite (proj2 (Z.eqb_neq _ _) He).
    unfold xTaskNotify_ctrl, set_notification.
    cbn [ctrl_pre_activity_state ctrl_fault_type set_fault]. done.
  - unfold xTaskNotify_ctrl, set_notification.
    cbn [ctrl_pre_activity_state ctrl_fault_type set_fault]. done.
  - by rewrite CtrlProofs.pre_ctrl_task_pass.
Qed.

Lemma fault_and_saved_kept evs : forall c,
  Forall no_fault_clear evs ->
  ctrl_state c = CTRL_ST_FAULT -> ctrl_pre_activity_state c = CTRL_ST_FAULT ->
  Notification (notification c) CTRL_NOTIFY_FAULT_CLEAR = false ->
  ctrl_state (ctrl_run evs c) = CTRL_ST_FAULT /\
  ctrl_pre_activity_state (ctrl_run evs c) = CTRL_ST_FAULT.
Proof.
  induction evs as [|e evs IH]; intros c Hall Hst Hpre Hn; [done|].
  inversion Hall as [|? ? He Hall']; subst.
  destruct (fault_and_saved_kept_step e c He Hst Hpre Hn) as (Hs' & Hp' & Hn').
  unfold ctrl_run. cbn [fold_left]. by apply IH.
Qed.

(** X23. A fault reported while the task is already in the Fault state is not
    unwound by a clear: from the Fault state with no clear pending, after a
    further fault report, any passes, start-up notifications and fault
    reports, then a fault clear and the pass that handles it, the task is
    still in the Fault state, because the state saved by the report was the
    Fault state itself. *)
Theorem fault_reported_in_fault_state_is_not_unwound
        (c : ctrl_vars) (f level : Z) (evs : list ctrl_event) :
  ctrl_state c = CTRL_ST_FAULT ->
  Notification (notification c) CTRL_NOTIFY_FAULT_CLEAR = false ->
  f <> CTRL_FAULT_NONE -> Forall no_fault_clear evs ->
  ctrl_state
    (ctrl_task_pass level
       (ctrl_set_fault_type CTRL_FAULT_NONE (ctrl_run evs (ctrl_set_fault_type f c))))
  = CTRL_ST_FAULT.
Proof.
  intros Hst Hn Hf Hall.
  set (c1 := ctrl_set_fault_type f c).
  assert (H1 : ctrl_state c1 = CTRL_ST_FAULT /\ ctrl_pre_activity_state c1 = CTRL_ST_FAULT
               /\ Notification (notification c1) CTRL_NOTIFY_FAULT_CLEAR = false).
  { unfold c1, ctrl_set_fault_type. rewrite (proj2 (Z.eqb_neq _ _) Hf).
    unfold xTaskNotify_ctrl, set_notification.
    cbn [ctrl_state ctrl_pre_activity_state notification ctrl_fault_type set_fault].
    repeat split; try done. rewrite no_clear_after_lor; auto. }
  destruct H1 as (Hs1 & Hp1 & Hn1).
  destruct (fault_and_saved_kept evs c1 Hall Hs1 Hp1 Hn1) as [Hs2 Hp2].
  set (c2 := ctrl_run evs c1) in *.
  set (c3 := ctrl_set_fault_type CTRL_FAULT_NONE c2).
  assert (H3 : ctrl_pre_activity_state c3 = CTRL_ST_FAULT /\
               Notification (notification c3) CTRL_NOTIFY_FAULT_CLEAR = true).
  { unfold c3, ctrl_set_fault_type. change (CTRL_FAULT_NONE =? CTRL_FAULT_NONE)%Z with true.
    cbv iota. unfold xTaskNotify_ctrl, set_notification.
    cbn [ctrl_state ctrl_pre_activity_state notification ctrl_fault_type set_fault].
    split; [done|]. apply CtrlProofs.Notification_lor_same. }
  destruct H3 as [Hp3 Hn3].
  unfold ctrl_task_pass.
  pose proof (CtrlProofs.state_after_clear c3 Hn3) as Hs4. rewrite Hp3 in Hs4.
  rewrite CtrlProofs.state_ctrl_eval_sm; rewrite CtrlProofs.state_ctrl_eval_led_sm; auto.
Qed.

(** *** Start-up *)

Lemma led_view_ctrl_eval_sm level c :
  ctrl_state c = CTRL_ST_STARTUP \/ ctrl_state c = CTRL_ST_RUN \/ ctrl_state c = CTRL_ST_FAULT ->
  led_view (ctrl_eval_sm level c) = led_view c.
Proof.
  intros Hst. unfold ctrl_eval_sm.
  destruct (CtrlProofs.led_view_debounce level c) as [Hv _].
  destruct (CtrlProofs.debounce_keeps level c) as [Hs _].
  destruct (ctrl_debounce_button level c) as [[c' sp] lp]. cbn [fst snd] in Hv, Hs.
  rewrite <- Hs in Hst.
  destruct Hst as [E|[E|E]]; rewrite E; cbn; destruct sp, lp; exact Hv.
Qed.

Lemma startup_passes pins levels : forall pb bd bt,
  exists pb' bd' bt',
    ctrl_passes levels
      {| ctrl_state := CTRL_ST_STARTUP; ctrl_pre_activity_state := 0;
         ctrl_led_state := CTRL_LED_ST_SOLID; ctrl_led_timer := 0;
         ctrl_fault_led_count := 0; ctrl_fault_type := CTRL_FAULT_NONE;
         prev_btn := pb; btn_down := bd; btn_timer := bt;
         notification := 0; led_pins := pins; vid_notified := [] |}
    = {| ctrl_state := CTRL_ST_STARTUP; ctrl_pre_activity_state := 0;
         ctrl_led_state := CTRL_LED_ST_SOLID; ctrl_led_timer := 0;
         ctrl_fault_led_count := 0; ctrl_fault_type := CTRL_FAULT_NONE;
         prev_btn := pb'; btn_down := bd'; btn_timer := bt';
         notification := 0; led_pins := pins; vid_notified := [] |}.
Proof.
  induction levels as [|level levels IH]; intros pb bd bt; [by eexists _, _, _|].
  rewrite ctrl_passes_cons.
  assert (Hp : exists pb1 bd1 bt1,
    ctrl_task_pass level
      {| ctrl_state := CTRL_ST_STARTUP; ctrl_pre_activity_state := 0;
         ctrl_led_state := CTRL_LED_ST_SOLID; ctrl_led_timer := 0;
         ctrl_fault_led_count := 0; ctrl_fault_type := CTRL_FAULT_NONE;
         prev_btn := pb; btn_down := bd; btn_timer := bt;
         notification := 0; led_pins := pins; vid_notified := [] |}
    = {| ctrl_state := CTRL_ST_STARTUP; ctrl_pre_activity_state := 0;
         ctrl_led_state := CTRL_LED_ST_SOLID; ctrl_led_timer := 0;
         ctrl_fault_led_count := 0; ctrl_fault_type := CTRL_FAULT_NONE;
         prev_btn := pb1; btn_down := bd1; btn_timer := bt1;
         notification := 0; led_pins := pins; vid_notified := [] |}).
  { unfold_pass. simpl.
    destruct (level =? 0)%Z, pb, bd; simpl;
      repeat match goal with
             | |- context [(?a =? ?b)%Z] => destruct (a =? b)%Z; simpl
             end; by eexists _, _, _. }
  destruct Hp as (pb1 & bd1 & bt1 & ->). apply IH.
Qed.

(** X24. The outcome of start-up reaches the status LED.  Whatever passes the
    control task has made before, once [app_main] has gone through its
    initialisation stages the next pass of the control task leaves it: in
    the Run state with a solid green LED when all three stages succeeded;
    and otherwise in the Fault state, the LED red and set up to blink the
    code of the first stage that failed (1, 2 or 3).  The video and
    acquisition tasks are created in the first case only. *)
Theorem startup_outcome_reaches_led
        (esp_io_ok peripheral_ok buffer_ok : bool) (pins : Z * Z)
        (levels : list Z) (level : Z) :
  let acts := app_main esp_io_ok peripheral_ok buffer_ok in
  let f := boot_fault esp_io_ok peripheral_ok buffer_ok in
  let c := ctrl_run (map EvPass levels ++ ctrl_events acts ++ [EvPass level])
                    (ctrl_task_init pins) in
  (f = CTRL_FAULT_NONE -> esp_io_ok && peripheral_ok && buffer_ok = true /\
     ctrl_state c = CTRL_ST_RUN /\ ctrl_led_state c = CTRL_LED_ST_SOLID /\
     led_pins c = (0, 1)%Z /\
     In (create_task "vid_task") acts /\ In (create_task "lep_task") acts) /\
  (f <> CTRL_FAULT_NONE -> esp_io_ok && peripheral_ok && buffer_ok = false /\
     ctrl_state c = CTRL_ST_FAULT /\ ctrl_fault_type c = f /\
     ctrl_led_state c = CTRL_LED_ST_FLT_ON /\ ctrl_fault_led_count c = f /\
     led_pins c = (1, 0)%Z /\
     ~ In (create_task "vid_task") acts /\ ~ In (create_task "lep_task") acts).
Proof.
  intros acts f c.
  assert (Hc : exists pb bd bt,
    c = ctrl_task_pass level
          (ctrl_run (ctrl_events acts)
             {| ctrl_state := CTRL_ST_STARTUP; ctrl_pre_activity_state := 0;
                ctrl_led_state := CTRL_LED_ST_SOLID; ctrl_led_timer := 0;
                ctrl_fault_led_count := 0; ctrl_fault_type := CTRL_FAULT_NONE;
                prev_btn := pb; btn_down := bd; btn_timer := bt;
                notification := 0; led_pins := (1, 1)%Z; vid_notified := [] |})).
  { unfold c, ctrl_run. rewrite !fold_left_app.
    fold (ctrl_run (map EvPass levels) (ctrl_task_init pins)).
    fold (ctrl_passes levels (ctrl_task_init pins)).
    change (ctrl_task_init pins) with
      {| ctrl_state := CTRL_ST_STARTUP; ctrl_pre_activity_state := 0;
         ctrl_led_state := CTRL_LED_ST_SOLID; ctrl_led_timer := 0;
         ctrl_fault_led_count := 0; ctrl_fault_type := CTRL_FAULT_NONE;
         prev_btn := false; btn_down := false; btn_timer := 0;
         notification := 0; led_pins := (1, 1)%Z; vid_notified := [] |}.
    destruct (startup_passes (1, 1)%Z levels false false 0) as (pb & bd & bt & ->).
    by exists pb, bd, bt. }
  destruct Hc as (pb & bd & bt & Hc). clearbody c. subst c.
  unfold ctrl_task_pass.
  match goal with |- context [ctrl_eval_sm level ?x] => set (c2 := x) end.
  assert (Hview : ctrl_state c2 = CTRL_ST_STARTUP \/ ctrl_state c2 = CTRL_ST_RUN
                  \/ ctrl_state c2 = CTRL_ST_FAULT ->
                  ctrl_state (ctrl_eval_sm level c2) = ctrl_state c2 /\
                  led_view (ctrl_eval_sm level c2) = led_view c2).
  { intros Hst. split; [by apply CtrlProofs.state_ctrl_eval_sm|by apply led_view_ctrl_eval_sm]. }
  unfold led_view in Hview.
  unfold acts, f, app_main, boot_fault in *.
  destruct esp_io_ok, peripheral_ok, buffer_ok; cbn [negb andb];
    (split; [intros Hf|intros Hf]; try (exfalso; by apply Hf); try discriminate Hf);
    (split; [reflexivity|]);
    (destruct Hview as [Hs Hv]; [vm_compute; auto|]);
    injection Hv as Hv1 Hv2 Hv3 Hv4 Hv5;
    rewrite ?Hs, ?Hv1, ?Hv3, ?Hv4, ?Hv5;
    repeat split; try reflexivity;
    cbn [In]; intuition discriminate.
Qed.

(** *** The properties on sample states *)

Lemma press_witness :
  let c := {| ctrl_state := CTRL_ST_RUN; ctrl_pre_activity_state := 0;
              ctrl_led_state := CTRL_LED_ST_SOLID; ctrl_led_timer := 0;
              ctrl_fault_led_count := 0; ctrl_fault_type := CTRL_FAULT_NONE;
              prev_btn := false; btn_down := false; btn_timer := 0;
              notification := 0; led_pins := (0, 1)%Z; vid_notified := [] |} in
  let c' := ctrl_passes (replicate 3 0%Z ++ [1; 1]%Z) c in
  vid_notified c' = vid_notified c ++ press_result 3 /\ running_idle c'.
Proof.
  intros c. apply (press_yields_one_notification c 3 1 1); [|discriminate|discriminate].
  unfold running_idle. cbn. auto.
Defined.

Lemma fault_state_witness :
  ctrl_state
    (ctrl_run [EvPass 1; EvStartupDone; EvPass 0; EvSetFaultType 4; EvPass 1]
       {| ctrl_state := CTRL_ST_FAULT; ctrl_pre_activity_state := CTRL_ST_RUN;
          ctrl_led_state := CTRL_LED_ST_FLT_ON; ctrl_led_timer := 4;
          ctrl_fault_led_count := 6; ctrl_fault_type := CTRL_FAULT_LEP_SYNC;
          prev_btn := false; btn_down := false; btn_timer := 0;
          notification := 0; led_pins := (1, 0)%Z; vid_notified := [] |})
  = CTRL_ST_FAULT.
Proof.
  apply (fault_state_persists_until_cleared
           [EvPass 1; EvStartupDone; EvPass 0; EvSetFaultType 4; EvPass 1]);
    [reflexivity|reflexivity|].
  repeat constructor. discriminate.
Defined.

Lemma fault_not_unwound_witness :
  ctrl_state
    (ctrl_task_pass 1
       (ctrl_set_fault_type CTRL_FAULT_NONE
          (ctrl_run [EvPass 1]
             (ctrl_set_fault_type 4
                {| ctrl_state := CTRL_ST_FAULT; ctrl_pre_activity_state := CTRL_ST_RUN;
                   ctrl_led_state := CTRL_LED_ST_FLT_ON; ctrl_led_timer := 4;
                   ctrl_fault_led_count := 6; ctrl_fault_type := CTRL_FAULT_LEP_SYNC;
                   prev_btn := false; btn_down := false; btn_timer := 0;
                   notification := 0; led_pins := (1, 0)%Z; vid_notified := [] |}))))
  = CTRL_ST_FAULT.
Proof.
  apply (fault_reported_in_fault_state_is_not_unwound
           {| ctrl_state := CTRL_ST_FAULT; ctrl_pre_activity_state := CTRL_ST_RUN;
              ctrl_led_state := CTRL_LED_ST_FLT_ON; ctrl_led_timer := 4;
              ctrl_fault_led_count := 6; ctrl_fault_type := CTRL_FAULT_LEP_SYNC;
              prev_btn := false; btn_down := false; btn_timer := 0;
              notification := 0; led_pins := (1, 0)%Z; vid_notified := [] |}
           4 1 [EvPass 1]);
    [reflexivity|reflexivity|discriminate|].
  repeat constructor.
Defined.

End CtrlRunProofs.

(** ** The acquisition task and the control task together *)
Module SystemProofs.
Import Ctrl CtrlSpec SystemSpec.

Lemma lep_ctrl_events_app l1 l2 :
  lep_ctrl_events (l1 ++ l2) = lep_ctrl_events l1 ++ lep_ctrl_events l2.
Proof.
  induction l1 as [|a l1 IH]; [done|]. destruct a; cbn; by rewrite ?IH.
Qed.

Lemma lep_ctrl_events_delays n ms : lep_ctrl_events (replicate n (Lep.vTaskDelay ms)) = [].
Proof. induction n as [|n IH]; [done|]. exact IH. Qed.

Lemma lep_misses_to_fault LIMIT RETRY (s : Lep.lep_vars) :
  Lep.task_state s = Lep.STATE_RUN -> Lep.vsync_count s = 0%Z ->
  Lep.sync_fail_count s = 0%Z -> (0 <= LIMIT)%Z ->
  (Lep.lep_task_run LIMIT RETRY (replicate (36 * (Z.to_nat LIMIT + 1)) false) s).2
  = replicate (Z.to_nat LIMIT + 1) (Lep.vTaskDelay 185)
      ++ [Lep.ctrl_set_fault_type CTRL_FAULT_LEP_SYNC].
Proof.
  intros Hst Hv Hf HL.
  assert (Ed : (36 * (Z.to_nat LIMIT + 1) - 1) / 36 = Z.to_nat LIMIT /\
               (36 * (Z.to_nat LIMIT + 1) - 1) mod 36 = 35).
  { pose proof (Nat.div_mod_eq (36 * (Z.to_nat LIMIT + 1) - 1) 36).
    pose proof (Nat.mod_upper_bound (36 * (Z.to_nat LIMIT + 1) - 1) 36). lia. }
  destruct Ed as [Ed Em].
  replace (36 * (Z.to_nat LIMIT + 1)) with ((36 * (Z.to_nat LIMIT + 1) - 1) + 1) at 1 by lia.
  rewrite replicate_add, LepProofs.lep_task_run_app.
  rewrite LepProofs.lep_misses_closed_form by (done || lia).
  cbn [fst snd replicate Lep.lep_task_run]. rewrite Ed.
  unfold LepSpec.lep_after_misses. rewrite Em, Ed.
  unfold Lep.lep_task_pass, Lep.lep_state_run.
  cbn [Lep.task_state Lep.vsync_count Lep.sync_fail_count Lep.reset_fail_count
       Lep.vid_buf_index].
  change (Lep.STATE_RUN =? Lep.STATE_INIT)%Z with false.
  change (Lep.STATE_RUN =? Lep.STATE_RUN)%Z with true.
  change (Z.of_nat 35 + 1 =? 36)%Z with true. cbv iota.
  rewrite (proj2 (Z.eqb_eq (Z.of_nat (Z.to_nat LIMIT)) LIMIT)) by lia.
  rewrite replicate_add. cbn [replicate].
  destruct (Lep.reset_fail_count s =? 0)%Z; cbn [fst snd app]; by rewrite <- !app_assoc.
Qed.

Lemma fault_report_then_pass f level c :
  f <> CTRL_FAULT_NONE -> notification c = 0%Z ->
  let c' := ctrl_task_pass level (ctrl_set_fault_type f c) in
  ctrl_state c' = CTRL_ST_FAULT /\ ctrl_pre_activity_state c' = ctrl_state c /\
  ctrl_fault_type c' = f /\ ctrl_led_state c' = CTRL_LED_ST_FLT_ON /\
  ctrl_led_timer c' = 3%Z /\ ctrl_fault_led_count c' = f /\ led_pins c' = (1, 0)%Z.
Proof.
  intros Hf Hn c'. unfold c', ctrl_task_pass.
  match goal with |- context [ctrl_eval_sm level ?x] => set (c2 := x) end.
  assert (H2 : ctrl_state c2 = CTRL_ST_FAULT /\ ctrl_pre_activity_state c2 = ctrl_state c /\
               led_view c2 = (CTRL_LED_ST_FLT_ON, 3, f, f, (1, 0))%Z).
  { unfold c2, ctrl_set_fault_type. rewrite (proj2 (Z.eqb_neq _ _) Hf).
    destruct c as [st pre lst ltm cnt ft pb bd bt nt pins vn]. cbn in Hn. subst nt.
    unfold ctrl_handle_notifications, xTaskNotify_ctrl, set_notification, set_fault.
    cbn [notification ctrl_state ctrl_pre_activity_state ctrl_fault_type ctrl_led_state
         ctrl_led_timer ctrl_fault_led_count prev_btn btn_down btn_timer led_pins
         vid_notified].
    change (Notification (Z.lor 0 CTRL_NOTIFY_FAULT) CTRL_NOTIFY_STARTUP_DONE) with false.
    change (Notification (Z.lor 0 CTRL_NOTIFY_FAULT) CTRL_NOTIFY_FAULT) with true.
    change (Notification (Z.lor 0 CTRL_NOTIFY_FAULT) CTRL_NOTIFY_FAULT_CLEAR) with false.
    cbv iota. unfold ctrl_set_state. change (CTRL_ST_FAULT =? CTRL_ST_STARTUP)%Z with false.
    change (CTRL_ST_FAULT =? CTRL_ST_RUN)%Z with false.
    change (CTRL_ST_FAULT =? CTRL_ST_FAULT)%Z with true. cbv iota zeta.
    cbn [set_ctrl_state ctrl_fault_type]. rewrite (proj2 (Z.eqb_neq _ _) Hf).
    cbn. done. }
  destruct H2 as (Hs2 & Hp2 & Hv2).
  assert (Hst : ctrl_state c2 = CTRL_ST_STARTUP \/ ctrl_state c2 = CTRL_ST_RUN \/
                ctrl_state c2 = CTRL_ST_FAULT) by auto.
  pose proof (CtrlProofs.state_ctrl_eval_sm level c2 Hst) as Hs.
  pose proof (CtrlRunProofs.led_view_ctrl_eval_sm level c2 Hst) as Hv.
  pose proof (CtrlProofs.pre_ctrl_eval_sm level c2) as Hp.
  rewrite Hv2 in Hv. unfold led_view in Hv. injection Hv as -> -> -> -> ->.
  rewrite Hs, Hs2. repeat split; try done. rewrite <- Hp2. apply Hp.
Qed.

(** X25. Lost synchronisation reaches the status LED as fault code 6.  From
    the Run state with zeroed miss and failure counters, 36 * (limit + 1)
    missed frames in a row make the acquisition task call the control task
    exactly once, to report the synchronisation fault.  A control task with
    nothing else pending is, after its next pass, in the Fault state with
    the state it came from saved, the LED red and the blink count at 6. *)
Theorem lost_sync_reaches_led (LIMIT RETRY : Z) (s : Lep.lep_vars)
        (c : ctrl_vars) (level : Z) :
  Lep.task_state s = Lep.STATE_RUN -> Lep.vsync_count s = 0%Z ->
  Lep.sync_fail_count s = 0%Z -> (0 <= LIMIT)%Z -> notification c = 0%Z ->
  let calls :=
    (Lep.lep_task_run LIMIT RETRY (replicate (36 * (Z.to_nat LIMIT + 1)) false) s).2 in
  let c' := ctrl_task_pass level (ctrl_run (lep_ctrl_events calls) c) in
  lep_ctrl_events calls = [EvSetFaultType CTRL_FAULT_LEP_SYNC] /\
  ctrl_state c' = CTRL_ST_FAULT /\ ctrl_pre_activity_state c' = ctrl_state c /\
  ctrl_led_state c' = CTRL_LED_ST_FLT_ON /\ ctrl_fault_led_count c' = 6%Z /\
  led_pins c' = ctrl_set_led CTRL_LED_RED (led_pins c).
Proof.
  intros Hst Hv Hf HL Hn calls c'.
  assert (Hc : lep_ctrl_events calls = [EvSetFaultType CTRL_FAULT_LEP_SYNC]).
  { unfold calls. rewrite lep_misses_to_fault by done.
    by rewrite lep_ctrl_events_app, lep_ctrl_events_delays. }
  split; [exact Hc|]. unfold c'. rewrite Hc. cbn [ctrl_run fold_left ctrl_step].
  destruct (fault_report_then_pass CTRL_FAULT_LEP_SYNC level c) as (H1 & H2 & _ & H4 & _ & H6 & H7);
    [discriminate|done|].
  by rewrite H1, H2, H4, H6, H7.
Qed.

Lemma lost_sync_witness :
  let s := {| Lep.task_state := Lep.STATE_RUN; Lep.vid_buf_index := 0;
              Lep.vsync_count := 0; Lep.sync_fail_count := 0;
              Lep.reset_fail_count := 0 |} in
  let c := ctrl_set_state CTRL_ST_RUN (ctrl_task_init (0, 0)%Z) in
  let calls := (Lep.lep_task_run 1 60 (replicate (36 * (Z.to_nat 1 + 1)) false) s).2 in
  let c' := ctrl_task_pass 1 (ctrl_run (lep_ctrl_events calls) c) in
  lep_ctrl_events calls = [EvSetFaultType CTRL_FAULT_LEP_SYNC] /\
  ctrl_state c' = CTRL_ST_FAULT /\ ctrl_pre_activity_state c' = ctrl_state c /\
  ctrl_led_state c' = CTRL_LED_ST_FLT_ON /\ ctrl_fault_led_count c' = 6%Z /\
  led_pins c' = ctrl_set_led CTRL_LED_RED (led_pins c).
Proof.
  apply (lost_sync_reaches_led 1 60
           {| Lep.task_state := Lep.STATE_RUN; Lep.vid_buf_index := 0;
              Lep.vsync_count := 0; Lep.sync_fail_count := 0;
              Lep.reset_fail_count := 0 |}
           (ctrl_set_state CTRL_ST_RUN (ctrl_task_init (0, 0)%Z)) 1);
    reflexivity || lia.
Defined.

End SystemProofs.
